(** * ComfyUI_PNGInfo_Sidebar: metadata extraction and parameter parsing

    A shallow embedding of the two parsers of the sidebar:

    - [ForgeUI] (read_prompt_forge.js): the generation-parameter text
      parser ([run], [parseParameters]);
    - [ImageUploader] (web/ImageUploader.js): the JPEG/EXIF/TIFF reader
      ([readEXIFMetadata], [readEXIFData], [readTags], [readTagValue],
      [getStringFromDB]) and the dispatcher [parceMetadata].

    JavaScript strings are sequences of UTF-16 code units; they are
    modelled as lists of code units ([N]).  Byte buffers are lists of
    [Byte.byte]; offsets are JavaScript numbers that stay far below 2^53
    here and are modelled as [Z].  An exception is an explicit outcome. *)

From Stdlib Require Import Strings.String Strings.Ascii Strings.Byte.
From Stdlib Require Import List ZArith NArith Bool Lia Arith.
From Equations Require Import Equations.
Import Corelib.Init.Datatypes.
Import ListNotations.

Set Implicit Arguments.

(* ================================================================== *)
(** * JavaScript strings *)
(* ================================================================== *)

Module JsString.

(** A UTF-16 code unit. *)
Definition char := N.

(** A JavaScript string. *)
Definition str := list char.

(** A string literal of the source (ASCII text). *)
Definition lit (s : string) : str :=
  List.map N_of_ascii (list_ascii_of_string s).
Arguments lit s%_string.

Definition NL : char := 10%N.      (* line feed *)
Definition DQUOTE : char := 34%N.  (* double quote *)
Definition DOLLAR : char := 36%N.  (* dollar sign *)
Definition COMMA : char := 44%N.   (* comma *)
Definition COLON : char := 58%N.   (* colon *)
Definition LT : char := 60%N.      (* less-than sign *)
Definition GT : char := 62%N.      (* greater-than sign *)

Definition str_eq_dec : forall a b : str, {a = b} + {a <> b} :=
  list_eq_dec N.eq_dec.

Fixpoint eqb_str (a b : str) : bool :=
  match a, b with
  | [], [] => true
  | x :: a', y :: b' => (x =? y)%N && eqb_str a' b'
  | _, _ => false
  end.

(** ECMAScript WhiteSpace and LineTerminator code points, the characters
    [String.prototype.trim] removes. *)
Definition is_ws (c : char) : bool :=
  ((9 <=? c) && (c <=? 13) || (c =? 32) || (c =? 160) || (c =? 5760)
   || (8192 <=? c) && (c <=? 8202)
   || (c =? 8232) || (c =? 8233) || (c =? 8239) || (c =? 8287)
   || (c =? 12288) || (c =? 65279))%N.

(** LineTerminator code points, which [.] of a regular expression (no
    [s] flag) does not match. *)
Definition is_line_terminator (c : char) : bool :=
  ((c =? 10) || (c =? 13) || (c =? 8232) || (c =? 8233))%N.

Fixpoint trimStart (s : str) : str :=
  match s with
  | c :: s' => if is_ws c then trimStart s' else s
  | [] => []
  end.

Definition trimEnd (s : str) : str := rev (trimStart (rev s)).

(** [s.trim()] *)
Definition trim (s : str) : str := trimEnd (trimStart s).

(** [s.startsWith(p)] *)
Fixpoint startsWith (p s : str) : bool :=
  match p, s with
  | [], _ => true
  | x :: p', y :: s' => (x =? y)%N && startsWith p' s'
  | _ :: _, [] => false
  end.

(** [s.endsWith(p)] *)
Definition endsWith (p s : str) : bool := startsWith (rev p) (rev s).

(** [s.indexOf(p)]; [None] stands for -1. *)
Fixpoint indexOf (p s : str) : option nat :=
  if startsWith p s then Some 0
  else match s with
       | [] => None
       | _ :: s' => option_map S (indexOf p s')
       end.

(** [s.includes(p)] *)
Definition includes (p s : str) : bool :=
  match indexOf p s with Some _ => true | None => false end.

(** [s.slice(0, i)] and [s.slice(i)] for [0 <= i]. *)
Definition slice_to (i : nat) (s : str) : str := firstn i s.
Definition slice_from (i : nat) (s : str) : str := skipn i s.

(** [s.slice(1, -1)] *)
Definition slice_1_m1 (s : str) : str := removelast (tl s).

(** Splitting at the characters picked by [delim c rest], where [rest]
    is the text after [c]: the pieces between the delimiters, in order,
    delimiters dropped.  The result is never the empty list, as with
    [String.prototype.split] for a separator that cannot match the empty
    string. *)
Fixpoint split_where (delim : char -> str -> bool) (s : str) : list str :=
  match s with
  | [] => [[]]
  | c :: s' =>
      if delim c s' then [] :: split_where delim s'
      else match split_where delim s' with
           | l :: ls => (c :: l) :: ls
           | [] => [[c]]
           end
  end.

(** [s.split(sep)] for a one-character separator. *)
Definition split (sep : char) (s : str) : list str :=
  split_where (fun c _ => (c =? sep)%N) s.

(** [parts.join(sep)] *)
Fixpoint join (sep : str) (parts : list str) : str :=
  match parts with
  | [] => []
  | [p] => p
  | p :: ps => p ++ sep ++ join sep ps
  end.

(** [s] has an occurrence of [p]. *)
Definition contains (p s : str) : Prop := exists a b, s = a ++ p ++ b.

End JsString.
Import JsString.

(* ================================================================== *)
(** * JavaScript values, objects, exceptions *)
(* ================================================================== *)

(** The values that reach the metadata mapping: a PNG text chunk is a
    string; a decoded TIFF tag is a string (type 7), a number (type 4) or
    [undefined]. *)
Inductive jsvalue : Type :=
| VUndefined
| VNum (n : Z)
| VStr (s : str).

(** ToBoolean *)
Definition truthy (v : jsvalue) : bool :=
  match v with
  | VUndefined => false
  | VNum n => negb (n =? 0)%Z
  | VStr s => match s with [] => false | _ => true end
  end.

(** An object whose property names are not array indices: the properties
    in insertion order.  Assigning an existing property keeps its place
    and replaces its value. *)
Definition object (A : Type) := list (str * A).

Fixpoint obj_set (A : Type) (o : object A) (k : str) (v : A) : object A :=
  match o with
  | [] => [(k, v)]
  | (k', v') :: o' =>
      if eqb_str k' k then (k', v) :: o' else (k', v') :: obj_set o' k v
  end.

Fixpoint obj_get (A : Type) (o : object A) (k : str) : option A :=
  match o with
  | [] => None
  | (k', v') :: o' => if eqb_str k' k then Some v' else obj_get o' k
  end.

(** [Object.keys(o)] *)
Definition obj_keys (A : Type) (o : object A) : list str := List.map fst o.

(** Reading a property of a value-object: a missing one is [undefined]. *)
Definition prop (o : object jsvalue) (k : str) : jsvalue :=
  match obj_get o k with Some v => v | None => VUndefined end.

(** The exceptions of the modelled code. *)
Inductive exn : Type :=
| RangeError   (* a DataView read outside the buffer *)
| TypeError.   (* a string method called on a non-string *)

(** The outcome of a call: a returned value or a thrown exception. *)
Inductive outcome (A : Type) : Type :=
| Ret (a : A)
| Throw (e : exn).
Arguments Throw {A} e.

Definition bind (A B : Type) (m : outcome A) (k : A -> outcome B) : outcome B :=
  match m with
  | Ret a => k a
  | Throw e => Throw e
  end.

Notation "x <- m ;; k" := (bind m (fun x => k))
  (at level 61, m at next level, right associativity).

(* ================================================================== *)
(** * Regular expressions of the source *)
(* ================================================================== *)

Module Regex.

(** A successful match: the matched text and the captured groups. *)
Record rmatch : Type := { whole : str; groups : list str }.

(** What a global ([g] flag) scan of a string produces, left to right:
    the characters no match covers, and the matches, each with the text
    before and after it. *)
Inductive piece : Type :=
| Unmatched (c : char)
| Matched (m : rmatch) (before after : str).

Section Global.

(** One attempt of the regular expression at the very start of a string.
    The expressions of the source never match the empty string. *)
Variable exec_at : str -> option rmatch.

(** The successive matches of a global scan.  [skip] counts the
    characters still covered by the previous match ([lastIndex] lies
    that far ahead); [pre] is the text already passed, reversed.  At a
    position where the expression fails the scan moves on by one
    character. *)
Fixpoint scan (skip : nat) (pre : str) (s : str) : list piece :=
  match s with
  | [] => []
  | c :: s' =>
      match skip with
      | S k => scan k (c :: pre) s'
      | O =>
          match exec_at s with
          | Some m =>
              Matched m (rev pre) (skipn (length (whole m)) s)
                :: scan (length (whole m) - 1) (c :: pre) s'
          | None => Unmatched c :: scan 0 (c :: pre) s'
          end
      end
  end.

Definition matched_texts (ps : list piece) : list str :=
  flat_map (fun p => match p with
                     | Unmatched _ => []
                     | Matched m _ _ => [whole m]
                     end) ps.

(** [s.match(re)] with the [g] flag: the matched texts, or [null]
    ([None]) when there is no match. *)
Definition match_g (s : str) : option (list str) :=
  match matched_texts (scan 0 [] s) with
  | [] => None
  | ms => Some ms
  end.

(** [s.replace(re, ...)] with the [g] flag, [subst] giving the text
    that replaces a match. *)
Definition replace_g (subst : rmatch -> str -> str -> str) (s : str) : str :=
  flat_map (fun p => match p with
                     | Unmatched c => [c]
                     | Matched m b a => subst m b a
                     end) (scan 0 [] s).

End Global.

(** The longest prefix of characters other than [c], and the rest. *)
Fixpoint span_not (c : char) (s : str) : str * str :=
  match s with
  | [] => ([], [])
  | x :: s' =>
      if (x =? c)%N then ([], s)
      else let (a, b) := span_not c s' in (x :: a, b)
  end.

(** [/<[^>]+>/] at the start of [s]: a less-than sign, then the longest
    run of characters other than the greater-than sign, which must be
    non-empty and must be followed by a greater-than sign. *)
Definition exec_span (s : str) : option rmatch :=
  match s with
  | c :: r =>
      if (c =? LT)%N then
        match span_not GT r with
        | ((_ :: _) as body, _ :: _) =>
            Some {| whole := LT :: body ++ [GT]; groups := [] |}
        | _ => None
        end
      else None
  | [] => None
  end.

(** A lazy group [(.*?)] followed by the character [sep] and then by the
    rest of the expression, [k]: the shortest run of characters that are
    not line terminators after which [sep] stands and [k] succeeds.
    [acc] is the run taken so far. *)
Fixpoint lazy_dot (A : Type) (sep : char) (k : str -> str -> option A)
    (acc : str) (s : str) : option A :=
  match s with
  | [] => None
  | c :: s' =>
      match (if (c =? sep)%N then k acc s' else None) with
      | Some r => Some r
      | None =>
          if is_line_terminator c then None
          else lazy_dot sep k (acc ++ [c]) s'
      end
  end.

(** [/<(.*?):(.*?):(.*?)>/] at the start of [s]. *)
Definition exec_triple (s : str) : option rmatch :=
  match s with
  | c :: r =>
      if (c =? LT)%N then
        lazy_dot COLON (fun g1 r1 =>
          lazy_dot COLON (fun g2 r2 =>
            lazy_dot GT (fun g3 _ =>
              Some {| whole := LT :: g1 ++ COLON :: g2 ++ COLON :: g3 ++ [GT];
                      groups := [g1; g2; g3] |})
              [] r2)
            [] r1)
          [] r
      else None
  | [] => None
  end.

Definition is_digit (c : char) : bool := ((48 <=? c) && (c <=? 57))%N.
Definition digit_val (c : char) : nat := N.to_nat (c - 48).

(** The [n]-th capture for a replacement pattern on [digits], or the
    pattern itself when the expression has no such group. *)
Definition capture_or (m : rmatch) (n : nat) (ref : str) : str :=
  match n with
  | O => ref
  | S i => match nth_error (groups m) i with
           | Some g => g
           | None => ref
           end
  end.

(** GetSubstitution of ECMAScript for an expression without named
    groups: the replacement template [tpl] expanded for the match [m]. *)
Fixpoint getSubstitution (m : rmatch) (before after : str) (tpl : str) : str :=
  match tpl with
  | [] => []
  | c :: t =>
      if negb (c =? DOLLAR)%N then c :: getSubstitution m before after t
      else
        match t with
        | [] => [DOLLAR]
        | d :: t' =>
            if (d =? DOLLAR)%N then DOLLAR :: getSubstitution m before after t'
            else if (d =? 38)%N then whole m ++ getSubstitution m before after t'
            else if (d =? 96)%N then before ++ getSubstitution m before after t'
            else if (d =? 39)%N then after ++ getSubstitution m before after t'
            else if is_digit d then
              match t' with
              | d2 :: t'' =>
                  if is_digit d2
                     && (10 * digit_val d + digit_val d2 <=? length (groups m))%nat
                  then capture_or m (10 * digit_val d + digit_val d2) [c; d; d2]
                         ++ getSubstitution m before after t''
                  else capture_or m (digit_val d) [c; d]
                         ++ getSubstitution m before after t'
              | [] => capture_or m (digit_val d) [c; d]
              end
            else if (d =? LT)%N then c :: d :: getSubstitution m before after t'
            else c :: getSubstitution m before after t
        end
  end.

End Regex.

(* ================================================================== *)
(** * ForgeUI: the generation-parameter text parser *)
(* ================================================================== *)

Module ForgeUI.

Import Regex.

(** The methods that [ForgeUI] inherits from [BaseFormat]
    (read_prompt_base.js, not part of the sources at hand): HTML
    escaping, numeric-string detection and the clean-up of the edges of
    a prompt.  [log] only writes to the console and is left out. *)
Class BaseFormat : Type := {
  escapeHTML : str -> str;
  isNumber : str -> bool;
  cleanEdges : str -> str
}.

(** [options.colors]: opaque markup fragments. *)
Record Colors : Type := {
  color_file : str;
  color_default : str;
  color_int : str
}.

(** An element of the list [parseParameters] returns. *)
Record entry : Type := { key : str; value : str }.

(** The lookahead of the splitting expression, run over the text after
    a comma; with [q] for the double quote it reads
    [(?=(?:(?:[^q]*q){2})*[^q]*$)].  [half] tells that one double quote
    of a [{2}] group has been taken; the end of the text is accepted
    only between groups. *)
Fixpoint lookahead (half : bool) (s : str) : bool :=
  match s with
  | [] => negb half
  | c :: s' => if (c =? DQUOTE)%N then lookahead (negb half) s'
               else lookahead half s'
  end.

(** [text.split(re)] for the splitting expression: a comma followed by
    that lookahead. *)
Definition split_commas (text : str) : list str :=
  split_where (fun c rest => (c =? COMMA)%N && lookahead false rest) text.

(** One turn of the loop of [parseParameters]: [result] after [part]. *)
Definition parse_part (result : list entry) (part : str) : list entry :=
  match trim part with
  | [] => result                                           (* continue *)
  | _ :: _ =>
      match indexOf [COLON] part with
      | None => result                                     (* continue *)
      | Some colonIndex =>
          let key := trim (slice_to colonIndex part) in
          let value := trim (slice_from (colonIndex + 1) part) in
          let value :=
            if startsWith [DQUOTE] value && endsWith [DQUOTE] value
            then slice_1_m1 value else value in
          result ++ [{| key := key; value := value |}]     (* push *)
      end
  end.

(** [parseParameters(text)] *)
Definition parseParameters (text : str) : list entry :=
  fold_left parse_part (split_commas text) [].

(** The last line: [lines[lines.length - 1]]. *)
Definition last_line_of (lines : list str) : str :=
  if (0 <? length lines)%nat then last lines [] else [].

(** The prompt block: the single line, or all lines but the last
    rejoined. *)
Definition first_line_of (lines : list str) : str :=
  if (length lines =? 1)%nat then nth 0 lines []
  else if (1 <? length lines)%nat then join [NL] (removelast lines)
  else [].

Definition separator : str := lit "Negative prompt:".

(** The positive and negative prompt as first cut out of the prompt
    block (the values logged as [Positive prompt:] and
    [Negative prompt:]). *)
Definition split_prompt (first_line : str) : str * str :=
  if includes separator first_line then
    match indexOf separator first_line with
    | Some separatorIndex =>
        (trim (slice_to separatorIndex first_line),
         trim (slice_from (separatorIndex + length separator) first_line))
    | None => (trim first_line, [])
    end
  else (trim first_line, []).

(** [positive.match(/<[^>]+>/g)] *)
Definition match_loras (positive : str) : option (list str) :=
  match_g exec_span positive.

(** [positive.replace(/<[^>]+>/g, empty)], every match replaced by the
    empty string. *)
Definition strip_loras (positive : str) : str :=
  replace_g exec_span (fun m b a => getSubstitution m b a []) positive.

Section Run.

Context {base : BaseFormat}.
Variable colors : Colors.

(** The replacement template of the LoRA display text. *)
Definition lora_template : str :=
  lit "&lt$1:" ++ color_file colors ++ lit "$2" ++ color_default colors
    ++ lit ":" ++ color_int colors ++ lit "$3" ++ color_default colors
    ++ lit "&gt".

(** [lora[i].replace(/<(.*?):(.*?):(.*?)>/g, template)] *)
Definition lora_display (item : str) : str :=
  replace_g exec_triple
    (fun m b a => getSubstitution m b a lora_template) item.

(** The loop over [lora] building [lora_text]. *)
Definition lora_text_of (lora : list str) : str :=
  fold_left (fun lora_text item => lora_text ++ lit "<br>" ++ lora_display item)
    lora [].

(** One turn of the loop over [params] filling [result]. *)
Definition add_param (result : object str) (obj : entry) : object str :=
  let k := escapeHTML (key obj) in
  let text := escapeHTML (value obj) in
  if isNumber (value obj) then
    obj_set result (k ++ lit ": ") (color_int colors ++ text)
  else if eqb_str k (lit "Model") then
    obj_set result (k ++ lit ": ") (color_file colors ++ text)
  else
    obj_set result (k ++ lit ": ") text.

(** The fields [run] leaves on the parser. *)
Record parsed : Type := {
  positive : str;
  negative : str;
  lora : option (list str);
  params : list entry;
  _output : object str
}.

(** [result] as it stands before the loop over the parameters: the
    prompt, the negative prompt when it is not empty, the LoRA text when
    there was a match. *)
Definition report_head (positive negative : str) (lora : option (list str))
  : object str :=
  let result := [(lit "Prompt:<br>", escapeHTML positive)] in
  let result :=
    match negative with
    | [] => result
    | _ :: _ => obj_set result (lit "Negative Prompt:<br>") (escapeHTML negative)
    end in
  match lora with
  | Some l => obj_set result (lit "LoRA:") (lora_text_of l)
  | None => result
  end.

(** [run()] on a string [raw]. *)
Definition run (raw : str) : parsed :=
  let lines := split NL raw in
  let last_line := last_line_of lines in
  let first_line := first_line_of lines in
  let (positive0, negative0) := split_prompt first_line in
  let lora := match_loras positive0 in
  let positive1 := strip_loras positive0 in
  let positive := cleanEdges positive1 in
  let negative := cleanEdges negative0 in
  let result := report_head positive negative lora in
  let params := parseParameters last_line in
  let result := fold_left add_param params result in
  {| positive := positive; negative := negative; lora := lora;
     params := params; _output := result |}.

(** [new ForgeUI(raw, options)], [run()] and the [output] getter, for
    the value found in the metadata.  The constructor defaults an
    undefined [raw] to the empty string; a number has no [split], so
    [run] throws (and rethrows from its own handler). *)
Definition parse (raw : jsvalue) : outcome (object str) :=
  match raw with
  | VStr s => Ret (_output (run s))
  | VUndefined => Ret (_output (run []))
  | VNum _ => Throw TypeError
  end.

End Run.

End ForgeUI.

(* ================================================================== *)
(** * A concrete [BaseFormat] *)
(* ================================================================== *)

Module SpecBase.

Import ForgeUI.

(** Modelled from the spec: [escapeHTML] of read_prompt_base.js is not
    among the sources; the spec calls it an HTML-escaping function.  The
    five characters with a meaning in HTML are replaced by entities. *)
Definition escapeHTML_spec (s : str) : str :=
  flat_map (fun c =>
    if (c =? 38)%N then lit "&amp;"
    else if (c =? LT)%N then lit "&lt;"
    else if (c =? GT)%N then lit "&gt;"
    else if (c =? DQUOTE)%N then lit "&quot;"
    else if (c =? 39)%N then lit "&#039;"
    else [c]) s.

Fixpoint all_digits (s : str) : bool :=
  match s with
  | [] => true
  | c :: s' => Regex.is_digit c && all_digits s'
  end.

(** Modelled from the spec: [isNumber] of read_prompt_base.js is not
    among the sources; the spec calls it a numeric-string predicate.
    Here: an optional minus sign, digits, and an optional fraction of
    digits after a point. *)
Definition isNumber_spec (s : str) : bool :=
  let body := match s with
              | c :: s' => if (c =? 45)%N then s' else s
              | [] => []
              end in
  let (int_part, rest) := Regex.span_not 46%N body in
  match int_part, rest with
  | _ :: _, [] => all_digits int_part
  | _ :: _, _ :: ((_ :: _) as frac) => all_digits int_part && all_digits frac
  | _, _ => false
  end.

Definition wrapping_pair (a b : char) : bool :=
  ((a =? DQUOTE) && (b =? DQUOTE) || (a =? 39) && (b =? 39)
   || (a =? 40) && (b =? 41) || (a =? 91) && (b =? 93)
   || (a =? 123) && (b =? 125))%N.

(** Modelled from the spec: [cleanEdges] of read_prompt_base.js is not
    among the sources; the spec (4.5, step 4) has it trim surrounding
    whitespace and one layer of matched wrapping punctuation, leaving
    the inside of the text alone. *)
Definition cleanEdges_spec (s : str) : str :=
  let t := trim s in
  match t with
  | a :: ((_ :: _) as r) =>
      if wrapping_pair a (last r a) then trim (removelast r) else t
  | _ => t
  end.

#[export] Instance base_spec : BaseFormat := {
  escapeHTML := escapeHTML_spec;
  isNumber := isNumber_spec;
  cleanEdges := cleanEdges_spec
}.

(** Markup fragments for the examples. *)
Definition colors_spec : Colors := {|
  color_file := lit "[file]";
  color_default := lit "[/]";
  color_int := lit "[int]"
|}.

End SpecBase.

(* ================================================================== *)
(** * ImageUploader: the EXIF reader and the dispatcher *)
(* ================================================================== *)

Module ImageUploader.

Import ForgeUI.

Local Open Scope Z_scope.

(** The bytes of a file, as a [DataView] sees them. *)
Definition buffer := list byte.

Definition byteLength (b : buffer) : Z := Z.of_nat (length b).

(** The byte at an index inside the buffer. *)
Definition byte_at (b : buffer) (i : Z) : Z :=
  Z.of_N (Byte.to_N (nth (Z.to_nat i) b x00)).

(** [getUint8(off)], [getUint16(off, littleEndian)] and
    [getUint32(off, littleEndian)] of [DataView]: a read that does not
    lie inside the buffer throws a [RangeError]. *)
Definition getUint8 (b : buffer) (off : Z) : outcome Z :=
  if (0 <=? off) && (off + 1 <=? byteLength b) then Ret (byte_at b off)
  else Throw RangeError.

Definition getUint16 (b : buffer) (off : Z) (littleEndian : bool) : outcome Z :=
  if (0 <=? off) && (off + 2 <=? byteLength b) then
    Ret (if littleEndian
         then byte_at b off + 256 * byte_at b (off + 1)
         else 256 * byte_at b off + byte_at b (off + 1))
  else Throw RangeError.

Definition getUint32 (b : buffer) (off : Z) (littleEndian : bool) : outcome Z :=
  if (0 <=? off) && (off + 4 <=? byteLength b) then
    Ret (if littleEndian
         then byte_at b off + 256 * byte_at b (off + 1)
              + 65536 * byte_at b (off + 2) + 16777216 * byte_at b (off + 3)
         else 16777216 * byte_at b off + 65536 * byte_at b (off + 1)
              + 256 * byte_at b (off + 2) + byte_at b (off + 3))
  else Throw RangeError.

(** The loop of [getStringFromDB], [count] turns from index [n] on. *)
Fixpoint getStringFromDB_from (b : buffer) (n : Z) (count : nat) : outcome str :=
  match count with
  | O => Ret []
  | S k =>
      c <- getUint8 b n ;;
      outstr <- getStringFromDB_from b (n + 1) k ;;
      Ret (Z.to_N c :: outstr)
  end.

(** [getStringFromDB(buffer, start, length)]: the loop runs for
    [start <= n < start + length], not at all for a [length] below 1. *)
Definition getStringFromDB (b : buffer) (start length : Z) : outcome str :=
  getStringFromDB_from b start (Z.to_nat length).

(** [readTagValue(file, entryOffset, tiffStart, dirStart, bigEnd)] *)
Definition readTagValue (file : buffer) (entryOffset tiffStart : Z)
    (bigEnd : bool) : outcome jsvalue :=
  type <- getUint16 file (entryOffset + 2) (negb bigEnd) ;;
  numValues <- getUint32 file (entryOffset + 4) (negb bigEnd) ;;
  field <- getUint32 file (entryOffset + 8) (negb bigEnd) ;;
  let valueOffset := field + tiffStart in
  if type =? 7 then
    let offset := if 4 <? numValues then valueOffset else entryOffset + 8 in
    s <- getStringFromDB file (offset + 7) (numValues - 8) ;;
    Ret (VStr s)
  else if type =? 4 then
    if numValues =? 1 then
      n <- getUint32 file (entryOffset + 8) (negb bigEnd) ;;
      Ret (VNum n)
    else Ret VUndefined
  else Ret VUndefined.

(** A tag-name table: [strings[id]]. *)
Definition tag_table := list (Z * str).

Fixpoint lookup_tag (strings : tag_table) (id : Z) : option str :=
  match strings with
  | [] => None
  | (k, name) :: rest => if k =? id then Some name else lookup_tag rest id
  end.

(** The property name [tags[tag]] is assigned under: a name of the
    table, or, for an id the table lacks, [undefined] turned into a
    property name. *)
Definition tag_key (tag : option str) : str :=
  match tag with
  | Some name => name
  | None => lit "undefined"
  end.

(** The loop of [readTags] from entry [i] on, [count] entries to go. *)
Fixpoint readTags_from (file : buffer) (tiffStart dirStart : Z)
    (strings : tag_table) (bigEnd : bool) (i : Z) (count : nat)
    (tags : object jsvalue) : outcome (object jsvalue) :=
  match count with
  | O => Ret tags
  | S k =>
      let entryOffset := dirStart + i * 12 + 2 in
      id <- getUint16 file entryOffset (negb bigEnd) ;;
      let tag := lookup_tag strings id in
      v <- readTagValue file entryOffset tiffStart bigEnd ;;
      readTags_from file tiffStart dirStart strings bigEnd (i + 1) k
        (obj_set tags (tag_key tag) v)
  end.

(** [readTags(file, tiffStart, dirStart, strings, bigEnd)] *)
Definition readTags (file : buffer) (tiffStart dirStart : Z)
    (strings : tag_table) (bigEnd : bool) : outcome (object jsvalue) :=
  entries <- getUint16 file dirStart (negb bigEnd) ;;
  readTags_from file tiffStart dirStart strings bigEnd 0 (Z.to_nat entries) [].

Definition TiffTags : tag_table := [(0x8769, lit "ExifIFDPointer")].
Definition ExifTags : tag_table := [(0x9286, lit "UserComment")].

(** A parser [parceMetadata] has started. *)
Inductive parser_call : Type :=
| ForgeCalled (raw : jsvalue)
| ComfyCalled (raw : jsvalue).

(** What [readEXIFMetadata] and [readEXIFData] return. *)
Inductive exif_result : Type :=
| EFalse
| EUndefined
| EReport (report : object str).

(** [{...baseMetadata, ...x}] for the empty [baseMetadata]. *)
Definition spread (x : exif_result) : object str :=
  match x with
  | EReport report => report
  | EFalse | EUndefined => []
  end.

Inductive file_type : Type := ImagePng | ImageJpeg | OtherType.

(** A toast shown to the user: severity, summary, detail. *)
Definition toast := (str * str * str)%type.

(** Keeps the equation between a scrutinee and its value in a [with]
    clause. *)
Definition inspect (A : Type) (a : A) : {b : A | a = b} := exist _ a eq_refl.

(** [try { body } catch (error) { handler }] *)
Definition try_catch (A : Type) (body : outcome A) (handler : exn -> outcome A)
  : outcome A :=
  match body with
  | Ret a => Ret a
  | Throw e => handler e
  end.

(** [metadata && metadata.name]: [undefined] stands for any falsy
    result, the mapping being absent. *)
Definition metadata_field (metadata : option (object jsvalue)) (name : str)
  : jsvalue :=
  match metadata with
  | Some m => prop m name
  | None => VUndefined
  end.

Section Uploader.

Context {base : BaseFormat}.
Variable colors : Colors.

(** [new ComfyUI(raw, options)], [run()] and the [output] getter
    (read_prompt_comfy.js is not part of the sources at hand). *)
Variable comfy_parse : jsvalue -> outcome (object str).

(** [pngMetadata.getFromPngBuffer] of the host application; [None] is a
    null or undefined result. *)
Variable getFromPngBuffer : buffer -> outcome (option (object jsvalue)).

(** [readTags] for a directory offset that is a string.  When the
    pointer tag decodes to a non-empty string [s], [tiffOffset + s] is
    the decimal text of [tiffOffset] followed by [s], and the reads go
    on with offsets built by string concatenation.  That arithmetic on
    strings is not followed here; whatever it gives is this function of
    the file, [tiffOffset], [s] and the byte order. *)
Variable readTags_at_string : buffer -> Z -> str -> bool -> outcome (object jsvalue).

(** [parceMetadata(metadata)], with the parsers it started, in order. *)
Definition parceMetadata (metadata : option (object jsvalue))
  : list parser_call * object str :=
  let result : object str := [] in
  let parameters := metadata_field metadata (lit "parameters") in
  let first_try :=
    if truthy parameters then Some (ForgeUI.parse colors parameters) else None in
  match first_try with
  | Some (Ret output) => ([ForgeCalled parameters], output)
  | _ =>
      let calls :=
        match first_try with Some _ => [ForgeCalled parameters] | None => [] end in
      let result :=
        match first_try with
        | Some (Throw _) => obj_set result (lit "Error") (lit "Error in parameters section")
        | _ => result
        end in
      let prompt := metadata_field metadata (lit "prompt") in
      let second_try :=
        if truthy prompt then Some (comfy_parse prompt) else None in
      match second_try with
      | Some (Ret output) => (calls ++ [ComfyCalled prompt], output)
      | _ =>
          let calls :=
            match second_try with
            | Some _ => calls ++ [ComfyCalled prompt]
            | None => calls
            end in
          let result :=
            match second_try with
            | Some (Throw _) => obj_set result (lit "Error") (lit "Error in prompt section")
            | _ => result
            end in
          let result :=
            if (length (obj_keys result) =? 0)%nat
            then obj_set result (lit "Error")
                   (lit "No parameters or prompt sections in metadata")
            else result in
          (calls, result)
      end
  end.

(** The loop [for (tag in exifData) tags.parameters = exifData[tag]]. *)
Definition copy_to_parameters (exifData tags : object jsvalue) : object jsvalue :=
  fold_left (fun tags tag => obj_set tags (lit "parameters") (prop exifData tag))
    (obj_keys exifData) tags.

(** [readEXIFData(file, start)] *)
Definition readEXIFData (file : buffer) (start : Z) : outcome exif_result :=
  magic <- getStringFromDB file start 4 ;;
  if negb (eqb_str magic (lit "Exif")) then Ret EFalse else
  let tiffOffset := start + 6 in
  order <- getUint16 file tiffOffset false ;;
  if negb ((order =? 0x4949) || (order =? 0x4D4D)) then Ret EFalse else
  let bigEnd := negb (order =? 0x4949) in
  magic42 <- getUint16 file (tiffOffset + 2) (negb bigEnd) ;;
  if negb (magic42 =? 0x002A) then Ret EFalse else
  firstIFDOffset <- getUint32 file (tiffOffset + 4) (negb bigEnd) ;;
  if firstIFDOffset <? 8 then Ret EFalse else
  tiff <- readTags file tiffOffset (tiffOffset + firstIFDOffset) TiffTags bigEnd ;;
  let pointer := prop tiff (lit "ExifIFDPointer") in
  tags <- (if truthy pointer then
             exifData <- match pointer with
                         | VNum p => readTags file tiffOffset (tiffOffset + p)
                                       ExifTags bigEnd
                         | VStr s => readTags_at_string file tiffOffset s bigEnd
                         | VUndefined => Ret []
                         end ;;
             Ret (copy_to_parameters exifData [])
           else Ret []) ;;
  Ret (EReport (snd (parceMetadata (Some tags)))).

(** One turn of the loop of [readEXIFMetadata] at [offset]: the loop
    goes on at a new offset, or the function ends. *)
Inductive turn : Type :=
| Next (offset : Z)
| Done (r : outcome exif_result).

Definition segment_turn (dataView : buffer) (offset : Z) : turn :=
  match getUint8 dataView offset with
  | Throw e => Done (Throw e)
  | Ret ff =>
      if negb (ff =? 0xFF) then Done (Ret EFalse)   (* not a valid marker *)
      else
        match getUint8 dataView (offset + 1) with
        | Throw e => Done (Throw e)
        | Ret marker =>
            if marker =? 225 then
              (* the unused third argument is evaluated before the call *)
              match getUint16 dataView (offset + 2) false with
              | Throw e => Done (Throw e)
              | Ret _ => Done (readEXIFData dataView (offset + 4))
              end
            else
              match getUint16 dataView (offset + 2) false with
              | Throw e => Done (Throw e)
              | Ret len => Next (offset + (2 + len))
              end
        end
  end.

(** The loop [while (offset < length)] of [readEXIFMetadata].  Falling
    out of the loop returns [undefined].  A turn that goes on moves the
    offset forward, which is what makes the recursion well founded. *)
Equations? segment_loop (dataView : buffer) (offset : Z) : outcome exif_result
  by wf (Z.to_nat (byteLength dataView - offset)) lt :=
  segment_loop dataView offset with inspect (offset <? byteLength dataView) => {
    | exist _ false _ => Ret EUndefined
    | exist _ true Hlt with inspect (segment_turn dataView offset) => {
        | exist _ (Next offset') Hturn => segment_loop dataView offset'
        | exist _ (Done r) _ => r } }.
Proof.
  apply Z.ltb_lt in Hlt.
  unfold segment_turn in Hturn.
  destruct (getUint8 dataView offset) as [ff|]; [|discriminate].
  destruct (negb (ff =? 255)); [discriminate|].
  destruct (getUint8 dataView (offset + 1)) as [marker|]; [|discriminate].
  destruct (marker =? 225).
  - destruct (getUint16 dataView (offset + 2) false); discriminate.
  - destruct (getUint16 dataView (offset + 2) false) as [len|] eqn:Hlen;
      [|discriminate].
    assert (Hbyte : forall i, 0 <= byte_at dataView i)
      by (intro; apply N2Z.is_nonneg).
    unfold getUint16 in Hlen.
    destruct ((0 <=? offset + 2) && (offset + 2 + 2 <=? byteLength dataView));
      [|discriminate].
    cbv beta iota in Hlen.
    pose proof (Hbyte (offset + 2)).
    pose proof (Hbyte (offset + 2 + 1)).
    assert (len = 256 * byte_at dataView (offset + 2)
                  + byte_at dataView (offset + 2 + 1)) by congruence.
    assert (offset' = offset + (2 + len)) by congruence.
    lia.
Qed.

(** [readEXIFMetadata(file)] on the bytes of the file. *)
Definition readEXIFMetadata (buffer : buffer) : outcome exif_result :=
  b0 <- getUint8 buffer 0 ;;
  if negb (b0 =? 0xFF) then Ret EFalse            (* not a valid jpeg *)
  else
    b1 <- getUint8 buffer 1 ;;
    if negb (b1 =? 0xD8) then Ret EFalse          (* not a valid jpeg *)
    else segment_loop buffer 2.

(** [readPNGMetadata(file)] on the bytes of the file; a rejected
    promise is a thrown exception at the [await]. *)
Definition readPNGMetadata (data : buffer) : outcome (object str) :=
  metadata <- getFromPngBuffer data ;;
  Ret (snd (parceMetadata metadata)).

(** [readMetadata(file)] for a file of type [ty] with bytes [data]: the
    toasts shown and the mapping returned. *)
Definition readMetadata (ty : file_type) (data : buffer)
  : outcome (list toast * object str) :=
  try_catch
    (match ty with
     | ImagePng => pngData <- readPNGMetadata data ;; Ret ([], pngData)
     | ImageJpeg => exifData <- readEXIFMetadata data ;; Ret ([], spread exifData)
     | OtherType => Ret ([], [])
     end)
    (fun _ =>
       Ret ([(lit "error", lit "PNGInfo Failed", lit "Error in readMetadata")], [])).

End Uploader.

End ImageUploader.

(* ================================================================== *)
(** * The statements of the specification, as definitions *)
(* ================================================================== *)

Module Spec.

Import Regex ForgeUI ImageUploader.

(** ** The tokenizer in the words of the specification *)

(** Splitting on the commas that stand outside double-quoted spans,
    reading left to right: [inq] tells that a quoted span is open. *)
Fixpoint split_outside_quotes (inq : bool) (s : str) : list str :=
  match s with
  | [] => [[]]
  | c :: s' =>
      if (c =? COMMA)%N && negb inq then [] :: split_outside_quotes inq s'
      else
        match split_outside_quotes (if (c =? DQUOTE)%N then negb inq else inq) s' with
        | l :: ls => (c :: l) :: ls
        | [] => [[c]]
        end
  end.

(** One outer matching pair of double quotes stripped when present. *)
Definition unquote_pair (v : str) : str :=
  match v with
  | a :: ((_ :: _) as r) =>
      if (a =? DQUOTE)%N && (last r a =? DQUOTE)%N then removelast r else v
  | _ => v
  end.

(** The entry of a segment: none without a colon; else the text before
    the first colon, trimmed, and the text after it, trimmed and
    unquoted by [unquote]. *)
Definition segment_entry (unquote : str -> str) (seg : str) : list entry :=
  match indexOf [COLON] seg with
  | None => []
  | Some i => [{| key := trim (firstn i seg);
                  value := unquote (trim (skipn (S i) seg)) |}]
  end.

(** The tokenizer as the specification words it. *)
Definition tokenize_spec (line : str) : list entry :=
  flat_map (segment_entry unquote_pair) (split_outside_quotes false line).

(** What [parseParameters] does to a trimmed value: the first and the
    last character go when the value starts and ends with a double
    quote. *)
Definition unquote_ends (v : str) : str :=
  if startsWith [DQUOTE] v && endsWith [DQUOTE] v then slice_1_m1 v else v.

(** The number of double quotes of a text. *)
Definition count_quotes (s : str) : nat := count_occ N.eq_dec s DQUOTE.

(** The example line of the specification: the value of [Sampler] is
    quoted and holds a comma. *)
Definition line_sampler : str :=
  lit "Steps: 20, Sampler: " ++ [DQUOTE] ++ lit "Euler a, fast" ++ [DQUOTE]
    ++ lit ", CFG scale: 7".

(** A line with three double quotes: [k] with the quoted value [b, c],
    then [d] with a single double quote as value. *)
Definition line_odd_quotes : str :=
  lit "k: " ++ [DQUOTE] ++ lit "b, c" ++ [DQUOTE] ++ lit ", d: " ++ [DQUOTE].

(** A one-line annotation that is a setting, and a two-line annotation
    without the marker of the negative prompt. *)
Definition raw_steps : str := lit "Steps: 20".

(** The keys [run] writes before the loop over the parameters. *)
Definition prompt_keys : list str :=
  [lit "Prompt:<br>"; lit "Negative Prompt:<br>"; lit "LoRA:"].

(** ** Style-reference spans *)

(** A span [/<[^>]+>/] can match: a less-than sign, a non-empty body
    without greater-than sign, a greater-than sign. *)
Definition is_span (m : str) : Prop :=
  exists body, m = LT :: body ++ [GT] /\ body <> [] /\ ~ In GT body.

(** A span in the words of the specification: no angle bracket
    between the two that delimit it. *)
Definition is_plain_span (m : str) : Prop :=
  exists body,
    m = LT :: body ++ [GT] /\ body <> [] /\ ~ In GT body /\ ~ In LT body.

(** The text a scan went over: unmatched characters and matches, in
    order. *)
Definition reassemble (ps : list piece) : str :=
  flat_map (fun p => match p with
                     | Unmatched c => [c]
                     | Matched m _ _ => whole m
                     end) ps.

(** The characters a scan left unmatched, in order. *)
Definition unmatched (ps : list piece) : str :=
  flat_map (fun p => match p with
                     | Unmatched c => [c]
                     | Matched _ _ _ => []
                     end) ps.

(** The style references as a list: none for [null]. *)
Definition loras_of (lora : option (list str)) : list str :=
  match lora with
  | Some l => l
  | None => []
  end.

(** The span of the specification, and a prompt in which a comparison
    stands before it. *)
Definition span_abc : str := lit "<a:b:c>".
Definition prompt_less_than : str := lit "1 < 2 <a:b:c>".

(** ** The segment loop, turn by turn *)

Section Turns.

Context {base : BaseFormat}.
Variable colors : Colors.
Variable comfy_parse : jsvalue -> outcome (object str).
Variable readTags_at_string : buffer -> Z -> str -> bool -> outcome (object jsvalue).

(** At most [n] turns of the loop of [readEXIFMetadata] from [offset];
    [None] when the loop has not ended by then. *)
Fixpoint run_turns (n : nat) (dataView : buffer) (offset : Z)
  : option (outcome exif_result) :=
  if (offset <? byteLength dataView)%Z then
    match n with
    | O => None
    | S k =>
        match segment_turn colors comfy_parse readTags_at_string dataView offset with
        | Next offset' => run_turns k dataView offset'
        | Done r => Some r
        end
    end
  else Some (Ret EUndefined).

End Turns.

(** ** The type 7 value in the words of the specification *)

(** The [n] value bytes of an entry: at [tiffStart + field] when
    [n > 4], in the value field of the entry otherwise. *)
Definition value_bytes (file : buffer) (entryOffset tiffStart n field : Z)
  : outcome str :=
  getStringFromDB file
    (if (4 <? n)%Z then (tiffStart + field)%Z else (entryOffset + 8)%Z) n.

(** The decoded string: the value bytes without their first 8. *)
Definition decode_undefined (file : buffer) (entryOffset tiffStart n field : Z)
  : outcome str :=
  vb <- value_bytes file entryOffset tiffStart n field ;;
  Ret (skipn 8 vb).

(** ** Example files *)

Definition bytes (l : list N) : buffer :=
  List.map (fun n => match Byte.of_N n with Some b => b | None => x00 end) l.

Definition text (s : string) : buffer := bytes (lit s).

(** A JPEG file: start of image, one EXIF segment with a big-endian
    TIFF whose root directory (at 8) has the pointer tag to the Exif
    directory at 26; [exif_ifd] is that directory and [data] what
    follows it. *)
Definition jpeg (exif_ifd : list N) (data : buffer) : buffer :=
  bytes [0xFF; 0xD8; 0xFF; 0xE1; 0; 63]%N ++ text "Exif" ++ bytes [0; 0]%N
  ++ text "MM" ++ bytes [0; 42; 0; 0; 0; 8]%N
  ++ bytes [0; 1;  0x87; 0x69; 0; 4; 0; 0; 0; 1; 0; 0; 0; 26;  0; 0; 0; 0]%N
  ++ bytes exif_ifd ++ data.

(** A user comment of 11 bytes: the 8-byte marker [ASCII\0\0\0], then
    the text [abc]. *)
Definition comment_abc : buffer :=
  text "ASCII" ++ bytes [0; 0; 0]%N ++ text "abc".

(** The Exif directory holds the user comment (type 7, count 11, at
    TIFF offset 44) and nothing else. *)
Definition jpeg_comment : buffer :=
  jpeg [0; 1;  0x92; 0x86; 0; 7; 0; 0; 0; 11; 0; 0; 0; 44;  0; 0; 0; 0]%N
       comment_abc.

(** The same with a second entry after the user comment: the tag
    0xA001 (ColorSpace), of type 3, which [ExifTags] does not list. *)
Definition jpeg_comment_colorspace : buffer :=
  jpeg [0; 2;  0x92; 0x86; 0; 7; 0; 0; 0; 11; 0; 0; 0; 56;
               0xA0; 0x01; 0; 3; 0; 0; 0; 1; 0; 1; 0; 0;  0; 0; 0; 0]%N
       comment_abc.


(** A file cut off inside the header of its first segment, and one cut
    off inside the header of its second. *)
Definition jpeg_cut_1 : buffer := bytes [0xFF; 0xD8; 0xFF]%N.
Definition jpeg_cut_2 : buffer := bytes [0xFF; 0xD8; 0xFF; 0xE0; 0; 2; 0xFF; 0xDB]%N.

(** A mapping with both keys. *)
Definition metadata_both : option (object jsvalue) :=
  Some [(lit "parameters", VStr (lit "a cat")); (lit "prompt", VStr (lit "{}"))].

(** The message of the report when nothing was found. *)
Definition no_sections : object str :=
  [(lit "Error", lit "No parameters or prompt sections in metadata")].

(** A parser for the prompt flavour that always throws, a PNG reader
    that finds nothing, and a string-offset reader that throws: stand-ins
    where an example needs the collaborators. *)
Definition no_comfy (_ : jsvalue) : outcome (object str) := Throw TypeError.
Definition no_png (_ : buffer) : outcome (option (object jsvalue)) := Ret None.
Definition no_string_offsets (_ : buffer) (_ : Z) (_ : str) (_ : bool)
  : outcome (object jsvalue) := Throw RangeError.

End Spec.

(* ================================================================== *)
(** * The metadata panel *)
(* ================================================================== *)

Module Panel.

Import ForgeUI.

(** The two further fragments of [options.colors] the panel uses. *)
Record PanelColors : Type := {
  color_red : str;
  color_header : str
}.

Section Panel.

Variable colors : Colors.
Variable panel : PanelColors.

(** The text of one entry of the mapping: the value alone, in red, under
    the header [Error]; header and value otherwise. *)
Definition entryHTML (entry : str * str) : str :=
  let (header, value) := entry in
  if eqb_str header (lit "Error") then color_red panel ++ value
  else color_header panel ++ header ++ color_default colors ++ value.

(** [createMetadataContainer(metadata)]: the [innerHTML] of the element
    it returns, the entries in order joined by line breaks. *)
Definition createMetadataContainer (metadata : object str) : str :=
  join (lit "<br>") (List.map entryHTML metadata).

End Panel.

End Panel.

(* ================================================================== *)
(** * Shapes of settings lines, reports and references *)
(* ================================================================== *)

Module Shapes.

Import Regex ForgeUI.

(** ** Settings lines *)

(** A setting written out: key, colon, space, value, the value between
    double quotes when [quoted]. *)
Definition format_entry (quoted : bool) (e : entry) : str :=
  key e ++ lit ": "
    ++ (if quoted then [DQUOTE] ++ value e ++ [DQUOTE] else value e).

(** A settings line: the settings separated by comma and space. *)
Definition format_line (es : list (bool * entry)) : str :=
  join (lit ", ") (List.map (fun qe => format_entry (fst qe) (snd qe)) es).

(** A setting that can be written out and read back: the key is trimmed
    and holds no comma, colon or double quote; the value holds no double
    quote and, when it is not quoted, is trimmed and holds no comma. *)
Definition writable (qe : bool * entry) : Prop :=
  trim (key (snd qe)) = key (snd qe)
  /\ ~ In COMMA (key (snd qe)) /\ ~ In COLON (key (snd qe))
  /\ ~ In DQUOTE (key (snd qe))
  /\ ~ In DQUOTE (value (snd qe))
  /\ (fst qe = false ->
      trim (value (snd qe)) = value (snd qe) /\ ~ In COMMA (value (snd qe))).

(** The pieces a settings line falls into: the first setting as
    written, every further one after a space. *)
Definition pieces (es : list (bool * entry)) : list str :=
  match es with
  | [] => [[]]
  | qe :: rest =>
      format_entry (fst qe) (snd qe)
        :: List.map (fun qe' => 32%N :: format_entry (fst qe') (snd qe')) rest
  end.

(** Reading a text from left to right: [None] when a comma stands
    outside double quotes, else whether a quoted span is open at the
    end. *)
Fixpoint quote_state (inq : bool) (s : str) : option bool :=
  match s with
  | [] => Some inq
  | c :: s' =>
      if (c =? COMMA)%N && negb inq then None
      else quote_state (if (c =? DQUOTE)%N then negb inq else inq) s'
  end.

(** A text put in front of the first of a list of pieces. *)
Definition cons_head (s : str) (l : list str) : list str :=
  match l with
  | h :: tl => (s ++ h) :: tl
  | [] => [s]
  end.

(** ** Reports *)

Section Report.

Context {base : BaseFormat}.
Variable colors : Colors.

(** The key and the value [run] writes for a setting. *)
Definition param_key (obj : entry) : str := escapeHTML (key obj) ++ lit ": ".

Definition param_value (obj : entry) : str :=
  if isNumber (value obj) then color_int colors ++ escapeHTML (value obj)
  else if eqb_str (escapeHTML (key obj)) (lit "Model")
       then color_file colors ++ escapeHTML (value obj)
       else escapeHTML (value obj).

(** The display text of a reference of three parts. *)
Definition lora_shown (a b c : str) : str :=
  lit "&lt" ++ a ++ [COLON] ++ color_file colors ++ b ++ color_default colors
    ++ [COLON] ++ color_int colors ++ c ++ color_default colors ++ lit "&gt".

End Report.

(** The keys of a list in the order of their first occurrence, those
    in [seen] left out. *)
Fixpoint first_occurrences (seen : list str) (ks : list str) : list str :=
  match ks with
  | [] => []
  | k :: rest =>
      if existsb (eqb_str k) seen then first_occurrences seen rest
      else k :: first_occurrences (k :: seen) rest
  end.

(** No line terminator among the characters. *)
Definition one_line (s : str) : Prop :=
  forall c, In c s -> is_line_terminator c = false.

(** The match of the expression of three parts on [<a:b:c>]. *)
Definition triple_match (a b c : str) : rmatch :=
  {| whole := LT :: a ++ COLON :: b ++ COLON :: c ++ [GT]; groups := [a; b; c] |}.

(** ** Buffers *)

(** The bytes of a window of a buffer, as code units. *)
Definition window (b : ImageUploader.buffer) (start length : Z) : str :=
  List.map Byte.to_N (firstn (Z.to_nat length) (skipn (Z.to_nat start) b)).

(** ** Reports of the dispatcher *)

Definition parameters_failed : object str :=
  [(lit "Error", lit "Error in parameters section")].

Definition prompt_failed : object str :=
  [(lit "Error", lit "Error in prompt section")].

(** ** Files with a user comment *)

(** A four-byte count, most significant byte first. *)
Definition be32 (c3 c2 c1 c0 : byte) : Z :=
  (16777216 * Z.of_N (Byte.to_N c3) + 65536 * Z.of_N (Byte.to_N c2)
   + 256 * Z.of_N (Byte.to_N c1) + Z.of_N (Byte.to_N c0))%Z.

(** The first 56 bytes of a JPEG file whose first segment is an EXIF
    segment (of declared length [len_hi], [len_lo]) with a big-endian
    TIFF: the root directory at 8 holds the pointer to the Exif
    directory at 26, which holds the user comment, of type 7 and of
    count [c3..c0], with its bytes at TIFF offset 44, that is, right
    after these 56 bytes. *)
Definition user_comment_header (len_hi len_lo c3 c2 c1 c0 : byte)
  : ImageUploader.buffer :=
  Spec.bytes [0xFF; 0xD8; 0xFF; 0xE1]%N ++ [len_hi; len_lo]
  ++ Spec.text "Exif" ++ Spec.bytes [0; 0]%N
  ++ Spec.text "MM" ++ Spec.bytes [0; 42; 0; 0; 0; 8]%N
  ++ Spec.bytes [0; 1;  0x87; 0x69; 0; 4; 0; 0; 0; 1; 0; 0; 0; 26;  0; 0; 0; 0]%N
  ++ Spec.bytes [0; 1;  0x92; 0x86; 0; 7]%N ++ [c3; c2; c1; c0]
  ++ Spec.bytes [0; 0; 0; 44;  0; 0; 0; 0]%N.

(** Such a file: [data] is what follows the two directories. *)
Definition jpeg_user_comment (len_hi len_lo c3 c2 c1 c0 : byte)
    (data : ImageUploader.buffer) : ImageUploader.buffer :=
  user_comment_header len_hi len_lo c3 c2 c1 c0 ++ data.

(** Two buffers of the same length that differ at most in the two
    bytes at [i] and [i + 1]. *)
Definition differ_only_at (a b : ImageUploader.buffer) (i : Z) : Prop :=
  length a = length b
  /\ forall k, (0 <= k)%Z -> k <> i -> k <> (i + 1)%Z ->
               ImageUploader.byte_at a k = ImageUploader.byte_at b k.

(** The numbers of a mapping are not negative. *)
Definition numbers_nonneg (tags : object jsvalue) : Prop :=
  forall k n, obj_get tags k = Some (VNum n) -> (0 <= n)%Z.

Section ValidExif.

Import ImageUploader.

Local Open Scope Z_scope.

Variable readTags_at_string : buffer -> Z -> str -> bool -> outcome (object jsvalue).

(** What is asked of the Exif directory the root directory points to:
    nothing when the pointer is falsy, else that it can be read. *)
Definition exif_directory_read (file : buffer) (start : Z) (bigEnd : bool)
    (tiff : object jsvalue) : Prop :=
  match prop tiff (lit "ExifIFDPointer") with
  | VUndefined => True
  | VNum p =>
      p = 0
      \/ exists exifData,
           readTags file (start + 6) (start + 6 + p) ExifTags bigEnd = Ret exifData
  | VStr s =>
      s = []
      \/ exists exifData,
           readTags_at_string file (start + 6) s bigEnd = Ret exifData
  end.

(** The header of the EXIF data at [start] is valid and the directories
    can be read. *)
Definition valid_exif (file : buffer) (start : Z) : Prop :=
  getStringFromDB file start 4 = Ret (lit "Exif")
  /\ exists (bigEnd : bool) first tiff,
       getUint16 file (start + 6) false = Ret (if bigEnd then 0x4D4D else 0x4949)
       /\ getUint16 file (start + 6 + 2) (negb bigEnd) = Ret 42
       /\ getUint32 file (start + 6 + 4) (negb bigEnd) = Ret first
       /\ 8 <= first
       /\ readTags file (start + 6) (start + 6 + first) TiffTags bigEnd = Ret tiff
       /\ exif_directory_read file start bigEnd tiff.

End ValidExif.

(** ** Files made of segments *)

(** A two-byte length, most significant byte first. *)
Definition be16_bytes (n : N) : ImageUploader.buffer :=
  Spec.bytes [n / 256; n mod 256]%N.

(** A JPEG segment: the marker, the length of what follows (the two
    length bytes counted in) and the payload. *)
Definition segment (marker : byte) (payload : ImageUploader.buffer)
  : ImageUploader.buffer :=
  [xff; marker] ++ be16_bytes (N.of_nat (2 + length payload)) ++ payload.

Definition segments (segs : list (byte * ImageUploader.buffer))
  : ImageUploader.buffer :=
  flat_map (fun s => segment (fst s) (snd s)) segs.

(** A segment the loop of [readEXIFMetadata] passes over: its marker is
    not that of the EXIF segment, and its length fits the two bytes. *)
Definition skippable (s : byte * ImageUploader.buffer) : Prop :=
  fst s <> xe1 /\ (ImageUploader.byteLength (snd s) < 65534)%Z.



(** The toast of [readMetadata]. *)
Definition readMetadata_toast : ImageUploader.toast :=
  (lit "error", lit "PNGInfo Failed", lit "Error in readMetadata").

Section Exif.

Context {base : BaseFormat}.
Variable colors : Colors.

(** The report for the mapping of the EXIF path, which has at most the
    key [parameters]. *)
Definition exif_report (tags : object jsvalue) : object str :=
  match prop tags (lit "parameters") with
  | VStr ((_ :: _) as s) => _output (run colors s)
  | VNum n => if (n =? 0)%Z then Spec.no_sections else parameters_failed
  | _ => Spec.no_sections
  end.

(** Two results of the EXIF reader that differ at most in the parser of
    the prompt flavour the dispatcher was given. *)
Inductive same_result (comfy1 comfy2 : jsvalue -> outcome (object str))
  : outcome ImageUploader.exif_result -> outcome ImageUploader.exif_result
    -> Prop :=
| same_false :
    same_result comfy1 comfy2 (Ret ImageUploader.EFalse) (Ret ImageUploader.EFalse)
| same_undefined :
    same_result comfy1 comfy2
      (Ret ImageUploader.EUndefined) (Ret ImageUploader.EUndefined)
| same_throw (e : exn) : same_result comfy1 comfy2 (Throw e) (Throw e)
| same_report (exifData : object jsvalue) :
    same_result comfy1 comfy2
      (Ret (ImageUploader.EReport
              (snd (ImageUploader.parceMetadata colors comfy1
                      (Some (ImageUploader.copy_to_parameters exifData []))))))
      (Ret (ImageUploader.EReport
              (snd (ImageUploader.parceMetadata colors comfy2
                      (Some (ImageUploader.copy_to_parameters exifData [])))))).

End Exif.

End Shapes.

(* ================================================================== *)
(** * Facts about strings *)
(* ================================================================== *)

Unset Implicit Arguments.

Module StringFacts.

Lemma eqb_str_eq (a b : str) : eqb_str a b = true <-> a = b.
Proof.
  revert b; induction a as [|x a IH]; intros [|y b]; simpl; split;
    try congruence; try reflexivity.
  - intros H. apply andb_true_iff in H as [Hx Hab].
    apply N.eqb_eq in Hx. apply IH in Hab. congruence.
  - intros H. injection H as -> ->. rewrite N.eqb_refl. simpl. now apply IH.
Qed.

Lemma startsWith_prefix (p s : str) :
  startsWith p s = true <-> exists r, s = p ++ r.
Proof.
  revert s; induction p as [|x p IH]; intros s; simpl.
  - split; [intros _; now exists s | reflexivity].
  - destruct s as [|y s].
    + split; [discriminate | intros [r Hr]; discriminate].
    + rewrite andb_true_iff, N.eqb_eq, IH. split.
      * intros [-> [r ->]]. now exists r.
      * intros [r Hr]. injection Hr as -> ->. split; [reflexivity | now exists r].
Qed.

Lemma indexOf_unfold (p s : str) :
  indexOf p s =
  if startsWith p s then Some 0%nat
  else match s with
       | [] => None
       | _ :: s' => option_map S (indexOf p s')
       end.
Proof. destruct s; reflexivity. Qed.

(** [indexOf] finds the first occurrence: the text splits around it,
    and no earlier position starts one. *)
Lemma indexOf_Some (p s : str) (i : nat) :
  indexOf p s = Some i ->
  s = firstn i s ++ p ++ skipn (i + length p) s
  /\ forall j, (j < i)%nat -> startsWith p (skipn j s) = false.
Proof.
  revert i; induction s as [|c s IH]; intros i; rewrite indexOf_unfold.
  - destruct (startsWith p []) eqn:Hp; [|discriminate].
    intros H; injection H as <-. split; [|intros j Hj; lia].
    apply startsWith_prefix in Hp as [r Hr]. simpl.
    destruct p; [|discriminate]. now destruct r.
  - destruct (startsWith p (c :: s)) eqn:Hp.
    + intros H; injection H as <-. split; [|intros j Hj; lia].
      apply startsWith_prefix in Hp as [r Hr]. simpl firstn. simpl app.
      rewrite Hr at 1. f_equal.
      rewrite Hr. simpl plus. rewrite skipn_app, skipn_all, Nat.sub_diag. reflexivity.
    + destruct (indexOf p s) as [k|] eqn:Hk; [|discriminate].
      intros H; injection H as <-. destruct (IH k eq_refl) as [Hs Hfirst].
      split.
      * simpl. f_equal. exact Hs.
      * intros [|j] Hj; [exact Hp|]. simpl. apply Hfirst. lia.
Qed.

Lemma indexOf_None (p s : str) : indexOf p s = None -> ~ contains p s.
Proof.
  induction s as [|c s IH]; rewrite indexOf_unfold.
  - destruct (startsWith p []) eqn:Hp; [discriminate|]. intros _ [a [b Hab]].
    destruct a; [|discriminate]. destruct p; [discriminate|discriminate].
  - destruct (startsWith p (c :: s)) eqn:Hp; [discriminate|].
    destruct (indexOf p s) eqn:Hk; [discriminate|]. intros _ [a [b Hab]].
    destruct a as [|x a].
    + assert (startsWith p (c :: s) = true) by (apply startsWith_prefix; now exists b).
      congruence.
    + injection Hab as _ Hs. apply IH; [reflexivity|]. now exists a, b.
Qed.

Lemma includes_contains (p s : str) : includes p s = true <-> contains p s.
Proof.
  unfold includes. destruct (indexOf p s) as [i|] eqn:Hi.
  - split; [intros _|reflexivity]. apply indexOf_Some in Hi as [Hs _].
    now exists (firstn i s), (skipn (i + length p) s).
  - split; [discriminate|]. intros H. now apply indexOf_None in Hi.
Qed.

Lemma indexOf_char_None (c : char) (s : str) :
  ~ In c s -> indexOf [c] s = None.
Proof.
  intros Hc. destruct (indexOf [c] s) as [i|] eqn:Hi; [|reflexivity].
  exfalso. apply Hc. apply indexOf_Some in Hi as [Hs _]. rewrite Hs.
  apply in_or_app. right. now left.
Qed.

(** ** Splitting and joining *)

Lemma split_where_cons (d : char -> str -> bool) (s : str) :
  exists l ls, split_where d s = l :: ls.
Proof.
  destruct s as [|c s]; simpl; [now eexists _, _|].
  destruct (d c s); [now eexists _, _|].
  destruct (split_where d s); now eexists _, _.
Qed.

Lemma split_where_ext (d d' : char -> str -> bool) (s : str) :
  (forall c r, d c r = d' c r) -> split_where d s = split_where d' s.
Proof.
  intros H. induction s as [|c s IH]; simpl; [reflexivity|].
  now rewrite H, IH.
Qed.

(** Joining the pieces with the delimiter gives the text back, when
    only one character serves as delimiter. *)
Lemma join_split_where (d : char -> str -> bool) (sep : char) (s : str) :
  (forall c r, d c r = true -> c = sep) ->
  join [sep] (split_where d s) = s.
Proof.
  intros Hd. induction s as [|c s IH]; simpl; [reflexivity|].
  destruct (split_where_cons d s) as [l [ls Hl]].
  destruct (d c s) eqn:Hc.
  - apply Hd in Hc as ->. rewrite Hl in *. simpl in *. now rewrite IH.
  - rewrite Hl in *. destruct ls; simpl in *; now rewrite <- IH.
Qed.

Lemma split_where_never (d : char -> str -> bool) (s : str) :
  (forall a c r, s = a ++ c :: r -> d c r = false) ->
  split_where d s = [s].
Proof.
  induction s as [|c s IH]; intros Hd; simpl; [reflexivity|].
  rewrite (Hd [] c s eq_refl). rewrite IH; [reflexivity|].
  intros a x r ->. now apply (Hd (c :: a)).
Qed.

Lemma split_single (sep : char) (s : str) : ~ In sep s -> split sep s = [s].
Proof.
  intros Hs. apply split_where_never. intros a c r ->.
  apply N.eqb_neq. intros ->. apply Hs. apply in_or_app. right. now left.
Qed.

(** The pieces only hold characters of the text. *)
Lemma split_where_incl (d : char -> str -> bool) (s part : str) :
  In part (split_where d s) -> incl part s.
Proof.
  revert part; induction s as [|c s IH]; intros part; simpl.
  - intros [<-|[]]. apply incl_refl.
  - destruct (d c s).
    + intros [<-|H]; [intros x []|]. apply incl_tl. now apply IH.
    + destruct (split_where d s) as [|l ls]; simpl.
      * intros [<-|[]]. intros x [->|[]]. now left.
      * intros [<-|H].
        -- intros x [->|Hx]; [now left|]. right. apply (IH l); [now left|exact Hx].
        -- apply incl_tl. apply IH. now right.
Qed.

Lemma join_snoc (sep : str) (l : list str) (x : str) :
  l <> [] -> join sep (l ++ [x]) = join sep l ++ sep ++ x.
Proof.
  induction l as [|a l IH]; [congruence|]. intros _.
  destruct l as [|b l]; [reflexivity|].
  change (join sep ((a :: b :: l) ++ [x])) with (a ++ sep ++ join sep ((b :: l) ++ [x])).
  rewrite IH by discriminate.
  change (join sep (a :: b :: l)) with (a ++ sep ++ join sep (b :: l)).
  now rewrite <- !app_assoc.
Qed.

(** ** Trimming *)

Lemma trimStart_nil (s : str) : trimStart s = [] -> forallb is_ws s = true.
Proof.
  induction s as [|c s IH]; simpl; [reflexivity|].
  destruct (is_ws c); [exact IH|discriminate].
Qed.

Lemma trimStart_suffix (s : str) : exists a, s = a ++ trimStart s.
Proof.
  induction s as [|c s [a Ha]]; simpl; [now exists []|].
  destruct (is_ws c); [|now exists []].
  exists (c :: a). simpl. now f_equal.
Qed.

(** A text that trims to nothing holds only white space. *)
Lemma trim_nil (s : str) : trim s = [] -> forallb is_ws s = true.
Proof.
  unfold trim, trimEnd. intros H.
  assert (H1 : trimStart (rev (trimStart s)) = []).
  { rewrite <- (rev_involutive (trimStart (rev (trimStart s)))), H. reflexivity. }
  apply trimStart_nil in H1.
  assert (H2 : trimStart s = []).
  { destruct (trimStart s) as [|c t] eqn:Ht; [reflexivity|].
    assert (Hc : is_ws c = true).
    { rewrite forallb_forall in H1. apply H1. apply -> in_rev. now left. }
    destruct s as [|x s]; [discriminate|]. revert Ht.
    clear - Hc. revert x. induction s as [|y s IH]; intros x; simpl.
    - destruct (is_ws x) eqn:Hx; [discriminate|]. intros H; injection H as -> _. congruence.
    - destruct (is_ws x) eqn:Hx.
      + apply IH.
      + intros H; injection H as -> _. congruence. }
  now apply trimStart_nil.
Qed.

(** The trimmed text is a contiguous part of the text. *)
Lemma trim_infix (s : str) : exists a b, s = a ++ trim s ++ b.
Proof.
  unfold trim, trimEnd.
  destruct (trimStart_suffix s) as [a Ha].
  destruct (trimStart_suffix (rev (trimStart s))) as [b Hb].
  exists a, (rev b). rewrite Ha at 1. f_equal.
  rewrite <- rev_app_distr, <- Hb. now rewrite rev_involutive.
Qed.

End StringFacts.

(* ================================================================== *)
(** * The settings-line tokenizer *)
(* ================================================================== *)

Module TokenizerFacts.

Import Regex ForgeUI Spec StringFacts.

(** The lookahead amounts to a parity: from a state with no half group
    it accepts the texts with an even number of double quotes. *)
Lemma lookahead_parity (half : bool) (s : str) :
  lookahead half s = xorb half (Nat.even (count_quotes s)).
Proof.
  unfold count_quotes. revert half; induction s as [|c s IH]; intros half; simpl.
  - now destruct half.
  - destruct (N.eq_dec c DQUOTE) as [->|Hc].
    + rewrite N.eqb_refl, IH. destruct (N.eq_dec DQUOTE DQUOTE); [|congruence].
      rewrite Nat.even_succ, <- Nat.negb_even. now destruct half, (Nat.even _).
    + apply N.eqb_neq in Hc as Hc'. rewrite Hc', IH.
      destruct (N.eq_dec c DQUOTE); [congruence|reflexivity].
Qed.

Lemma lookahead_even (s : str) :
  lookahead false s = Nat.even (count_quotes s).
Proof. rewrite lookahead_parity. reflexivity. Qed.

(** Reading left to right with the right parity in hand splits at the
    same commas as the lookahead. *)
Lemma split_commas_outside (inq : bool) (s : str) :
  lookahead inq s = true ->
  split_where (fun c rest => (c =? COMMA)%N && lookahead false rest) s
  = split_outside_quotes inq s.
Proof.
  revert inq; induction s as [|c s IH]; intros inq H; simpl; [reflexivity|].
  simpl in H. destruct (c =? COMMA)%N eqn:Hc.
  - apply N.eqb_eq in Hc as ->. change (COMMA =? DQUOTE)%N with false in *.
    simpl in *. rewrite (IH inq H).
    rewrite lookahead_parity in H. rewrite lookahead_parity.
    destruct inq, (Nat.even (count_quotes s)); simpl in *; try discriminate; reflexivity.
  - simpl. destruct (c =? DQUOTE)%N; now rewrite (IH _ H).
Qed.

(** A piece without text gives no entry: white space holds no colon. *)
Lemma blank_no_colon (part : str) : trim part = [] -> indexOf [COLON] part = None.
Proof.
  intros H. apply indexOf_char_None. intros Hin.
  apply trim_nil in H. rewrite forallb_forall in H. apply H in Hin. discriminate.
Qed.

Lemma parse_part_entry (result : list entry) (part : str) :
  parse_part result part = result ++ segment_entry unquote_ends part.
Proof.
  unfold parse_part, segment_entry.
  destruct (trim part) eqn:Ht.
  - rewrite (blank_no_colon _ Ht). now rewrite app_nil_r.
  - destruct (indexOf [COLON] part) as [i|]; [|now rewrite app_nil_r].
    unfold slice_to, slice_from, unquote_ends. now rewrite Nat.add_1_r.
Qed.

(** The loop pushes the entries of the pieces in order. *)
Lemma fold_parse_part (parts : list str) (result : list entry) :
  fold_left parse_part parts result
  = result ++ flat_map (segment_entry unquote_ends) parts.
Proof.
  revert result; induction parts as [|p parts IH]; intros result; simpl.
  - now rewrite app_nil_r.
  - now rewrite IH, parse_part_entry, <- app_assoc.
Qed.

Lemma parseParameters_flat_map (line : str) :
  parseParameters line = flat_map (segment_entry unquote_ends) (split_commas line).
Proof. unfold parseParameters. now rewrite fold_parse_part. Qed.

(** A text without colon gives no entry at all. *)
Lemma parseParameters_no_colon (line : str) :
  ~ In COLON line -> parseParameters line = [].
Proof.
  intros Hc. rewrite parseParameters_flat_map.
  assert (H : forall part, In part (split_commas line) ->
                           segment_entry unquote_ends part = []).
  { intros part Hp. unfold segment_entry.
    rewrite indexOf_char_None; [reflexivity|].
    intros Hin. apply Hc. exact (split_where_incl _ _ _ Hp _ Hin). }
  induction (split_commas line) as [|p ps IH]; simpl; [reflexivity|].
  rewrite (H p) by now left. apply IH. intros q Hq. apply H. now right.
Qed.

Lemma startsWith_last (c : char) (v : str) (d : char) :
  v <> [] -> endsWith [c] v = (last v d =? c)%N.
Proof.
  intros Hv. unfold endsWith.
  destruct (exists_last Hv) as [v' [x ->]].
  rewrite rev_app_distr, last_last. simpl. rewrite andb_true_r. apply N.eqb_sym.
Qed.

(** Away from the single double quote, the code strips what the
    specification strips. *)
Lemma unquote_ends_pair (v : str) : v <> [DQUOTE] -> unquote_ends v = unquote_pair v.
Proof.
  intros Hv. unfold unquote_ends, unquote_pair, slice_1_m1.
  destruct v as [|a r]; [reflexivity|].
  destruct r as [|b r].
  - assert (Ha : (DQUOTE =? a)%N = false) by (apply N.eqb_neq; congruence).
    unfold endsWith. cbn [startsWith rev app]. now rewrite Ha.
  - rewrite (@startsWith_last DQUOTE (a :: b :: r) a) by discriminate.
    change (last (a :: b :: r) a) with (last (b :: r) a).
    change (startsWith [DQUOTE] (a :: b :: r)) with ((DQUOTE =? a)%N && true).
    rewrite andb_true_r, (N.eqb_sym DQUOTE a). reflexivity.
Qed.

Lemma flat_map_ext_in (A B : Type) (f g : A -> list B) (l : list A) :
  (forall x, In x l -> f x = g x) -> flat_map f l = flat_map g l.
Proof.
  induction l as [|x l IH]; intros H; simpl; [reflexivity|].
  rewrite (H x) by now left. f_equal. apply IH. intros y Hy. apply H. now right.
Qed.

(** C2 (amended): the tokenizer splits at exactly the commas that are
    followed by an even number of double quotes, and joining the pieces
    with commas gives the line back; on a line with an even number of
    double quotes these are the commas outside double-quoted spans.
    Each piece with a colon gives, in order, the entry of the trimmed
    text before the first colon and the trimmed text after it, the
    value losing its first and last character when it starts and ends
    with a double quote, which strips a matching pair unless the value
    is a single double quote; pieces without colon give nothing.  So on
    a line with balanced quotes none of whose values is a single double
    quote the tokenizer is the one the specification words, and the
    example line gives its three entries. *)
Theorem parseParameters_tokenizes (line : str) :
  split_commas line
    = split_where (fun c rest => (c =? COMMA)%N && Nat.even (count_quotes rest)) line
  /\ join [COMMA] (split_commas line) = line
  /\ (Nat.even (count_quotes line) = true ->
      split_commas line = split_outside_quotes false line)
  /\ parseParameters line = flat_map (segment_entry unquote_ends) (split_commas line)
  /\ (forall v, v <> [DQUOTE] -> unquote_ends v = unquote_pair v)
  /\ (Nat.even (count_quotes line) = true ->
      (forall seg i, In seg (split_commas line) -> indexOf [COLON] seg = Some i ->
                     trim (skipn (S i) seg) <> [DQUOTE]) ->
      parseParameters line = tokenize_spec line)
  /\ parseParameters line_sampler
     = [ {| key := lit "Steps"; value := lit "20" |};
         {| key := lit "Sampler"; value := lit "Euler a, fast" |};
         {| key := lit "CFG scale"; value := lit "7" |} ].
Proof.
  assert (Hsplit : Nat.even (count_quotes line) = true ->
                   split_commas line = split_outside_quotes false line).
  { intros He. apply split_commas_outside. now rewrite lookahead_even. }
  repeat split.
  - apply split_where_ext. intros c r. now rewrite lookahead_even.
  - apply join_split_where. intros c r H.
    apply andb_true_iff in H as [H _]. now apply N.eqb_eq in H.
  - exact Hsplit.
  - apply parseParameters_flat_map.
  - apply unquote_ends_pair.
  - intros He Hv. rewrite parseParameters_flat_map. unfold tokenize_spec.
    rewrite <- (Hsplit He). apply flat_map_ext_in. intros seg Hseg.
    unfold segment_entry. destruct (indexOf [COLON] seg) as [i|] eqn:Hi; [|reflexivity].
    now rewrite (unquote_ends_pair _ (Hv seg i Hseg Hi)).
Qed.

Lemma parseParameters_tokenizes_witness :
  parseParameters line_sampler = tokenize_spec line_sampler.
Proof.
  destruct (parseParameters_tokenizes line_sampler) as (_ & _ & _ & _ & _ & Hspec & _).
  apply Hspec.
  - reflexivity.
  - intros seg i [<-|[<-|[<-|[]]]] H; vm_compute in H; injection H as <-;
      vm_compute; discriminate.
Defined.

(** C2 (as stated) fails on a line with three double quotes: the comma
    inside the closed span is followed by two double quotes and splits,
    and the value that is a single double quote comes out empty, while
    the tokenizer of the specification keeps the span together and the
    single quote as it is.  Stripping pairs only, after the splitting of
    the code, does not give the result of the code either. *)
Lemma parseParameters_odd_quotes :
  parseParameters line_odd_quotes <> tokenize_spec line_odd_quotes
  /\ parseParameters line_odd_quotes
     = [ {| key := lit "k"; value := [DQUOTE] ++ lit "b" |};
         {| key := lit "c" ++ [DQUOTE] ++ lit ", d"; value := [] |} ]
  /\ tokenize_spec line_odd_quotes
     = [ {| key := lit "k"; value := lit "b, c" |};
         {| key := lit "d"; value := [DQUOTE] |} ]
  /\ flat_map (segment_entry unquote_pair) (split_commas line_odd_quotes)
     <> parseParameters line_odd_quotes.
Proof.
  repeat split; try reflexivity; intros H; vm_compute in H; discriminate H.
Qed.

End TokenizerFacts.

(* ================================================================== *)
(** * The prompt block and the settings line *)
(* ================================================================== *)

Module RunFacts.

Import Regex ForgeUI Spec StringFacts TokenizerFacts SpecBase.

Lemma obj_keys_set (A : Type) (o : object A) (k : str) (v : A) :
  incl (obj_keys (obj_set o k v)) (k :: obj_keys o).
Proof.
  induction o as [|[k' v'] o IH]; simpl.
  - apply incl_refl.
  - destruct (eqb_str k' k).
    + simpl. apply incl_tl. apply incl_refl.
    + simpl. intros x [<-|Hx]; [right; now left|].
      destruct (IH x Hx) as [<-|Hin]; [now left|right; now right].
Qed.


Lemma first_line_single (raw : str) :
  ~ In NL raw -> first_line_of (split NL raw) = raw.
Proof. intros H. now rewrite (split_single _ _ H). Qed.

Lemma last_line_single (raw : str) :
  ~ In NL raw -> last_line_of (split NL raw) = raw.
Proof. intros H. now rewrite (split_single _ _ H). Qed.


Lemma split_prompt_absent (block : str) :
  ~ contains separator block -> split_prompt block = (trim block, []).
Proof.
  intros H. unfold split_prompt.
  destruct (includes separator block) eqn:Hi; [|reflexivity].
  now apply includes_contains in Hi.
Qed.

Lemma split_prompt_present (block : str) :
  contains separator block ->
  exists before after,
    block = before ++ separator ++ after
    /\ (forall j, (j < length before)%nat ->
                  startsWith separator (skipn j block) = false)
    /\ split_prompt block = (trim before, trim after).
Proof.
  intros H. apply includes_contains in H. unfold split_prompt. rewrite H.
  unfold includes in H. destruct (indexOf separator block) as [i|] eqn:Hi; [|discriminate].
  apply indexOf_Some in Hi as [Hb Hfirst].
  exists (firstn i block), (skipn (i + length separator) block).
  split; [exact Hb|]. split; [|reflexivity].
  intros j Hj. apply Hfirst. rewrite length_firstn in Hj. lia.
Qed.

Section Run.

Context {base : BaseFormat}.
Variable colors : Colors.

Lemma run_fields (raw : str) :
  let block := first_line_of (split NL raw) in
  positive (run colors raw) = cleanEdges (strip_loras (fst (split_prompt block)))
  /\ negative (run colors raw) = cleanEdges (snd (split_prompt block))
  /\ lora (run colors raw) = match_loras (fst (split_prompt block))
  /\ params (run colors raw) = parseParameters (last_line_of (split NL raw))
  /\ _output (run colors raw)
     = fold_left (add_param colors) (params (run colors raw))
         (report_head colors (positive (run colors raw)) (negative (run colors raw))
            (lora (run colors raw))).
Proof.
  unfold run. cbv zeta. destruct (split_prompt (first_line_of (split NL raw))).
  repeat split.
Qed.

Lemma report_head_keys (positive negative : str) (lora : option (list str)) :
  incl (obj_keys (report_head colors positive negative lora)) prompt_keys.
Proof.
  unfold report_head, prompt_keys.
  assert (H1 : incl (obj_keys
            (match negative with
             | [] => [(lit "Prompt:<br>", escapeHTML positive)]
             | _ :: _ => obj_set [(lit "Prompt:<br>", escapeHTML positive)]
                           (lit "Negative Prompt:<br>") (escapeHTML negative)
             end)) [lit "Prompt:<br>"; lit "Negative Prompt:<br>"]).
  { destruct negative.
    - intros x [<-|[]]. now left.
    - intros x Hx. apply obj_keys_set in Hx. destruct Hx as [<-|[<-|[]]];
        [right; now left|now left]. }
  cbv zeta. destruct lora as [l|].
  - intros x Hx. apply obj_keys_set in Hx. destruct Hx as [<-|Hx].
    + right; right; now left.
    + apply H1 in Hx. destruct Hx as [<-|[<-|[]]]; [now left|right; now left].
  - intros x Hx. apply H1 in Hx. destruct Hx as [<-|[<-|[]]]; [now left|right; now left].
Qed.

(** C1 (amended): an annotation of exactly one line is used both as the
    prompt block and as the settings line, so its settings are those
    the tokenizer finds in that line.  When the line holds no colon the
    settings list is empty and the report is the one built before the
    settings loop: its keys are among those of the prompt, the negative
    prompt and the LoRA text. *)
Theorem run_single_line (raw : str) :
  ~ In NL raw ->
  first_line_of (split NL raw) = raw
  /\ last_line_of (split NL raw) = raw
  /\ params (run colors raw) = parseParameters raw
  /\ (~ In COLON raw ->
      params (run colors raw) = []
      /\ _output (run colors raw)
         = report_head colors (positive (run colors raw))
             (negative (run colors raw)) (lora (run colors raw))
      /\ incl (obj_keys (_output (run colors raw))) prompt_keys).
Proof.
  intros Hnl. destruct (run_fields raw) as (_ & _ & _ & Hp & Ho).
  rewrite (last_line_single _ Hnl) in Hp.
  split; [now apply first_line_single|].
  split; [now apply last_line_single|].
  split; [exact Hp|].
  intros Hc.
  assert (Hnil : params (run colors raw) = [])
    by (rewrite Hp; now apply parseParameters_no_colon).
  rewrite Hnil in Ho. simpl in Ho.
  split; [exact Hnil|]. split; [exact Ho|].
  rewrite Ho. apply report_head_keys.
Qed.


End Run.

Lemma no_line_feed (s : string) :
  existsb (fun c => (c =? NL)%N) (lit s) = false -> ~ In NL (lit s).
Proof.
  intros H Hin. assert (existsb (fun c => (c =? NL)%N) (lit s) = true); [|congruence].
  apply existsb_exists. exists NL. split; [exact Hin|reflexivity].
Qed.

(** The scenario of the specification: a prompt with a style
    reference, a negative prompt, and a settings line whose model name
    is quoted. *)
Example run_scenario :
  let raw := lit "a cat, <lora:bestlora:0.8>" ++ [NL]
             ++ lit "Negative prompt: blurry" ++ [NL]
             ++ lit "Steps: 30, Model: " ++ [DQUOTE] ++ lit "realisticVision"
             ++ [DQUOTE] in
  let r := run colors_spec raw in
  positive r = lit "a cat,"
  /\ negative r = lit "blurry"
  /\ lora r = Some [lit "<lora:bestlora:0.8>"]
  /\ params r = [ {| key := lit "Steps"; value := lit "30" |};
                  {| key := lit "Model"; value := lit "realisticVision" |} ]
  /\ _output r
     = [ (lit "Prompt:<br>", lit "a cat,");
         (lit "Negative Prompt:<br>", lit "blurry");
         (lit "LoRA:", lit "<br>&ltlora:[file]bestlora[/]:[int]0.8[/]&gt");
         (lit "Steps: ", lit "[int]30");
         (lit "Model: ", lit "[file]realisticVision") ].
Proof. repeat split. Qed.

Lemma run_single_line_witness :
  params (run colors_spec (lit "a cat")) = []
  /\ obj_keys (_output (run colors_spec (lit "a cat"))) = [lit "Prompt:<br>"].
Proof.
  assert (Hnl : ~ In NL (lit "a cat")) by (now apply no_line_feed).
  assert (Hc : ~ In COLON (lit "a cat")).
  { intros H. vm_compute in H. repeat destruct H as [H|H]; try discriminate H. exact H. }
  destruct (@run_single_line base_spec colors_spec (lit "a cat") Hnl)
    as (_ & _ & _ & Hsettings).
  destruct (Hsettings Hc) as (Hnil & _ & _).
  split; [exact Hnil|reflexivity].
Defined.

(** C1 (as stated) fails on a one-line annotation that is a setting:
    the line is also the settings line, and its entry is in the list
    and in the report. *)
Lemma run_single_line_settings :
  ~ In NL raw_steps
  /\ (forall (base : BaseFormat) (colors : Colors),
         params (run colors raw_steps)
         = [ {| key := lit "Steps"; value := lit "20" |} ])
  /\ _output (run colors_spec raw_steps)
     = [ (lit "Prompt:<br>", lit "Steps: 20"); (lit "Steps: ", lit "[int]20") ].
Proof.
  split; [now apply no_line_feed|]. split; [|reflexivity].
  intros base colors. destruct (run_fields colors raw_steps) as (_ & _ & _ & Hp & _).
  rewrite Hp. reflexivity.
Qed.



End RunFacts.

(* ================================================================== *)
(** * Style references *)
(* ================================================================== *)

Module SpanFacts.

Import Regex ForgeUI Spec StringFacts RunFacts SpecBase.

(** Lengths of concatenations, for the measure of the inductions. *)
Ltac lengths := repeat (rewrite length_app || cbn [length]); lia.

Lemma str_length_ind (P : str -> Prop) :
  (forall s, (forall t, (length t < length s)%nat -> P t) -> P s) ->
  forall s, P s.
Proof.
  intros H s. remember (length s) as n eqn:Hn.
  revert s Hn. induction n as [n IH] using lt_wf_ind.
  intros s ->. apply H. intros t Ht. now apply (IH (length t)).
Qed.

(** ** The run of characters before the next greater-than sign *)

Lemma span_not_inv (c : char) (s a b : str) :
  span_not c s = (a, b) ->
  s = a ++ b /\ ~ In c a /\ (b = [] \/ exists b', b = c :: b').
Proof.
  revert a b; induction s as [|x s IH]; intros a b; simpl.
  - intros H; injection H as <- <-. repeat split; [intros []|now left].
  - destruct (N.eqb_spec x c) as [->|Hx].
    + intros H; injection H as <- <-. repeat split; [intros []|right; now exists s].
    + destruct (span_not c s) as [a' b'] eqn:Hs. intros H; injection H as <- <-.
      destruct (IH a' b' eq_refl) as (-> & Hin & Hb).
      repeat split; [|exact Hb]. intros [H|H]; [congruence|now apply Hin].
Qed.

Lemma span_not_first (c : char) (x y : str) :
  ~ In c x -> span_not c (x ++ c :: y) = (x, c :: y).
Proof.
  induction x as [|a x IH]; intros Hx; simpl.
  - now rewrite N.eqb_refl.
  - destruct (N.eqb_spec a c) as [->|_]; [exfalso; apply Hx; now left|].
    rewrite IH; [reflexivity|]. intros H. apply Hx. now right.
Qed.

Lemma in_split_first (c : char) (s : str) :
  In c s -> exists u v, s = u ++ c :: v /\ ~ In c u.
Proof.
  intros Hin. destruct (span_not c s) as [a b] eqn:Hs.
  apply span_not_inv in Hs as (-> & Ha & [->|[b' ->]]).
  - rewrite app_nil_r in Hin. contradiction.
  - now exists a, b'.
Qed.

(** ** One attempt of the span expression *)

Definition span_match (body : str) : rmatch :=
  {| whole := LT :: body ++ [GT]; groups := [] |}.

Lemma exec_span_Some (s : str) (m : rmatch) :
  exec_span s = Some m ->
  exists body rest,
    s = LT :: body ++ GT :: rest /\ body <> [] /\ ~ In GT body /\ m = span_match body.
Proof.
  destruct s as [|c r]; [discriminate|]. unfold exec_span.
  destruct (N.eqb_spec c LT) as [->|_]; [|discriminate].
  destruct (span_not GT r) as [body rest] eqn:Hs.
  apply span_not_inv in Hs as (-> & Hbody & Hrest).
  destruct body as [|x body]; [discriminate|].
  destruct rest as [|y rest]; [discriminate|].
  intros H; injection H as <-.
  destruct Hrest as [H|[b' H]]; [discriminate|]. injection H as -> ->.
  exists (x :: body), b'. repeat split; [discriminate|exact Hbody].
Qed.

Lemma exec_span_found (body rest : str) :
  body <> [] -> ~ In GT body ->
  exec_span (LT :: body ++ GT :: rest) = Some (span_match body).
Proof.
  intros Hne Hgt. unfold exec_span. rewrite N.eqb_refl.
  rewrite (span_not_first _ _ _ Hgt). destruct body; [congruence|reflexivity].
Qed.

Lemma exec_span_other (c : char) (r : str) : c <> LT -> exec_span (c :: r) = None.
Proof.
  intros Hc. unfold exec_span. apply N.eqb_neq in Hc. now rewrite Hc.
Qed.

(** Where the expression fails at a less-than sign: at the end of the
    text, before a greater-than sign, or with no greater-than sign to
    come. *)
Lemma exec_span_None (r : str) :
  exec_span (LT :: r) = None ->
  r = [] \/ (exists r', r = GT :: r') \/ ~ In GT r.
Proof.
  unfold exec_span. rewrite N.eqb_refl.
  destruct (span_not GT r) as [body rest] eqn:Hs.
  apply span_not_inv in Hs as (-> & Hbody & Hrest).
  destruct body as [|x body].
  - intros _. destruct Hrest as [->|[b' ->]]; [now left|right; left; now exists b'].
  - destruct rest as [|y rest]; [|discriminate].
    intros _. right; right. now rewrite app_nil_r.
Qed.

(** ** The scan, case by case *)

Lemma scan_skip (exec_at : str -> option rmatch) (k : nat) (pre s : str) :
  scan exec_at k pre s
  = scan exec_at 0 (rev (firstn k s) ++ pre) (skipn k s).
Proof.
  revert k pre; induction s as [|c s IH]; intros k pre.
  - destruct k; reflexivity.
  - destruct k as [|k]; [reflexivity|].
    simpl scan. rewrite IH. simpl firstn. simpl skipn. simpl rev.
    now rewrite <- app_assoc.
Qed.

Inductive scan_case (pre s : str) : Prop :=
| scan_end :
    s = [] -> scan exec_span 0 pre s = [] -> scan_case pre s
| scan_miss (c : char) (s' : str) :
    s = c :: s' -> exec_span s = None ->
    scan exec_span 0 pre s = Unmatched c :: scan exec_span 0 (c :: pre) s' ->
    scan_case pre s
| scan_hit (body rest pre' : str) :
    s = LT :: body ++ GT :: rest -> body <> [] -> ~ In GT body ->
    scan exec_span 0 pre s
    = Matched (span_match body) (rev pre) rest :: scan exec_span 0 pre' rest ->
    scan_case pre s.

Lemma scan_0_cons (exec_at : str -> option rmatch) (pre : str) (c : char) (s' : str) :
  scan exec_at 0 pre (c :: s')
  = match exec_at (c :: s') with
    | Some m =>
        Matched m (rev pre) (skipn (length (whole m)) (c :: s'))
          :: scan exec_at (length (whole m) - 1) (c :: pre) s'
    | None => Unmatched c :: scan exec_at 0 (c :: pre) s'
    end.
Proof. reflexivity. Qed.

Lemma skipn_body (body rest : str) :
  skipn (length body + 1) (body ++ GT :: rest) = rest.
Proof.
  replace (body ++ GT :: rest) with ((body ++ [GT]) ++ rest)
    by (now rewrite <- app_assoc).
  rewrite skipn_app, skipn_all2 by (rewrite length_app; simpl; lia).
  rewrite length_app. simpl length. now rewrite Nat.sub_diag.
Qed.

Lemma scan_cases (pre s : str) : scan_case pre s.
Proof.
  destruct s as [|c s'].
  - now apply scan_end.
  - destruct (exec_span (c :: s')) as [m|] eqn:Hm.
    + destruct (exec_span_Some _ _ Hm) as (body & rest & Hs & Hne & Hgt & ->).
      injection Hs as -> ->.
      assert (Hlen : length (whole (span_match body)) = S (length body + 1))
        by (simpl; now rewrite length_app).
      apply (scan_hit pre (LT :: body ++ GT :: rest) body rest
               (rev (firstn (length body + 1) (body ++ GT :: rest)) ++ LT :: pre));
        [reflexivity|exact Hne|exact Hgt|].
      rewrite scan_0_cons, Hm, Hlen, scan_skip.
      change (skipn (S (length body + 1)) (LT :: body ++ GT :: rest))
        with (skipn (length body + 1) (body ++ GT :: rest)).
      replace (S (length body + 1) - 1)%nat with (length body + 1)%nat by lia.
      now rewrite skipn_body.
    + apply (scan_miss pre (c :: s') c s'); [reflexivity|exact Hm|].
      now rewrite scan_0_cons, Hm.
Qed.

Lemma first_gt_unique (x y x' y' : str) :
  ~ In GT x -> ~ In GT x' -> x ++ GT :: y = x' ++ GT :: y' -> x = x' /\ y = y'.
Proof.
  intros Hx Hx' H.
  pose proof (span_not_first GT x y Hx) as H1.
  rewrite H, (span_not_first GT x' y' Hx') in H1.
  injection H1 as -> ->. now split.
Qed.

(** Every match is a span. *)
Lemma scan_spans (s : str) :
  forall pre, Forall is_span (matched_texts (scan exec_span 0 pre s)).
Proof.
  induction s as [s IH] using str_length_ind. intros pre.
  destruct (scan_cases pre s) as [-> ->|c s' -> _ ->|body rest pre' -> Hne Hgt ->].
  - constructor.
  - apply IH. simpl. lia.
  - cbn [matched_texts flat_map app]. constructor.
    + now exists body.
    + apply IH. simpl. rewrite length_app. simpl. lia.
Qed.

(** Matches and unmatched characters, in order, make up the text. *)
Lemma scan_reassemble (s : str) :
  forall pre, reassemble (scan exec_span 0 pre s) = s.
Proof.
  induction s as [s IH] using str_length_ind. intros pre.
  destruct (scan_cases pre s) as [-> ->|c s' -> _ ->|body rest pre' -> Hne Hgt ->].
  - reflexivity.
  - cbn [reassemble flat_map app]. f_equal. apply IH. simpl. lia.
  - cbn [reassemble flat_map span_match whole]. fold (reassemble (scan exec_span 0 pre' rest)).
    rewrite IH by (simpl; rewrite length_app; simpl; lia).
    simpl. now rewrite <- app_assoc.
Qed.

Lemma unmatched_incl (s : str) :
  forall pre, incl (unmatched (scan exec_span 0 pre s)) s.
Proof.
  induction s as [s IH] using str_length_ind. intros pre.
  destruct (scan_cases pre s) as [-> ->|c s' -> _ ->|body rest pre' -> Hne Hgt ->].
  - intros x [].
  - cbn [unmatched flat_map app]. intros x [<-|Hx]; [now left|].
    right. apply (IH s') in Hx; [exact Hx|simpl; lia].
  - cbn [unmatched flat_map app]. intros x Hx.
    apply (IH rest) in Hx; [|simpl; rewrite length_app; simpl; lia].
    right. apply in_or_app. right. now right.
Qed.

(** No span is left among the unmatched characters. *)
Lemma unmatched_no_span (s : str) :
  forall pre a body b,
    unmatched (scan exec_span 0 pre s) = a ++ LT :: body ++ GT :: b ->
    body <> [] -> ~ In GT body -> False.
Proof.
  induction s as [s IH] using str_length_ind. intros pre a body b.
  destruct (scan_cases pre s) as [-> ->|c s' -> Hmiss ->|body0 rest pre' -> Hne0 Hgt0 ->].
  - destruct a; discriminate.
  - cbn [unmatched flat_map app].
    fold (unmatched (scan exec_span 0 (c :: pre) s')).
    intros H Hne Hgt. destruct a as [|x a].
    + injection H as -> HT.
      destruct (exec_span_None _ Hmiss) as [->|[[r' ->]|Hno]].
      * destruct body; discriminate.
      * rewrite scan_0_cons, exec_span_other in HT by discriminate.
        destruct body as [|y body]; [congruence|].
        injection HT as <- _. apply Hgt. now left.
      * apply Hno. apply (unmatched_incl s' (LT :: pre)). rewrite HT.
        apply in_or_app. right. now left.
    + injection H as _ HT. apply (IH s') in HT; [exact HT|simpl; lia|exact Hne|exact Hgt].
  - cbn [unmatched flat_map app]. apply IH. simpl. rewrite length_app. simpl. lia.
Qed.

(** An occurrence of a span in the text ends a match; it is the match
    when no less-than sign stands before it. *)
Lemma scan_covers (s : str) :
  forall pre a body b,
    s = a ++ (LT :: body ++ [GT]) ++ b -> body <> [] -> ~ In GT body ->
    exists pfx,
      In (pfx ++ LT :: body ++ [GT]) (matched_texts (scan exec_span 0 pre s))
      /\ (~ In LT a -> pfx = []).
Proof.
  induction s as [s IH] using str_length_ind. intros pre a body b Hs Hne Hgt.
  assert (Hm : (LT :: body ++ [GT]) ++ b = LT :: body ++ GT :: b)
    by (simpl; now rewrite <- app_assoc).
  rewrite Hm in Hs. clear Hm.
  destruct (scan_cases pre s) as [E Hscan|c s' E Hmiss Hscan|body0 rest pre' E Hne0 Hgt0 Hscan];
    rewrite Hscan; clear Hscan.
  - rewrite E in Hs. destruct a; discriminate.
  - rewrite E in Hs, Hmiss. cbn [matched_texts flat_map app].
    destruct a as [|x a].
    + injection Hs as -> ->. now rewrite (exec_span_found _ _ Hne Hgt) in Hmiss.
    + injection Hs as -> ->.
      destruct (IH (a ++ LT :: body ++ GT :: b)) with (pre := x :: pre)
        (a := a) (body := body) (b := b) as [pfx [Hin Hpfx]];
        [rewrite E; lengths|simpl; now rewrite <- app_assoc|exact Hne|exact Hgt|].
      exists pfx. split; [exact Hin|]. intros Hlt. apply Hpfx. intros H. apply Hlt. now right.
  - cbn [matched_texts flat_map app span_match whole].
    rewrite E in Hs. destruct a as [|x a].
    + injection Hs as Hs.
      destruct (first_gt_unique _ _ _ _ Hgt0 Hgt Hs) as [-> ->].
      exists []. split; [now left|reflexivity].
    + injection Hs as <- Hs.
      destruct (in_dec N.eq_dec GT a) as [Hin|Hnin].
      * destruct (in_split_first GT a Hin) as (u & v & -> & Hu).
        rewrite <- app_assoc in Hs. simpl in Hs.
        destruct (first_gt_unique _ _ _ _ Hgt0 Hu Hs) as [-> ->].
        destruct (IH (v ++ LT :: body ++ GT :: b)) with (pre := pre')
          (a := v) (body := body) (b := b) as [pfx [Hpin _]];
          [rewrite E; lengths
          |simpl; now rewrite <- app_assoc|exact Hne|exact Hgt|].
        exists pfx. split; [now right|]. intros Hlt. exfalso. apply Hlt. now left.
      * assert (Hfree : ~ In GT (a ++ LT :: body)).
        { intros H. apply in_app_or in H as [H|[H|H]];
            [now apply Hnin|discriminate H|now apply Hgt]. }
        replace (a ++ LT :: body ++ GT :: b) with ((a ++ LT :: body) ++ GT :: b) in Hs
          by (now rewrite <- app_assoc).
        destruct (first_gt_unique _ _ _ _ Hgt0 Hfree Hs) as [-> ->].
        exists (LT :: a). split.
        -- left. simpl. now rewrite <- app_assoc.
        -- intros Hlt. exfalso. apply Hlt. now left.
Qed.

Lemma loras_of_match (p : str) :
  loras_of (match_loras p) = matched_texts (scan exec_span 0 [] p).
Proof.
  unfold match_loras, match_g. now destruct (matched_texts (scan exec_span 0 [] p)).
Qed.

Lemma strip_loras_unmatched (p : str) :
  strip_loras p = unmatched (scan exec_span 0 [] p).
Proof. reflexivity. Qed.

Lemma strip_loras_no_span (p m : str) : is_span m -> ~ contains m (strip_loras p).
Proof.
  intros (body & -> & Hne & Hgt) (a & b & H).
  rewrite strip_loras_unmatched in H.
  apply (unmatched_no_span p [] a body b); [|exact Hne|exact Hgt].
  rewrite H. simpl. now rewrite <- app_assoc.
Qed.

Lemma is_span_abc : is_span span_abc.
Proof.
  exists (lit "a:b:c"). split; [reflexivity|]. split; [discriminate|].
  intros H. vm_compute in H. repeat destruct H as [H|H]; try discriminate H. exact H.
Qed.

Lemma contains_trans (a b c : str) : contains a b -> contains b c -> contains a c.
Proof.
  intros (x & y & ->) (u & v & ->). exists (u ++ x), (y ++ v).
  now rewrite <- !app_assoc.
Qed.

Section Loras.

Context {base : BaseFormat}.
Variable colors : Colors.

(** C7 (amended): the style references are the successive matches of a
    less-than sign, one or more characters other than the greater-than
    sign, and a greater-than sign, taken leftmost first; such a span may
    hold further less-than signs.  They are collected in their order of
    appearance and do not overlap: matches and unmatched characters, in
    order, make up the text, and the stripped text is made of the
    unmatched characters.  No span is left in the stripped text, nor in
    the positive prompt [run] returns when cleaning the edges only
    takes characters off the ends.  A span that occurs in the text ends
    one of the collected references, and is one of them when no
    less-than sign stands before it. *)
Theorem loras_collected (p : str) :
  let ms := loras_of (match_loras p) in
  (exists ps, reassemble ps = p /\ matched_texts ps = ms
              /\ unmatched ps = strip_loras p)
  /\ Forall is_span ms
  /\ (forall m, is_span m -> ~ contains m (strip_loras p))
  /\ (forall m, is_span m -> contains m p -> exists pfx, In (pfx ++ m) ms)
  /\ (forall m a b, is_span m -> p = a ++ m ++ b -> ~ In LT a -> In m ms)
  /\ (contains span_abc p ->
      (exists pfx, In (pfx ++ span_abc) ms)
      /\ ~ contains span_abc (strip_loras p))
  /\ (forall raw,
        p = fst (split_prompt (first_line_of (split NL raw))) ->
        lora (run colors raw) = match_loras p
        /\ positive (run colors raw) = cleanEdges (strip_loras p)
        /\ ((forall s, contains (cleanEdges s) s) ->
            forall m, is_span m -> ~ contains m (positive (run colors raw)))).
Proof.
  intros ms. unfold ms. rewrite loras_of_match.
  assert (Hcover : forall m, is_span m -> contains m p ->
            exists pfx, In (pfx ++ m) (matched_texts (scan exec_span 0 [] p))).
  { intros m (body & -> & Hne & Hgt) (a & b & Hp).
    destruct (scan_covers p [] a body b Hp Hne Hgt) as [pfx [Hin _]]. now exists pfx. }
  split.
  { exists (scan exec_span 0 [] p). split; [apply scan_reassemble|]. now split. }
  split; [apply scan_spans|].
  split; [intros m; apply strip_loras_no_span|].
  split; [exact Hcover|].
  split.
  { intros m a b (body & -> & Hne & Hgt) Hp Hlt.
    destruct (scan_covers p [] a body b Hp Hne Hgt) as [pfx [Hin Hpfx]].
    now rewrite (Hpfx Hlt) in Hin. }
  split.
  { intros Hc. split; [apply Hcover; [apply is_span_abc|exact Hc]|].
    apply strip_loras_no_span, is_span_abc. }
  intros raw ->. destruct (run_fields colors raw) as (Hpos & _ & Hlora & _).
  split; [exact Hlora|]. split; [exact Hpos|].
  intros Hclean m Hm Hc. rewrite Hpos in Hc.
  apply (strip_loras_no_span (fst (split_prompt (first_line_of (split NL raw)))) m Hm).
  exact (contains_trans _ _ _ Hc (Hclean _)).
Qed.

End Loras.

Lemma removelast_prefix (r : str) : exists b, r = removelast r ++ b.
Proof.
  destruct r as [|x r]; [now exists []|].
  exists [last (x :: r) x]. apply app_removelast_last. discriminate.
Qed.

Lemma contains_trim (s : str) : contains (trim s) s.
Proof. destruct (trim_infix s) as (a & b & H). now exists a, b. Qed.

(** The clean-up of the concrete [BaseFormat] only takes characters off
    the two ends. *)
Lemma cleanEdges_spec_contains (s : str) : contains (cleanEdges_spec s) s.
Proof.
  unfold cleanEdges_spec. pose proof (contains_trim s) as Ht.
  destruct (trim s) as [|a r]; [exact Ht|].
  destruct r as [|b r]; [exact Ht|].
  destruct (wrapping_pair a (last (b :: r) a)); [|exact Ht].
  apply (contains_trans _ (a :: b :: r)); [|exact Ht].
  apply (contains_trans _ (removelast (b :: r))); [apply contains_trim|].
  destruct (removelast_prefix (b :: r)) as [e He].
  exists [a], e. simpl. simpl in He. now rewrite <- He.
Qed.

Lemma loras_collected_witness :
  In span_abc (loras_of (match_loras (lit "a <a:b:c> cat")))
  /\ ~ contains span_abc (positive (run colors_spec (lit "a <a:b:c> cat"))).
Proof.
  destruct (@loras_collected base_spec colors_spec (lit "a <a:b:c> cat"))
    as (_ & _ & _ & _ & Hin & _ & Hrun).
  split.
  - apply (Hin span_abc (lit "a ") (lit " cat")); [apply is_span_abc|reflexivity|].
    intros H. vm_compute in H. repeat destruct H as [H|H]; try discriminate H. exact H.
  - destruct (Hrun (lit "a <a:b:c> cat") eq_refl) as (_ & _ & Hclean).
    apply Hclean; [exact cleanEdges_spec_contains|apply is_span_abc].
Defined.

(** C7 (as stated) fails on a prompt with a less-than sign before the
    span: the one reference collected starts at that sign, and the span
    itself is not in the list. *)
Lemma loras_after_less_than :
  is_plain_span span_abc
  /\ contains span_abc prompt_less_than
  /\ match_loras prompt_less_than = Some [lit "< 2 <a:b:c>"]
  /\ ~ is_plain_span (lit "< 2 <a:b:c>")
  /\ ~ In span_abc (loras_of (match_loras prompt_less_than)).
Proof.
  split.
  { exists (lit "a:b:c"). split; [reflexivity|]. split; [discriminate|].
    split; intros H; vm_compute in H; repeat destruct H as [H|H];
      try discriminate H; exact H. }
  split; [now exists (lit "1 < 2 "), []|].
  split; [reflexivity|].
  split.
  - intros (body & Hm & _ & _ & Hlt).
    assert (Hbody : body = lit " 2 <a:b:c").
    { change (lit "< 2 <a:b:c>") with (LT :: lit " 2 <a:b:c" ++ [GT]) in Hm.
      injection Hm as Hm. symmetry.
      apply (app_inv_tail [GT]). exact Hm. }
    apply Hlt. rewrite Hbody. vm_compute. tauto.
  - intros H. vm_compute in H. destruct H as [H|[]]. discriminate H.
Qed.

End SpanFacts.

(* ================================================================== *)
(** * The EXIF reader and the dispatcher *)
(* ================================================================== *)

Module ExifFacts.

Import Regex ForgeUI ImageUploader Spec StringFacts RunFacts SpecBase.

Local Open Scope Z_scope.

(** ** Reads of the data view *)

Lemma byte_at_nonneg (b : buffer) (i : Z) : 0 <= byte_at b i.
Proof. apply N2Z.is_nonneg. Qed.

Lemma getUint16_nonneg (b : buffer) (off : Z) (le : bool) (v : Z) :
  getUint16 b off le = Ret v -> 0 <= v.
Proof.
  unfold getUint16.
  destruct ((0 <=? off) && (off + 2 <=? byteLength b)); [|discriminate].
  pose proof (byte_at_nonneg b off). pose proof (byte_at_nonneg b (off + 1)).
  destruct le; intros H1; assert (E := f_equal (fun o => match o with
                                                       | Ret x => x
                                                       | Throw _ => 0
                                                       end) H1);
    cbv beta iota in E; lia.
Qed.

Lemma byte_to_N_inj (a b : byte) : Byte.to_N a = Byte.to_N b -> a = b.
Proof.
  intros H. pose proof (Byte.of_to_N a) as Ha. rewrite H, Byte.of_to_N in Ha.
  now injection Ha.
Qed.

Lemma getUint8_head (b0 : byte) (r : buffer) :
  getUint8 (b0 :: r) 0 = Ret (Z.of_N (Byte.to_N b0)).
Proof.
  unfold getUint8, byteLength. cbn [length]. rewrite Nat2Z.inj_succ.
  replace ((0 <=? 0) && (0 + 1 <=? Z.succ (Z.of_nat (length r)))) with true;
    [reflexivity|].
  symmetry. apply andb_true_iff. split; apply Z.leb_le; lia.
Qed.

Lemma getUint8_second (b0 b1 : byte) (r : buffer) :
  getUint8 (b0 :: b1 :: r) 1 = Ret (Z.of_N (Byte.to_N b1)).
Proof.
  unfold getUint8, byteLength. cbn [length]. rewrite !Nat2Z.inj_succ.
  replace ((0 <=? 1) && (1 + 1 <=? Z.succ (Z.succ (Z.of_nat (length r)))))
    with true; [reflexivity|].
  symmetry. apply andb_true_iff. split; apply Z.leb_le; lia.
Qed.

(** ** The bytes [getStringFromDB] reads *)

Lemma getStringFromDB_window (b : buffer) (k1 k2 k3 : nat) :
  forall (o : Z) (s : str),
    getStringFromDB_from b o (k1 + k2 + k3) = Ret s ->
    getStringFromDB_from b (o + Z.of_nat k1) k2 = Ret (firstn k2 (skipn k1 s)).
Proof.
  induction k1 as [|k1 IH]; intros o s.
  - rewrite Z.add_0_r. simpl plus. simpl skipn. revert o s.
    induction k2 as [|k2 IH2]; intros o s; [reflexivity|].
    simpl. destruct (getUint8 b o) as [c|]; [|discriminate]. simpl.
    destruct (getStringFromDB_from b (o + 1) (k2 + k3)) as [t|] eqn:Ht; [|discriminate].
    simpl. intros H; injection H as <-. now rewrite (IH2 _ _ Ht).
  - simpl. destruct (getUint8 b o) as [c|]; [|discriminate]. simpl.
    destruct (getStringFromDB_from b (o + 1) (k1 + k2 + k3)) as [t|] eqn:Ht; [|discriminate].
    simpl. intros H; injection H as <-.
    rewrite <- (IH _ _ Ht). f_equal. lia.
Qed.

(** A type 7 entry decodes to the value bytes from the eighth on,
    without the last one. *)
Lemma readTagValue_undefined (file : buffer) (entryOffset tiffStart : Z)
    (bigEnd : bool) (n field : Z) (vb : str) :
  getUint16 file (entryOffset + 2) (negb bigEnd) = Ret 7 ->
  getUint32 file (entryOffset + 4) (negb bigEnd) = Ret n ->
  getUint32 file (entryOffset + 8) (negb bigEnd) = Ret field ->
  8 <= n ->
  value_bytes file entryOffset tiffStart n field = Ret vb ->
  readTagValue file entryOffset tiffStart bigEnd
  = Ret (VStr (firstn (Z.to_nat (n - 8)) (skipn 7 vb))).
Proof.
  intros Ht Hn Hf Hlen Hvb. unfold readTagValue. rewrite Ht, Hn, Hf. simpl bind.
  change (7 =? 7) with true. cbv iota.
  unfold value_bytes, getStringFromDB in Hvb. unfold getStringFromDB.
  replace (Z.to_nat n) with (7 + Z.to_nat (n - 8) + 1)%nat in Hvb by lia.
  apply getStringFromDB_window in Hvb.
  rewrite (Z.add_comm field tiffStart).
  change (Z.of_nat 7) with 7 in Hvb. now rewrite Hvb.
Qed.

(** C3: the code decodes a type 7 entry from the eighth value byte on
    and leaves out the last byte.  On the user comment of 11 bytes made
    of the 8-byte marker and the text [abc] it gives the last byte of
    the marker followed by [ab], where the specification has [abc]; the
    report of the file shows that prompt. *)
Theorem readTagValue_comment :
  getUint16 jpeg_comment 42 false = Ret 7
  /\ getUint32 jpeg_comment 44 false = Ret 11
  /\ value_bytes jpeg_comment 40 12 11 44
     = Ret (lit "ASCII" ++ [0; 0; 0]%N ++ lit "abc")
  /\ decode_undefined jpeg_comment 40 12 11 44 = Ret (lit "abc")
  /\ readTagValue jpeg_comment 40 12 true = Ret (VStr ([0%N] ++ lit "ab"))
  /\ readEXIFMetadata colors_spec no_comfy no_string_offsets jpeg_comment
     = Ret (EReport [(lit "Prompt:<br>", [0%N] ++ lit "ab")]).
Proof. repeat split; vm_compute; reflexivity. Qed.

(** ** The directory reader *)

Lemma obj_set_has_key (A : Type) (o : object A) (k : str) (v : A) :
  In k (obj_keys (obj_set o k v)).
Proof.
  induction o as [|[k' v'] o IH]; simpl; [now left|].
  destruct (eqb_str k' k) eqn:Hk; simpl.
  - left. now apply eqb_str_eq.
  - now right.
Qed.

Lemma obj_set_keeps_keys (A : Type) (o : object A) (k x : str) (v : A) :
  In x (obj_keys o) -> In x (obj_keys (obj_set o k v)).
Proof.
  induction o as [|[k' v'] o IH]; simpl; [intros []|].
  destruct (eqb_str k' k); simpl; intros [H|H]; auto.
Qed.

Lemma readTags_from_unfold (file : buffer) (tiffStart dirStart : Z)
    (strings : tag_table) (bigEnd : bool) (i : Z) (k : nat) (tags : object jsvalue) :
  readTags_from file tiffStart dirStart strings bigEnd i (S k) tags
  = (id <- getUint16 file (dirStart + i * 12 + 2) (negb bigEnd) ;;
     v <- readTagValue file (dirStart + i * 12 + 2) tiffStart bigEnd ;;
     readTags_from file tiffStart dirStart strings bigEnd (i + 1) k
       (obj_set tags (tag_key (lookup_tag strings id)) v)).
Proof. reflexivity. Qed.

(** The keys of the mapping [readTags] builds are names of the table or
    the property name [undefined]. *)
Lemma readTags_from_keys (file : buffer) (tiffStart dirStart : Z)
    (strings : tag_table) (bigEnd : bool) (count : nat) :
  forall i tags0 tags,
    readTags_from file tiffStart dirStart strings bigEnd i count tags0 = Ret tags ->
    forall k, In k (obj_keys tags) ->
      In k (obj_keys tags0) \/ k = lit "undefined"
      \/ exists id, lookup_tag strings id = Some k.
Proof.
  induction count as [|count IH]; intros i tags0 tags.
  - intros H; injection H as <-. now left.
  - rewrite readTags_from_unfold.
    destruct (getUint16 file (dirStart + i * 12 + 2) (negb bigEnd)) as [id|];
      [|discriminate].
    destruct (readTagValue file (dirStart + i * 12 + 2) tiffStart bigEnd) as [v|];
      [|discriminate].
    simpl bind. intros H k Hk. destruct (IH _ _ _ H k Hk) as [Hin|Hother]; [|now right].
    apply RunFacts.obj_keys_set in Hin. destruct Hin as [<-|Hin]; [|now left].
    right. destruct (lookup_tag strings id) as [name|] eqn:Hid; [right; now exists id|now left].
Qed.

(** An entry whose id the table lacks leaves the key [undefined] in the
    mapping. *)
Lemma readTags_from_unknown (file : buffer) (tiffStart dirStart : Z)
    (strings : tag_table) (bigEnd : bool) (count : nat) :
  forall i tags0 tags,
    readTags_from file tiffStart dirStart strings bigEnd i count tags0 = Ret tags ->
    (In (lit "undefined") (obj_keys tags0) -> In (lit "undefined") (obj_keys tags))
    /\ forall j id,
         (j < count)%nat ->
         getUint16 file (dirStart + (i + Z.of_nat j) * 12 + 2) (negb bigEnd) = Ret id ->
         lookup_tag strings id = None ->
         In (lit "undefined") (obj_keys tags).
Proof.
  induction count as [|count IH]; intros i tags0 tags.
  - intros H; injection H as <-. split; [tauto|]. intros j id Hj. lia.
  - rewrite readTags_from_unfold.
    destruct (getUint16 file (dirStart + i * 12 + 2) (negb bigEnd)) as [id0|] eqn:Hid0;
      [|discriminate].
    destruct (readTagValue file (dirStart + i * 12 + 2) tiffStart bigEnd) as [v|];
      [|discriminate].
    simpl bind. intros H. destruct (IH _ _ _ H) as [Hkeep Hlater]. split.
    + intros Hin. apply Hkeep. now apply obj_set_keeps_keys.
    + intros [|j] id Hj Hid Hnone.
      * rewrite Z.add_0_r in Hid. rewrite Hid in Hid0. injection Hid0 as <-.
        apply Hkeep. rewrite Hnone. apply obj_set_has_key.
      * apply (Hlater j id); [lia| |exact Hnone].
        rewrite <- Hid. do 3 f_equal. lia.
Qed.

(** C9: an entry whose id the table lacks is stored under the property
    name [undefined].  With such an entry after the user comment, the
    directory maps [undefined] too, the loop over its keys copies that
    value last, and the file that reports its prompt without the entry
    reports that nothing was found. *)
Theorem readTags_unknown_id :
  readTags jpeg_comment_colorspace 12 38 ExifTags true
  = Ret [ (lit "UserComment", VStr ([0%N] ++ lit "ab"));
          (lit "undefined", VUndefined) ]
  /\ lookup_tag ExifTags 0xA001 = None
  /\ readMetadata colors_spec no_comfy no_png no_string_offsets
       ImageJpeg jpeg_comment_colorspace
     = Ret ([], no_sections)
  /\ readMetadata colors_spec no_comfy no_png no_string_offsets
       ImageJpeg jpeg_comment
     = Ret ([], [(lit "Prompt:<br>", [0%N] ++ lit "ab")]).
Proof. repeat split; vm_compute; reflexivity. Qed.

Section Uploader.

Context {base : BaseFormat}.
Variable colors : Colors.
Variable comfy_parse : jsvalue -> outcome (object str).
Variable getFromPngBuffer : buffer -> outcome (option (object jsvalue)).
Variable readTags_at_string : buffer -> Z -> str -> bool -> outcome (object jsvalue).

Abbreviation parceMetadata := (parceMetadata colors comfy_parse).
Abbreviation segment_turn := (segment_turn colors comfy_parse readTags_at_string).
Abbreviation segment_loop := (segment_loop colors comfy_parse readTags_at_string).
Abbreviation run_turns := (run_turns colors comfy_parse readTags_at_string).
Abbreviation readEXIFMetadata := (readEXIFMetadata colors comfy_parse readTags_at_string).
Abbreviation readMetadata :=
  (readMetadata colors comfy_parse getFromPngBuffer readTags_at_string).

(** ** The dispatcher *)


(** C10: a truthy [parameters] value whose parse returns decides the
    report, whatever [prompt] holds: the parser of the parameters
    flavour is the only one started and its output is returned.  The
    parser of the prompt flavour is started only when [parameters] is
    absent or falsy or its parse has thrown. *)
Theorem parceMetadata_forge_first (metadata : option (object jsvalue)) :
  (forall output,
      truthy (metadata_field metadata (lit "parameters")) = true ->
      truthy (metadata_field metadata (lit "prompt")) = true ->
      ForgeUI.parse colors (metadata_field metadata (lit "parameters")) = Ret output ->
      parceMetadata metadata
      = ([ForgeCalled (metadata_field metadata (lit "parameters"))], output))
  /\ (forall raw,
         In (ComfyCalled raw) (fst (parceMetadata metadata)) ->
         truthy (metadata_field metadata (lit "parameters")) = false
         \/ exists e,
              ForgeUI.parse colors (metadata_field metadata (lit "parameters"))
              = Throw e).
Proof.
  split.
  - intros output Hp _ Hparse. unfold ImageUploader.parceMetadata. cbv zeta.
    now rewrite Hp, Hparse.
  - intros raw. unfold ImageUploader.parceMetadata. cbv zeta.
    destruct (truthy (metadata_field metadata (lit "parameters"))); [|now left].
    destruct (ForgeUI.parse colors (metadata_field metadata (lit "parameters")))
      as [output|e].
    + intros [H|[]]. discriminate H.
    + intros _. right. now exists e.
Qed.

(** ** The segment loop *)

Lemma segment_turn_progress (dataView : buffer) (offset offset' : Z) :
  segment_turn dataView offset = Next offset' -> offset + 2 <= offset'.
Proof.
  unfold ImageUploader.segment_turn.
  destruct (getUint8 dataView offset) as [ff|]; [|discriminate].
  destruct (negb (ff =? 255)); [discriminate|].
  destruct (getUint8 dataView (offset + 1)) as [marker|]; [|discriminate].
  destruct (marker =? 225).
  - destruct (getUint16 dataView (offset + 2) false); discriminate.
  - destruct (getUint16 dataView (offset + 2) false) as [len|] eqn:Hlen; [|discriminate].
    apply getUint16_nonneg in Hlen. intros H.
    assert (offset' = offset + (2 + len)) by congruence. lia.
Qed.

Lemma segment_loop_unfold (dataView : buffer) (offset : Z) :
  segment_loop dataView offset
  = if offset <? byteLength dataView then
      match segment_turn dataView offset with
      | Next offset' => segment_loop dataView offset'
      | Done r => r
      end
    else Ret EUndefined.
Proof.
  funelim (segment_loop dataView offset).
  - now rewrite e.
  - now rewrite Hlt, Hturn.
  - now rewrite Hlt, e.
Qed.

(** The loop has ended after [n] turns when twice [n] covers what is
    left of the buffer. *)
Lemma run_turns_enough (n : nat) (dataView : buffer) :
  forall offset,
    byteLength dataView - offset <= 2 * Z.of_nat n ->
    run_turns n dataView offset = Some (segment_loop dataView offset).
Proof.
  induction n as [|n IH]; intros offset Hn; rewrite segment_loop_unfold;
    cbn [Spec.run_turns]; destruct (offset <? byteLength dataView) eqn:Hlt;
    try reflexivity.
  - apply Z.ltb_lt in Hlt. lia.
  - destruct (segment_turn dataView offset) as [offset'|r] eqn:Hturn; [|reflexivity].
    apply IH. apply segment_turn_progress in Hturn. lia.
Qed.

(** C4 (amended): a turn of the loop that goes on moves the offset
    forward by at least 2, the declared length being an unsigned 16-bit
    number, so the loop ends for every buffer, within as many turns as
    the buffer has bytes.  In-bounds access is not guaranteed: on a file
    cut off inside a segment header the loop asks for a byte past the
    end of the buffer, and the read throws a [RangeError]. *)
Theorem segment_loop_ends :
  (forall dataView offset offset',
      segment_turn dataView offset = Next offset' -> offset + 2 <= offset')
  /\ (forall dataView,
         run_turns (length dataView) dataView 2 = Some (segment_loop dataView 2))
  /\ readEXIFMetadata jpeg_cut_1 = Throw RangeError
  /\ readEXIFMetadata jpeg_cut_2 = Throw RangeError.
Proof.
  split; [exact segment_turn_progress|]. split.
  - intros dataView. apply run_turns_enough. unfold byteLength. lia.
  - split; vm_compute; reflexivity.
Qed.

(** ** Files that are not JPEG *)

Lemma readMetadata_returns (ty : file_type) (data : buffer) :
  exists r, readMetadata ty data = Ret r.
Proof.
  unfold ImageUploader.readMetadata. destruct ty.
  - destruct (readPNGMetadata colors comfy_parse getFromPngBuffer data);
      simpl; eexists; reflexivity.
  - destruct (readEXIFMetadata data); simpl; eexists; reflexivity.
  - simpl. eexists; reflexivity.
Qed.

Lemma readEXIFMetadata_two_bytes (b0 b1 : byte) (rest : buffer) :
  ~ (b0 = xff /\ b1 = xd8) ->
  readEXIFMetadata (b0 :: b1 :: rest) = Ret EFalse.
Proof.
  intros Hsoi. unfold ImageUploader.readEXIFMetadata.
  rewrite getUint8_head. simpl bind.
  destruct (Z.of_N (Byte.to_N b0) =? 255) eqn:H0; [|reflexivity].
  simpl negb. cbv iota. rewrite getUint8_second. simpl bind.
  destruct (Z.of_N (Byte.to_N b1) =? 216) eqn:H1; [|reflexivity].
  exfalso. apply Hsoi. apply Z.eqb_eq in H0, H1.
  split; apply byte_to_N_inj; apply N2Z.inj; assumption.
Qed.

Lemma readEXIFMetadata_not_jpeg (data : buffer) :
  ~ (exists rest, data = xff :: xd8 :: rest) ->
  readEXIFMetadata data = Ret EFalse \/ readEXIFMetadata data = Throw RangeError.
Proof.
  intros Hsoi. destruct data as [|b0 [|b1 rest]].
  - now right.
  - unfold ImageUploader.readEXIFMetadata. rewrite getUint8_head. simpl bind.
    destruct (negb (Z.of_N (Byte.to_N b0) =? 255)); [now left|now right].
  - left. apply readEXIFMetadata_two_bytes. intros [-> ->]. apply Hsoi. now exists rest.
Qed.

(** C5: [readMetadata] never throws, and for a buffer that does not
    start with the bytes FF D8 the EXIF reader returns [false], or
    throws a [RangeError] when the buffer is too short to hold them;
    either way [readMetadata] returns the empty mapping: no annotation,
    no report entry. *)
Theorem readMetadata_not_jpeg (data : buffer) :
  ~ (exists rest, data = xff :: xd8 :: rest) ->
  (forall ty buf, exists r, readMetadata ty buf = Ret r)
  /\ (readEXIFMetadata data = Ret EFalse
      \/ readEXIFMetadata data = Throw RangeError)
  /\ ((2 <= length data)%nat -> readEXIFMetadata data = Ret EFalse)
  /\ exists toasts, readMetadata ImageJpeg data = Ret (toasts, []).
Proof.
  intros Hsoi. split; [exact readMetadata_returns|].
  pose proof (readEXIFMetadata_not_jpeg data Hsoi) as Hexif.
  split; [exact Hexif|]. split.
  - intros Hlen. destruct data as [|b0 [|b1 rest]];
      [simpl in Hlen; lia|simpl in Hlen; lia|].
    apply readEXIFMetadata_two_bytes. intros [-> ->]. apply Hsoi. now exists rest.
  - unfold ImageUploader.readMetadata. destruct Hexif as [-> | ->]; simpl;
      eexists; reflexivity.
Qed.

End Uploader.

Lemma parceMetadata_forge_first_witness :
  parceMetadata colors_spec no_comfy metadata_both
  = ([ForgeCalled (VStr (lit "a cat"))], [(lit "Prompt:<br>", lit "a cat")]).
Proof.
  destruct (@parceMetadata_forge_first base_spec colors_spec no_comfy metadata_both)
    as [H _].
  apply H; reflexivity.
Defined.

Lemma segment_loop_ends_witness :
  segment_turn colors_spec no_comfy no_string_offsets jpeg_cut_2 2 = Next 6
  /\ 2 + 2 <= 6.
Proof.
  destruct (@segment_loop_ends base_spec colors_spec no_comfy no_string_offsets)
    as [H _].
  split; [reflexivity|]. apply (H jpeg_cut_2 2 6). reflexivity.
Defined.

(** C4 (as stated) fails in its first half: no buffer keeps the loop
    turning for ever, and no turn that goes on leaves the offset where
    it was or moves it back. *)
Lemma segment_loop_never_hangs :
  ~ (exists (base : BaseFormat) colors comfy strings dataView,
        forall n, run_turns colors comfy strings n dataView 2 = None)
  /\ ~ (exists (base : BaseFormat) colors comfy strings dataView offset offset',
           segment_turn colors comfy strings dataView offset = Next offset'
           /\ offset' <= offset).
Proof.
  split.
  - intros (base & colors & comfy & strings & dataView & H).
    specialize (H (length dataView)).
    rewrite run_turns_enough in H by (unfold byteLength; lia). discriminate H.
  - intros (base & colors & comfy & strings & dataView & offset & offset' & H & Hle).
    apply segment_turn_progress in H. lia.
Qed.

Lemma readMetadata_not_jpeg_witness :
  exists toasts,
    readMetadata colors_spec no_comfy no_png no_string_offsets ImageJpeg
      (text "GIF89a")
    = Ret (toasts, []).
Proof.
  apply (@readMetadata_not_jpeg base_spec colors_spec no_comfy no_png
           no_string_offsets (text "GIF89a")).
  intros [rest H]. discriminate H.
Defined.

End ExifFacts.

(* ================================================================== *)
(** * More on trimming *)
(* ================================================================== *)

Module TrimFacts.

Import StringFacts.

Lemma trimStart_head (s : str) (c : char) (r : str) :
  trimStart s = c :: r -> is_ws c = false.
Proof.
  induction s as [|x s IH]; simpl; [discriminate|].
  destruct (is_ws x) eqn:Hx; [exact IH|].
  intros H; injection H as <- _. exact Hx.
Qed.

Lemma trimStart_fixed (s : str) :
  (forall c r, s = c :: r -> is_ws c = false) -> trimStart s = s.
Proof.
  destruct s as [|c r]; [reflexivity|]. intros H. simpl.
  now rewrite (H c r eq_refl).
Qed.

Lemma trimStart_idem (s : str) : trimStart (trimStart s) = trimStart s.
Proof.
  apply trimStart_fixed. intros c r H. exact (trimStart_head _ _ _ H).
Qed.

(** A text whose two ends are no white space is its own trimming. *)
Lemma trim_ends (s : str) :
  trimStart s = s -> trimStart (rev s) = rev s -> trim s = s.
Proof.
  intros H1 H2. unfold trim, trimEnd. rewrite H1, H2. apply rev_involutive.
Qed.

Lemma trim_between (a b : char) (m : str) :
  is_ws a = false -> is_ws b = false -> trim (a :: m ++ [b]) = a :: m ++ [b].
Proof.
  intros Ha Hb. apply trim_ends.
  - simpl. now rewrite Ha.
  - change (a :: m ++ [b]) with ((a :: m) ++ [b]). rewrite rev_app_distr.
    simpl. now rewrite Hb.
Qed.

Lemma trim_ws_cons (c : char) (s : str) :
  is_ws c = true -> trim (c :: s) = trim s.
Proof. intros H. unfold trim. simpl. now rewrite H. Qed.

(** Trimming twice is trimming once. *)
Lemma trim_idem (s : str) : trim (trim s) = trim s.
Proof.
  apply trim_ends.
  - unfold trim, trimEnd.
    destruct (trimStart_suffix (rev (trimStart s))) as [a Ha].
    assert (Ht : trimStart s = rev (trimStart (rev (trimStart s))) ++ rev a).
    { rewrite <- rev_app_distr, <- Ha. now rewrite rev_involutive. }
    destruct (rev (trimStart (rev (trimStart s)))) as [|c r]; [reflexivity|].
    simpl in Ht. apply trimStart_head in Ht. simpl. now rewrite Ht.
  - unfold trim, trimEnd. rewrite rev_involutive. apply trimStart_idem.
Qed.

(** The trimmed text only holds characters of the text. *)
Lemma trim_incl (s : str) : incl (trim s) s.
Proof.
  destruct (trim_infix s) as (a & b & H). intros x Hx. rewrite H.
  apply in_or_app. right. apply in_or_app. now left.
Qed.

End TrimFacts.

(* ================================================================== *)
(** * The tokenizer on well-formed lines *)
(* ================================================================== *)

Module TokenizerRoundTrip.

Import Regex ForgeUI Spec Shapes StringFacts TrimFacts TokenizerFacts.

(** Closes a goal [~ In c s] for closed [c] and [s]. *)
Ltac not_in :=
  let H := fresh in
  intros H; vm_compute in H; repeat (destruct H as [H|H]; [discriminate H|]);
  exact H.

Lemma indexOf_char_first (c : char) (a b : str) :
  ~ In c a -> indexOf [c] (a ++ c :: b) = Some (length a).
Proof.
  induction a as [|x a IH]; intros Ha; rewrite indexOf_unfold.
  - simpl. now rewrite N.eqb_refl.
  - simpl app. cbn [startsWith].
    destruct (N.eqb_spec c x) as [->|_]; [exfalso; apply Ha; now left|].
    simpl. rewrite IH; [reflexivity|]. intros H. apply Ha. now right.
Qed.

Lemma split_outside_cons (inq : bool) (s : str) :
  exists l ls, split_outside_quotes inq s = l :: ls.
Proof.
  revert inq; induction s as [|c s IH]; intros inq; simpl; [now eexists _, _|].
  destruct ((c =? COMMA)%N && negb inq); [now eexists _, _|].
  destruct (split_outside_quotes (if (c =? DQUOTE)%N then negb inq else inq) s);
    now eexists _, _.
Qed.

(** A text read without meeting an outside comma stays in one piece. *)
Lemma split_closed (S T : str) :
  forall inq inq',
    quote_state inq S = Some inq' ->
    split_outside_quotes inq (S ++ T) = cons_head S (split_outside_quotes inq' T).
Proof.
  induction S as [|c S IH]; intros inq inq'; simpl.
  - intros H; injection H as <-.
    destruct (split_outside_cons inq T) as (l & ls & ->). reflexivity.
  - destruct ((c =? COMMA)%N && negb inq); [discriminate|]. intros H.
    rewrite (IH _ _ H).
    destruct (split_outside_cons inq' T) as (l & ls & ->). reflexivity.
Qed.

Lemma quote_state_app (a b : str) :
  forall inq,
    quote_state inq (a ++ b)
    = match quote_state inq a with
      | Some st => quote_state st b
      | None => None
      end.
Proof.
  induction a as [|c a IH]; intros inq; simpl; [reflexivity|].
  destruct ((c =? COMMA)%N && negb inq); [reflexivity|]. apply IH.
Qed.

Lemma quote_state_plain (a : str) (inq : bool) :
  ~ In DQUOTE a -> (inq = false -> ~ In COMMA a) -> quote_state inq a = Some inq.
Proof.
  induction a as [|c a IH]; intros Hq Hc; simpl; [reflexivity|].
  assert (Hcq : (c =? DQUOTE)%N = false)
    by (apply N.eqb_neq; intros ->; apply Hq; now left).
  rewrite Hcq.
  replace ((c =? COMMA)%N && negb inq) with false.
  - apply IH; [intros H; apply Hq; now right|].
    intros Hi H. apply (Hc Hi). now right.
  - symmetry. destruct inq; [apply andb_false_r|].
    rewrite andb_true_r. apply N.eqb_neq. intros ->. apply (Hc eq_refl). now left.
Qed.

Lemma plain_prefix (pre : str) (qe : bool * entry) :
  writable qe -> ~ In DQUOTE pre -> ~ In COMMA pre ->
  ~ In DQUOTE (pre ++ key (snd qe) ++ lit ": ")
  /\ ~ In COMMA (pre ++ key (snd qe) ++ lit ": ").
Proof.
  intros (_ & Hkc & _ & Hkq & _) Hq Hc. split; intros H;
    apply in_app_or in H as [H|H]; try contradiction;
    apply in_app_or in H as [H|H]; try contradiction; revert H; not_in.
Qed.

(** A setting as written, after a plain prefix, is read without
    meeting an outside comma and leaves no quoted span open. *)
Lemma format_entry_state (pre : str) (qe : bool * entry) :
  writable qe -> ~ In DQUOTE pre -> ~ In COMMA pre ->
  quote_state false (pre ++ format_entry (fst qe) (snd qe)) = Some false.
Proof.
  intros Hw Hq Hc. destruct (plain_prefix pre qe Hw Hq Hc) as [Hpq Hpc].
  destruct Hw as (_ & _ & _ & _ & Hvq & Hplain).
  unfold format_entry.
  replace (pre ++ key (snd qe) ++ lit ": "
             ++ (if fst qe then [DQUOTE] ++ value (snd qe) ++ [DQUOTE]
                 else value (snd qe)))
    with ((pre ++ key (snd qe) ++ lit ": ")
             ++ (if fst qe then [DQUOTE] ++ value (snd qe) ++ [DQUOTE]
                 else value (snd qe)))
    by (now rewrite <- !app_assoc).
  rewrite quote_state_app, (quote_state_plain _ false Hpq (fun _ => Hpc)).
  destruct (fst qe).
  - rewrite (quote_state_app [DQUOTE]).
    change (quote_state false [DQUOTE]) with (Some true). cbv iota.
    rewrite quote_state_app, (quote_state_plain _ true Hvq) by discriminate.
    reflexivity.
  - destruct (Hplain eq_refl) as [_ Hvc].
    now rewrite (quote_state_plain _ false Hvq (fun _ => Hvc)).
Qed.

Lemma format_line_cons (qe qe2 : bool * entry) (rest : list (bool * entry)) :
  format_line (qe :: qe2 :: rest)
  = format_entry (fst qe) (snd qe) ++ COMMA :: 32%N :: format_line (qe2 :: rest).
Proof. reflexivity. Qed.

Lemma split_outside_comma (T : str) :
  split_outside_quotes false (COMMA :: T) = [] :: split_outside_quotes false T.
Proof. reflexivity. Qed.

(** A well-formed line falls into its pieces. *)
Lemma split_format_line (es : list (bool * entry)) :
  Forall writable es ->
  forall pre, ~ In DQUOTE pre -> ~ In COMMA pre ->
    split_outside_quotes false (pre ++ format_line es) = cons_head pre (pieces es).
Proof.
  induction es as [|qe es IH]; intros Hw pre Hq Hc.
  - change (format_line []) with (@nil char).
    rewrite (split_closed pre [] false false); [reflexivity|].
    now apply quote_state_plain.
  - inversion Hw as [|? ? Hqe Hes]; subst. destruct es as [|qe2 es].
    + change (format_line [qe]) with (format_entry (fst qe) (snd qe)).
      rewrite <- (app_nil_r (pre ++ format_entry (fst qe) (snd qe))).
      rewrite (split_closed _ [] false false) by now apply format_entry_state.
      simpl. now rewrite !app_nil_r.
    + rewrite format_line_cons, app_assoc.
      rewrite (split_closed _ _ false false) by now apply format_entry_state.
      rewrite split_outside_comma.
      match goal with
      | |- cons_head _ ([] :: ?X) = _ =>
          replace X with (cons_head [32%N] (pieces (qe2 :: es)))
            by (symmetry; apply (IH Hes [32%N]); not_in)
      end.
      simpl. now rewrite app_nil_r.
Qed.

Lemma count_quotes_app (a b : str) :
  count_quotes (a ++ b) = (count_quotes a + count_quotes b)%nat.
Proof. apply count_occ_app. Qed.

Lemma count_quotes_none (a : str) : ~ In DQUOTE a -> count_quotes a = 0%nat.
Proof. intros H. now apply count_occ_not_In. Qed.

Lemma format_entry_quotes (qe : bool * entry) :
  writable qe ->
  Nat.even (count_quotes (format_entry (fst qe) (snd qe))) = true.
Proof.
  intros (_ & _ & _ & Hkq & Hvq & _). unfold format_entry.
  rewrite !count_quotes_app, (count_quotes_none _ Hkq).
  destruct (fst qe).
  - rewrite !count_quotes_app, (count_quotes_none _ Hvq). reflexivity.
  - rewrite (count_quotes_none _ Hvq). reflexivity.
Qed.

Lemma format_line_quotes (es : list (bool * entry)) :
  Forall writable es -> Nat.even (count_quotes (format_line es)) = true.
Proof.
  induction es as [|qe es IH]; intros Hw; [reflexivity|].
  inversion Hw as [|? ? Hqe Hes]; subst. destruct es as [|qe2 es].
  - now apply format_entry_quotes.
  - rewrite format_line_cons.
    change (COMMA :: 32%N :: format_line (qe2 :: es))
      with ([COMMA; 32%N] ++ format_line (qe2 :: es)).
    rewrite !count_quotes_app, !Nat.even_add, (format_entry_quotes _ Hqe), (IH Hes).
    reflexivity.
Qed.

Lemma unquote_plain (v : str) : ~ In DQUOTE v -> unquote_ends v = v.
Proof.
  intros Hv. unfold unquote_ends. destruct v as [|c v]; [reflexivity|].
  cbn [startsWith]. destruct (N.eqb_spec DQUOTE c) as [<-|_]; [|reflexivity].
  exfalso. apply Hv. now left.
Qed.

Lemma unquote_quoted (v : str) :
  unquote_ends ([DQUOTE] ++ v ++ [DQUOTE]) = v.
Proof.
  unfold unquote_ends, endsWith, slice_1_m1.
  change ([DQUOTE] ++ v ++ [DQUOTE]) with (DQUOTE :: v ++ [DQUOTE]).
  cbn [startsWith]. rewrite N.eqb_refl.
  change (DQUOTE :: v ++ [DQUOTE]) with ((DQUOTE :: v) ++ [DQUOTE]).
  rewrite rev_app_distr. cbn [rev app startsWith]. rewrite N.eqb_refl.
  cbn [andb tl app]. apply removelast_last.
Qed.

Lemma firstn_length_app (X Y : str) : firstn (length X) (X ++ Y) = X.
Proof. induction X as [|x X IH]; simpl; [now destruct Y|now rewrite IH]. Qed.

Lemma skipn_succ_app (X : str) (c : char) (Y : str) :
  skipn (S (length X)) (X ++ c :: Y) = Y.
Proof. induction X as [|x X IH]; [reflexivity|exact IH]. Qed.

(** The entry of a piece, cut at its first colon. *)
Lemma segment_entry_at (unquote : str -> str) (X Y : str) :
  ~ In COLON X ->
  segment_entry unquote (X ++ COLON :: Y)
  = [ {| key := trim X; value := unquote (trim Y) |} ].
Proof.
  intros HX. unfold segment_entry.
  now rewrite (indexOf_char_first COLON X Y HX), firstn_length_app, skipn_succ_app.
Qed.

(** Each piece of a well-formed line gives back its setting. *)
Lemma segment_entry_piece (pre : str) (qe : bool * entry) :
  writable qe -> pre = [] \/ pre = [32%N] ->
  segment_entry unquote_ends (pre ++ format_entry (fst qe) (snd qe)) = [snd qe].
Proof.
  intros Hw Hpre. pose proof Hw as (Hkt & _ & Hkc & _ & Hvq & Hplain).
  assert (Hpc : ~ In COLON (pre ++ key (snd qe))).
  { intros H. apply in_app_or in H as [H|H]; [|contradiction].
    destruct Hpre as [-> | ->]; revert H; not_in. }
  assert (Hkey : trim (pre ++ key (snd qe)) = key (snd qe)).
  { destruct Hpre as [-> | ->]; [exact Hkt|].
    simpl app. rewrite trim_ws_cons by reflexivity. exact Hkt. }
  unfold format_entry.
  replace (pre ++ key (snd qe) ++ lit ": "
             ++ (if fst qe then [DQUOTE] ++ value (snd qe) ++ [DQUOTE]
                 else value (snd qe)))
    with ((pre ++ key (snd qe)) ++ COLON
             :: (32%N :: (if fst qe then [DQUOTE] ++ value (snd qe) ++ [DQUOTE]
                          else value (snd qe))))
    by (now rewrite <- app_assoc).
  rewrite (segment_entry_at unquote_ends _ _ Hpc), Hkey.
  rewrite trim_ws_cons by reflexivity.
  destruct (snd qe) as [k v]. cbn [key value] in *. destruct (fst qe).
  - change ([DQUOTE] ++ v ++ [DQUOTE]) with (DQUOTE :: v ++ [DQUOTE]).
    rewrite trim_between by reflexivity.
    change (DQUOTE :: v ++ [DQUOTE]) with ([DQUOTE] ++ v ++ [DQUOTE]).
    now rewrite unquote_quoted.
  - destruct (Hplain eq_refl) as [Hvt _]. rewrite Hvt, unquote_plain by exact Hvq.
    reflexivity.
Qed.

(** X1: a settings line written from settings whose keys are trimmed
    and free of comma, colon and double quote, and whose values are
    either quoted and free of double quotes or plain, trimmed and free
    of comma and double quote, is read back as exactly those settings,
    in order.  A quoted value may hold commas, colons and white space
    at its ends. *)
Theorem parseParameters_format_line (es : list (bool * entry)) :
  Forall writable es ->
  parseParameters (format_line es) = List.map snd es.
Proof.
  intros Hw. rewrite parseParameters_flat_map.
  unfold split_commas. rewrite (split_commas_outside false)
    by (rewrite lookahead_even; now apply format_line_quotes).
  pose proof (split_format_line es Hw [] (fun H => H) (fun H => H)) as Hs.
  simpl app in Hs. rewrite Hs. destruct es as [|qe es]; [reflexivity|].
  inversion Hw as [|? ? Hqe Hes]; subst.
  cbn [pieces cons_head app flat_map List.map].
  change (snd qe :: List.map snd es) with ([snd qe] ++ List.map snd es).
  f_equal; [apply (segment_entry_piece [] qe Hqe); now left|].
  clear Hs Hw Hqe.
  induction es as [|qe2 es IH]; [reflexivity|].
  inversion Hes as [|? ? Hqe2 Hes2]; subst. cbn [List.map flat_map].
  change (snd qe2 :: List.map snd es) with ([snd qe2] ++ List.map snd es).
  f_equal; [apply (segment_entry_piece [32%N] qe2 Hqe2); now right|].
  now apply IH.
Qed.

Lemma parseParameters_format_line_witness :
  parseParameters
    (format_line
       [ (false, {| key := lit "Steps"; value := lit "20" |});
         (true, {| key := lit "Sampler"; value := lit "Euler a, fast: 2 " |});
         (false, {| key := lit "CFG scale"; value := lit "7" |}) ])
  = [ {| key := lit "Steps"; value := lit "20" |};
      {| key := lit "Sampler"; value := lit "Euler a, fast: 2 " |};
      {| key := lit "CFG scale"; value := lit "7" |} ].
Proof.
  apply (parseParameters_format_line
           [ (false, {| key := lit "Steps"; value := lit "20" |});
             (true, {| key := lit "Sampler"; value := lit "Euler a, fast: 2 " |});
             (false, {| key := lit "CFG scale"; value := lit "7" |}) ]).
  repeat (constructor;
          [unfold writable; cbn [fst snd key value]; repeat split;
           try reflexivity; try not_in; try discriminate;
           try (intros _; split; [reflexivity|not_in])|]).
  constructor.
Defined.

(** ** What the tokenizer returns on any line *)

Lemma in_join_parts (c sep : char) (parts : list str) :
  c <> sep -> In c (join [sep] parts) -> exists p, In p parts /\ In c p.
Proof.
  intros Hc. induction parts as [|p parts IH]; [intros []|].
  destruct parts as [|q parts].
  - intros H. exists p. split; [now left|exact H].
  - change (join [sep] (p :: q :: parts)) with (p ++ [sep] ++ join [sep] (q :: parts)).
    intros H. apply in_app_or in H as [H|H]; [exists p; split; [now left|exact H]|].
    apply in_app_or in H as [[H|[]]|H]; [congruence|].
    destruct (IH H) as (x & Hx & Hcx). exists x. split; [now right|exact Hcx].
Qed.

Lemma indexOf_char_In (c : char) (s : str) :
  In c s -> exists i, indexOf [c] s = Some i.
Proof.
  intros Hin. destruct (indexOf [c] s) as [i|] eqn:Hi; [now exists i|].
  exfalso. apply (indexOf_None _ _ Hi). apply in_split in Hin as (a & b & ->).
  now exists a, b.
Qed.

Lemma segment_entry_length (unquote : str -> str) (seg : str) :
  length (segment_entry unquote seg) = if in_dec N.eq_dec COLON seg then 1%nat else 0%nat.
Proof.
  unfold segment_entry. destruct (in_dec N.eq_dec COLON seg) as [Hin|Hnin].
  - destruct (indexOf_char_In _ _ Hin) as [i ->]. reflexivity.
  - now rewrite (indexOf_char_None _ _ Hnin).
Qed.

Lemma count_join (c sep : char) (parts : list str) :
  c <> sep ->
  count_occ N.eq_dec (join [sep] parts) c
  = list_sum (List.map (fun p => count_occ N.eq_dec p c) parts).
Proof.
  intros Hc. induction parts as [|p parts IH]; [reflexivity|].
  destruct parts as [|q parts].
  - simpl. lia.
  - change (join [sep] (p :: q :: parts)) with (p ++ sep :: join [sep] (q :: parts)).
    rewrite count_occ_app, count_occ_cons_neq by congruence.
    change (list_sum (List.map (fun p0 => count_occ N.eq_dec p0 c) (p :: q :: parts)))
      with (count_occ N.eq_dec p c
            + list_sum (List.map (fun p0 => count_occ N.eq_dec p0 c) (q :: parts)))%nat.
    f_equal. exact IH.
Qed.

Lemma split_commas_join (text : str) : join [COMMA] (split_commas text) = text.
Proof.
  apply join_split_where. intros c r H.
  apply andb_true_iff in H as [H _]. now apply N.eqb_eq in H.
Qed.

Lemma split_where_length (d : char -> str -> bool) (sep : char) (s : str) :
  (forall c r, d c r = true -> c = sep) ->
  (length (split_where d s) <= S (count_occ N.eq_dec s sep))%nat.
Proof.
  intros Hd. induction s as [|c s IH]; simpl; [lia|].
  destruct (d c s) eqn:Hc.
  - apply Hd in Hc as ->. simpl. destruct (N.eq_dec sep sep); [|congruence]. lia.
  - destruct (split_where_cons d s) as (l & ls & Hl). rewrite Hl in *.
    simpl in *. destruct (N.eq_dec c sep); lia.
Qed.

Lemma first_occurrence_free (c : char) (i : nat) :
  forall s,
    (forall j, (j < i)%nat -> startsWith [c] (skipn j s) = false) ->
    ~ In c (firstn i s).
Proof.
  induction i as [|i IH]; intros s Hfirst; [now rewrite firstn_0|].
  destruct s as [|x s]; [intros []|]. simpl. intros [Hx|Hin].
  - specialize (Hfirst 0%nat (Nat.lt_0_succ i)). simpl in Hfirst.
    rewrite Hx, N.eqb_refl in Hfirst. discriminate.
  - apply (IH s); [|exact Hin]. intros j Hj. apply (Hfirst (S j)). lia.
Qed.

(** X2: the tokenizer returns no entry exactly when the line holds no
    colon. *)
Theorem parseParameters_nil_iff (text : str) :
  parseParameters text = [] <-> ~ In COLON text.
Proof.
  split; [|apply parseParameters_no_colon].
  intros Hnil Hin. rewrite <- (split_commas_join text) in Hin.
  destruct (in_join_parts COLON COMMA _ ltac:(discriminate) Hin) as (p & Hp & Hc).
  rewrite parseParameters_flat_map in Hnil.
  assert (Hlen : length (segment_entry unquote_ends p) = 1%nat).
  { rewrite segment_entry_length. destruct (in_dec N.eq_dec COLON p); [reflexivity|contradiction]. }
  apply in_split in Hp as (l1 & l2 & Hparts). rewrite Hparts in Hnil.
  rewrite flat_map_app in Hnil. cbn [flat_map] in Hnil.
  apply app_eq_nil in Hnil as [_ Hnil]. apply app_eq_nil in Hnil as [Hnil _].
  rewrite Hnil in Hlen. discriminate.
Qed.

(** X3: every key the tokenizer returns is trimmed and holds no colon,
    and there are no more entries than colons in the line, and no more
    than one per comma plus one. *)
Theorem parseParameters_keys (text : str) :
  (forall e, In e (parseParameters text) ->
             trim (key e) = key e /\ ~ In COLON (key e))
  /\ (length (parseParameters text) <= count_occ N.eq_dec text COLON)%nat
  /\ (length (parseParameters text) <= S (count_occ N.eq_dec text COMMA))%nat.
Proof.
  rewrite parseParameters_flat_map. split; [|split].
  - intros e He. apply in_flat_map in He as (seg & _ & He).
    unfold segment_entry in He.
    destruct (indexOf [COLON] seg) as [i|] eqn:Hi; [|contradiction].
    destruct He as [<-|[]]. cbn [key]. split; [apply trim_idem|].
    apply indexOf_Some in Hi as [_ Hfirst]. intros Hin.
    apply trim_incl in Hin. exact (first_occurrence_free COLON i seg Hfirst Hin).
  - rewrite <- (split_commas_join text) at 2.
    rewrite (count_join COLON COMMA) by discriminate.
    induction (split_commas text) as [|p parts IH]; [simpl; lia|].
    cbn [flat_map List.map]. rewrite length_app, segment_entry_length.
    match goal with
    | |- (_ <= list_sum (?a :: ?l))%nat =>
        change (list_sum (a :: l)) with (a + list_sum l)%nat
    end.
    destruct (in_dec N.eq_dec COLON p) as [Hin|_]; [|lia].
    apply (count_occ_In N.eq_dec) in Hin. lia.
  - transitivity (length (split_commas text)).
    + induction (split_commas text) as [|p parts IH]; [simpl; lia|].
      cbn [flat_map length]. rewrite length_app, segment_entry_length.
      destruct (in_dec N.eq_dec COLON p); lia.
    + apply split_where_length. intros c r H.
      apply andb_true_iff in H as [H _]. now apply N.eqb_eq in H.
Qed.

Lemma parseParameters_keys_witness :
  trim (lit "Steps") = lit "Steps" /\ ~ In COLON (lit "Steps").
Proof.
  destruct (parseParameters_keys (lit " Steps : 20, 10:30")) as [Hkeys _].
  apply (Hkeys {| key := lit "Steps"; value := lit "20" |}). now left.
Defined.

End TokenizerRoundTrip.

(* ================================================================== *)
(** * Lines, prompts and references: further properties *)
(* ================================================================== *)

Module PromptFacts.

Import Regex ForgeUI Spec Shapes StringFacts TrimFacts RunFacts SpanFacts.

(** ** The lines of the annotation *)

Lemma split_parts_no_sep (sep : char) (s p : str) :
  In p (split sep s) -> ~ In sep p.
Proof.
  unfold split. revert p; induction s as [|c s IH]; intros p; simpl.
  - intros [<-|[]] [].
  - destruct (N.eqb_spec c sep) as [->|Hc].
    + intros [<-|H]; [intros []|now apply IH].
    + destruct (split_where (fun c0 _ => (c0 =? sep)%N) s) as [|l ls] eqn:Hl.
      * intros [<-|[]] [H|[]]. congruence.
      * intros [<-|H].
        -- intros [H|H]; [congruence|]. apply (IH l); [now left|exact H].
        -- apply IH. now right.
Qed.

(** X4: the last line holds no line feed, and an annotation of more
    than one line is the prompt block, a line feed and the settings
    line: nothing of it is lost or doubled between the two. *)
Theorem lines_rejoin (raw : str) :
  ~ In NL (last_line_of (split NL raw))
  /\ (In NL raw ->
      raw = first_line_of (split NL raw) ++ [NL] ++ last_line_of (split NL raw)).
Proof.
  pose proof (@join_split_where (fun c _ => (c =? NL)%N) NL raw) as Hj.
  fold (split NL raw) in Hj.
  assert (Hraw : join [NL] (split NL raw) = raw)
    by (apply Hj; intros c r H; now apply N.eqb_eq in H).
  pose proof (split_parts_no_sep NL raw) as Hparts.
  destruct (split_where_cons (fun c _ => (c =? NL)%N) raw) as [l [ls Hl]].
  fold (split NL raw) in Hl. rewrite Hl in *.
  assert (Hlast : last_line_of (l :: ls) = last (l :: ls) []) by reflexivity.
  split.
  - rewrite Hlast. apply Hparts.
    destruct (exists_last (l := l :: ls) ltac:(discriminate)) as (front & x & Hx).
    rewrite Hx, last_last. apply in_or_app. right. now left.
  - intros Hin. destruct ls as [|l2 ls].
    + exfalso. simpl in Hraw. subst l. apply (Hparts raw); [now left|exact Hin].
    + rewrite Hlast. unfold first_line_of.
      change ((length (l :: l2 :: ls) =? 1)%nat) with false.
      change ((1 <? length (l :: l2 :: ls))%nat) with true. cbv iota.
      rewrite <- join_snoc by (simpl; destruct ls; discriminate).
      rewrite <- app_removelast_last by discriminate. now symmetry.
Qed.

Lemma lines_rejoin_witness :
  lit "a cat" ++ [NL] ++ lit "blurry" ++ [NL] ++ lit "Steps: 30"
  = first_line_of (split NL (lit "a cat" ++ [NL] ++ lit "blurry" ++ [NL]
                                ++ lit "Steps: 30"))
    ++ [NL]
    ++ last_line_of (split NL (lit "a cat" ++ [NL] ++ lit "blurry" ++ [NL]
                                 ++ lit "Steps: 30")).
Proof.
  apply (lines_rejoin (lit "a cat" ++ [NL] ++ lit "blurry" ++ [NL] ++ lit "Steps: 30")).
  apply in_or_app. right. now left.
Defined.

(** ** The marker of the negative prompt *)

(** X5: the positive prompt cut out of a prompt block never holds the
    marker of the negative prompt. *)
Theorem split_prompt_positive_clean (block : str) :
  ~ contains separator (fst (split_prompt block)).
Proof.
  destruct (includes separator block) eqn:Hinc.
  - apply includes_contains in Hinc.
    destruct (split_prompt_present block Hinc) as (before & after & Hb & Hfirst & ->).
    cbn [fst]. intros Hc.
    apply (fun H => contains_trans _ _ _ H (contains_trim before)) in Hc.
    destruct Hc as (a & b & Hab).
    assert (Hj : (length a < length before)%nat).
    { rewrite Hab, !length_app. change (length separator) with 16%nat. lia. }
    specialize (Hfirst (length a) Hj).
    assert (startsWith separator (skipn (length a) block) = true); [|congruence].
    apply startsWith_prefix. exists (b ++ separator ++ after).
    rewrite Hb, Hab. rewrite <- !app_assoc.
    rewrite skipn_app, skipn_all, Nat.sub_diag. reflexivity.
  - assert (Habsent : ~ contains separator block).
    { intros H. apply includes_contains in H. congruence. }
    rewrite (split_prompt_absent block Habsent). cbn [fst]. intros Hc.
    apply Habsent. exact (contains_trans _ _ _ Hc (contains_trim block)).
Qed.

(** ** Stripping the references *)

Lemma pieces_unmatched (c : char) (ps : list piece) :
  reassemble (Unmatched c :: ps) = c :: reassemble ps
  /\ unmatched (Unmatched c :: ps) = c :: unmatched ps
  /\ matched_texts (Unmatched c :: ps) = matched_texts ps.
Proof. repeat split. Qed.

Lemma pieces_matched (m : rmatch) (b a : str) (ps : list piece) :
  reassemble (Matched m b a :: ps) = whole m ++ reassemble ps
  /\ unmatched (Matched m b a :: ps) = unmatched ps
  /\ matched_texts (Matched m b a :: ps) = whole m :: matched_texts ps.
Proof. repeat split. Qed.

Lemma list_sum_cons (a : nat) (l : list nat) :
  list_sum (a :: l) = (a + list_sum l)%nat.
Proof. reflexivity. Qed.

Lemma matched_nil_unmatched (ps : list piece) :
  matched_texts ps = [] -> unmatched ps = reassemble ps.
Proof.
  induction ps as [|[c|m b a] ps IH]; [reflexivity| |].
  - destruct (pieces_unmatched c ps) as (-> & -> & ->). intros H.
    f_equal. now apply IH.
  - destruct (pieces_matched m b a ps) as (_ & _ & ->). discriminate.
Qed.

Lemma reassemble_length (ps : list piece) :
  length (reassemble ps)
  = (length (unmatched ps) + list_sum (List.map (@length char) (matched_texts ps)))%nat.
Proof.
  induction ps as [|[c|m b a] ps IH]; [reflexivity| |].
  - destruct (pieces_unmatched c ps) as (-> & -> & ->). simpl length. rewrite IH. lia.
  - destruct (pieces_matched m b a ps) as (-> & -> & ->).
    rewrite length_app, IH. cbn [List.map]. rewrite list_sum_cons. lia.
Qed.

Lemma matched_in_text (ps : list piece) (m : str) :
  In m (matched_texts ps) -> contains m (reassemble ps).
Proof.
  induction ps as [|[c|m0 b a] ps IH].
  - intros [].
  - destruct (pieces_unmatched c ps) as (-> & _ & ->). intros H.
    destruct (IH H) as (x & y & ->). now exists (c :: x), y.
  - destruct (pieces_matched m0 b a ps) as (-> & _ & ->). intros [<-|H].
    + now exists [], (reassemble ps).
    + destruct (IH H) as (x & y & ->). exists (whole m0 ++ x), y.
      now rewrite <- app_assoc.
Qed.

Lemma match_loras_None (p : str) :
  match_loras p = None <-> matched_texts (scan exec_span 0 [] p) = [].
Proof.
  unfold match_loras, match_g.
  destruct (matched_texts (scan exec_span 0 [] p)); split; congruence.
Qed.

Lemma span_length (m : str) : is_span m -> (3 <= length m)%nat.
Proof.
  intros (body & -> & Hne & _). destruct body; [congruence|].
  simpl. rewrite length_app. simpl. lia.
Qed.

Lemma strip_lengths (p : str) :
  length p
  = (length (strip_loras p)
     + list_sum (List.map (@length char) (loras_of (match_loras p))))%nat.
Proof.
  rewrite loras_of_match, strip_loras_unmatched.
  pose proof (reassemble_length (scan exec_span 0 [] p)) as Hlen.
  now rewrite (scan_reassemble p []) in Hlen.
Qed.

Lemma no_match_strip (p : str) : match_loras p = None -> strip_loras p = p.
Proof.
  intros H. apply match_loras_None in H.
  rewrite strip_loras_unmatched, (matched_nil_unmatched _ H).
  apply scan_reassemble.
Qed.

Lemma strip_no_match (p : str) : strip_loras p = p -> match_loras p = None.
Proof.
  intros H. pose proof (strip_lengths p) as Hlen. rewrite H in Hlen.
  pose proof (scan_spans p []) as Hspans. rewrite <- loras_of_match in Hspans.
  destruct (match_loras p) as [ms|] eqn:Hm; [|reflexivity]. exfalso.
  assert (Hne : ms <> []).
  { unfold match_loras, match_g in Hm.
    destruct (matched_texts (scan exec_span 0 [] p)); [discriminate|].
    injection Hm as <-. discriminate. }
  cbn [loras_of] in *. destruct ms as [|m ms]; [congruence|].
  inversion Hspans as [|? ? Hspan _]; subst. apply span_length in Hspan.
  cbn [List.map] in Hlen. rewrite list_sum_cons in Hlen. lia.
Qed.

Lemma no_span_no_match (p : str) :
  (forall m, is_span m -> ~ contains m p) -> match_loras p = None.
Proof.
  intros H. apply match_loras_None.
  pose proof (scan_spans p []) as Hspans.
  destruct (matched_texts (scan exec_span 0 [] p)) as [|m ms] eqn:Hms; [reflexivity|].
  exfalso. inversion Hspans as [|? ? Hm _]; subst.
  apply (H m Hm). rewrite <- (scan_reassemble p []). apply matched_in_text.
  rewrite Hms. now left.
Qed.

Lemma no_match_no_span (p : str) :
  match_loras p = None -> forall m, is_span m -> ~ contains m p.
Proof.
  intros H m (body & -> & Hne & Hgt) (a & b & Hp). apply match_loras_None in H.
  destruct (scan_covers p [] a body b Hp Hne Hgt) as [pfx [Hin _]].
  rewrite H in Hin. contradiction.
Qed.

(** X6: the references found and the text left add up to the prompt in
    length.  No reference is found exactly when stripping leaves the
    prompt as it is, and exactly when the prompt holds no span. *)
Theorem strip_loras_identity (p : str) :
  length p
  = (length (strip_loras p)
     + list_sum (List.map (@length char) (loras_of (match_loras p))))%nat
  /\ (match_loras p = None <-> strip_loras p = p)
  /\ (match_loras p = None <-> forall m, is_span m -> ~ contains m p).
Proof.
  split; [apply strip_lengths|]. split; split.
  - apply no_match_strip.
  - apply strip_no_match.
  - apply no_match_no_span.
  - apply no_span_no_match.
Qed.

(** X7: stripping the references a second time changes nothing, and
    finds no reference. *)
Theorem strip_loras_idempotent (p : str) :
  strip_loras (strip_loras p) = strip_loras p
  /\ match_loras (strip_loras p) = None.
Proof.
  assert (H : match_loras (strip_loras p) = None).
  { apply no_span_no_match. intros m Hm. now apply strip_loras_no_span. }
  split; [now apply no_match_strip|exact H].
Qed.

End PromptFacts.

(* ================================================================== *)
(** * The report of the parser *)
(* ================================================================== *)

Module ReportFacts.

Import Regex ForgeUI Spec Shapes StringFacts RunFacts.

(** ** Objects *)

Lemma eqb_str_false (a b : str) : eqb_str a b = false <-> a <> b.
Proof.
  split.
  - intros H E. apply eqb_str_eq in E. congruence.
  - intros H. destruct (eqb_str a b) eqn:E; [|reflexivity].
    apply eqb_str_eq in E. contradiction.
Qed.

Lemma obj_get_set_same (A : Type) (o : object A) (k : str) (v : A) :
  obj_get (obj_set o k v) k = Some v.
Proof.
  induction o as [|[k' v'] o IH]; simpl.
  - assert (E : eqb_str k k = true) by now apply eqb_str_eq. now rewrite E.
  - destruct (eqb_str k' k) eqn:E; simpl; now rewrite E.
Qed.

Lemma obj_get_set_other (A : Type) (o : object A) (k f : str) (v : A) :
  k <> f -> obj_get (obj_set o k v) f = obj_get o f.
Proof.
  intros Hk. induction o as [|[k' v'] o IH]; simpl.
  - apply eqb_str_false in Hk. now rewrite Hk.
  - destruct (eqb_str k' k) eqn:E; simpl; [|now rewrite IH].
    apply eqb_str_eq in E. subst k'. apply eqb_str_false in Hk. now rewrite Hk.
Qed.

Lemma obj_set_app_l (A : Type) (h o : object A) (k : str) (v : A) :
  ~ In k (obj_keys h) -> obj_set (h ++ o) k v = h ++ obj_set o k v.
Proof.
  induction h as [|[k' v'] h IH]; intros Hk; [reflexivity|]. simpl.
  assert (E : eqb_str k' k = false).
  { apply eqb_str_false. intros ->. apply Hk. now left. }
  rewrite E, IH; [reflexivity|]. intros H. apply Hk. now right.
Qed.

Lemma existsb_eqb_str (k : str) (l : list str) :
  existsb (eqb_str k) l = true <-> In k l.
Proof.
  rewrite existsb_exists. split.
  - intros (x & Hx & E). apply eqb_str_eq in E. now subst.
  - intros H. exists k. split; [exact H|now apply eqb_str_eq].
Qed.

Lemma obj_keys_set_cases (A : Type) (o : object A) (k : str) (v : A) :
  obj_keys (obj_set o k v)
  = if existsb (eqb_str k) (obj_keys o) then obj_keys o else obj_keys o ++ [k].
Proof.
  induction o as [|[k' v'] o IH]; [reflexivity|].
  change (obj_set ((k', v') :: o) k v)
    with (if eqb_str k' k then (k', v) :: o else (k', v') :: obj_set o k v).
  change (obj_keys ((k', v') :: o)) with (k' :: obj_keys o).
  cbn [existsb]. destruct (eqb_str k' k) eqn:E.
  - apply eqb_str_eq in E. subst k'.
    assert (E : eqb_str k k = true) by now apply eqb_str_eq. now rewrite E.
  - assert (E' : eqb_str k k' = false).
    { apply eqb_str_false. apply eqb_str_false in E. congruence. }
    rewrite E'. cbn [orb].
    change (obj_keys ((k', v') :: obj_set o k v))
      with (k' :: obj_keys (obj_set o k v)).
    rewrite IH. now destruct (existsb (eqb_str k) (obj_keys o)).
Qed.

Lemma first_occurrences_ext (ks : list str) :
  forall s1 s2,
    (forall x, In x s1 <-> In x s2) ->
    first_occurrences s1 ks = first_occurrences s2 ks.
Proof.
  induction ks as [|k ks IH]; intros s1 s2 H; [reflexivity|]. simpl.
  assert (E : existsb (eqb_str k) s1 = existsb (eqb_str k) s2).
  { destruct (existsb (eqb_str k) s1) eqn:E1, (existsb (eqb_str k) s2) eqn:E2;
      try reflexivity.
    - apply existsb_eqb_str in E1. apply H, existsb_eqb_str in E1. congruence.
    - apply existsb_eqb_str in E2. apply H, existsb_eqb_str in E2. congruence. }
  rewrite E. destruct (existsb (eqb_str k) s2); [now apply IH|].
  f_equal. apply IH. intros x. simpl. now rewrite H.
Qed.

(** ** The keys of the settings *)

Lemma last_colon_space (k : str) (d : char) : last (k ++ lit ": ") d = 32%N.
Proof.
  change (lit ": ") with ([COLON] ++ [32%N]). rewrite app_assoc. apply last_last.
Qed.

Section Report.

Context {base : BaseFormat}.
Variable colors : Colors.

(** The key of a setting ends in a space; no key of the head of the
    report does, nor the key [Error]. *)
Lemma param_key_not_fixed (obj : entry) (f : str) :
  In f (lit "Error" :: prompt_keys) -> param_key obj <> f.
Proof.
  intros Hf E. pose proof (last_colon_space (escapeHTML (key obj)) 0%N) as Hl.
  fold (param_key obj) in Hl. rewrite E in Hl.
  destruct Hf as [<-|[<-|[<-|[<-|[]]]]]; discriminate Hl.
Qed.

Lemma add_param_set (result : object str) (obj : entry) :
  add_param colors result obj
  = obj_set result (param_key obj) (param_value colors obj).
Proof.
  unfold add_param, param_key, param_value.
  destruct (isNumber (value obj)); [reflexivity|].
  now destruct (eqb_str (escapeHTML (key obj)) (lit "Model")).
Qed.

Lemma fold_add_param_app (params : list entry) :
  forall h o,
    (forall obj, ~ In (param_key obj) (obj_keys h)) ->
    fold_left (add_param colors) params (h ++ o)
    = h ++ fold_left (add_param colors) params o.
Proof.
  induction params as [|obj params IH]; intros h o Hh; [reflexivity|].
  cbn [fold_left]. rewrite add_param_set, obj_set_app_l by apply Hh.
  rewrite <- add_param_set. now apply IH.
Qed.

Lemma fold_add_param_keys (params : list entry) :
  forall o,
    obj_keys (fold_left (add_param colors) params o)
    = obj_keys o ++ first_occurrences (obj_keys o) (List.map param_key params).
Proof.
  induction params as [|obj params IH]; intros o.
  - simpl. now rewrite app_nil_r.
  - cbn [fold_left List.map first_occurrences]. rewrite IH, add_param_set.
    rewrite obj_keys_set_cases.
    destruct (existsb (eqb_str (param_key obj)) (obj_keys o)) eqn:E; [reflexivity|].
    rewrite <- app_assoc. simpl. do 2 f_equal.
    apply first_occurrences_ext. intros x. rewrite in_app_iff. simpl. tauto.
Qed.

Lemma fold_add_param_get (params : list entry) (f : str) :
  forall o,
    (forall obj, In obj params -> param_key obj <> f) ->
    obj_get (fold_left (add_param colors) params o) f = obj_get o f.
Proof.
  induction params as [|obj params IH]; intros o H; [reflexivity|].
  cbn [fold_left]. rewrite IH by (intros x Hx; apply H; now right).
  rewrite add_param_set. apply obj_get_set_other. apply H. now left.
Qed.

(** The head of the report, entry by entry. *)
Lemma report_head_entries (positive negative : str) (lora : option (list str)) :
  report_head colors positive negative lora
  = [(lit "Prompt:<br>", escapeHTML positive)]
    ++ match negative with
       | [] => []
       | _ :: _ => [(lit "Negative Prompt:<br>", escapeHTML negative)]
       end
    ++ match lora with
       | Some l => [(lit "LoRA:", lora_text_of colors l)]
       | None => []
       end.
Proof. unfold report_head. destruct negative, lora; reflexivity. Qed.

Lemma report_head_free (positive negative : str) (lora : option (list str)) :
  forall obj,
    ~ In (param_key obj) (obj_keys (report_head colors positive negative lora)).
Proof.
  intros obj Hin. apply report_head_keys in Hin.
  apply (param_key_not_fixed obj (param_key obj)); [now right|reflexivity].
Qed.

Lemma output_split (raw : str) :
  _output (run colors raw)
  = report_head colors (positive (run colors raw)) (negative (run colors raw))
      (lora (run colors raw))
    ++ fold_left (add_param colors) (params (run colors raw)) [].
Proof.
  destruct (run_fields colors raw) as (_ & _ & _ & _ & Ho). rewrite Ho.
  rewrite <- (app_nil_r (report_head _ _ _ _)) at 1.
  apply fold_add_param_app. apply report_head_free.
Qed.

Lemma output_no_error (raw : str) :
  ~ In (lit "Error") (obj_keys (_output (run colors raw))).
Proof.
  rewrite output_split. unfold obj_keys.
  rewrite map_app, in_app_iff. intros [H|H].
  - apply RunFacts.report_head_keys in H.
    destruct H as [H|[H|[H|[]]]]; discriminate H.
  - fold (obj_keys (fold_left (add_param colors) (params (run colors raw)) [])) in H.
    rewrite fold_add_param_keys in H. simpl in H.
    assert (Hsub : forall seen ks x, In x (first_occurrences seen ks) -> In x ks).
    { clear. intros seen ks; revert seen; induction ks as [|k ks IH];
        intros seen x; simpl; [tauto|].
      destruct (existsb (eqb_str k) seen).
      - intros Hx. right. exact (IH _ _ Hx).
      - intros [->|Hx]; [now left|right; exact (IH _ _ Hx)]. }
    apply Hsub in H. apply in_map_iff in H as (obj & Hk & _).
    apply (param_key_not_fixed obj (lit "Error")); [now left|exact Hk].
Qed.

(** X8: every report starts with the prompt entry, followed by the
    negative prompt when it is not empty and by the LoRA text when a
    reference was found; the settings come after these and never
    replace them, and no key of the report is [Error]. *)
Theorem report_starts_with_prompt (raw : str) :
  (exists settings,
      _output (run colors raw)
      = [(lit "Prompt:<br>", escapeHTML (positive (run colors raw)))]
        ++ match negative (run colors raw) with
           | [] => []
           | _ :: _ => [(lit "Negative Prompt:<br>",
                         escapeHTML (negative (run colors raw)))]
           end
        ++ match lora (run colors raw) with
           | Some l => [(lit "LoRA:", lora_text_of colors l)]
           | None => []
           end
        ++ settings
      /\ obj_keys settings
         = first_occurrences [] (List.map param_key (params (run colors raw))))
  /\ ~ In (lit "Error") (obj_keys (_output (run colors raw))).
Proof.
  pose proof (output_split raw) as Ho. rewrite report_head_entries in Ho.
  split.
  - exists (fold_left (add_param colors) (params (run colors raw)) []).
    split; [now rewrite Ho, <- !app_assoc|].
    now rewrite fold_add_param_keys.
  - apply output_no_error.
Qed.

(** X9: a setting that no later setting repeats under the same key is
    in the report with its own value: of settings with the same key the
    last one decides the value. *)
Theorem report_last_setting_wins (raw : str) (before after : list entry)
    (obj : entry) :
  params (run colors raw) = before ++ obj :: after ->
  (forall later, In later after -> param_key later <> param_key obj) ->
  obj_get (_output (run colors raw)) (param_key obj)
  = Some (param_value colors obj).
Proof.
  intros Hp Hafter. destruct (run_fields colors raw) as (_ & _ & _ & _ & Ho).
  rewrite Ho, Hp, fold_left_app. cbn [fold_left].
  rewrite fold_add_param_get by exact Hafter.
  rewrite add_param_set. apply obj_get_set_same.
Qed.

End Report.

Import SpecBase.

Lemma report_last_setting_wins_witness :
  obj_get
    (_output (run colors_spec
                (lit "a cat" ++ [NL] ++ lit "Steps: 20, Seed: 7, Steps: 30")))
    (lit "Steps: ")
  = Some (lit "[int]30").
Proof.
  apply (@report_last_setting_wins base_spec colors_spec
           (lit "a cat" ++ [NL] ++ lit "Steps: 20, Seed: 7, Steps: 30")
           [ {| key := lit "Steps"; value := lit "20" |};
             {| key := lit "Seed"; value := lit "7" |} ]
           []
           {| key := lit "Steps"; value := lit "30" |}).
  - reflexivity.
  - intros later [].
Defined.

End ReportFacts.

(* ================================================================== *)
(** * The display text of a reference *)
(* ================================================================== *)

Module LoraDisplayFacts.

Import Regex ForgeUI Spec Shapes StringFacts SpanFacts TokenizerRoundTrip.

(** ** Lazy groups *)

Lemma lazy_dot_found (A : Type) (sep : char) (k : str -> str -> option A)
    (g rest : str) (r : A) :
  forall acc,
    ~ In sep g -> one_line g ->
    k (acc ++ g) rest = Some r ->
    lazy_dot sep k acc (g ++ sep :: rest) = Some r.
Proof.
  induction g as [|x g IH]; intros acc Hsep Hline Hk.
  - simpl. rewrite N.eqb_refl. rewrite app_nil_r in Hk. now rewrite Hk.
  - simpl. destruct (N.eqb_spec x sep) as [->|_]; [exfalso; apply Hsep; now left|].
    rewrite (Hline x) by now left.
    apply IH.
    + intros H. apply Hsep. now right.
    + intros c Hc. apply Hline. now right.
    + now rewrite <- app_assoc.
Qed.

Lemma lazy_dot_Some (A : Type) (sep : char) (k : str -> str -> option A)
    (s : str) (r : A) :
  forall acc,
    lazy_dot sep k acc s = Some r ->
    exists g rest, s = g ++ sep :: rest /\ k (acc ++ g) rest = Some r.
Proof.
  induction s as [|c s IH]; intros acc; simpl; [discriminate|].
  destruct (N.eqb_spec c sep) as [->|Hc].
  - destruct (k acc s) as [r'|] eqn:Hk.
    + intros H; injection H as <-. exists [], s. now rewrite app_nil_r.
    + destruct (is_line_terminator sep); [discriminate|]. intros H.
      destruct (IH _ H) as (g & rest & -> & Hg). exists (sep :: g), rest.
      split; [reflexivity|]. now rewrite <- app_assoc in Hg.
  - destruct (is_line_terminator c); [discriminate|]. intros H.
    destruct (IH _ H) as (g & rest & -> & Hg). exists (c :: g), rest.
    split; [reflexivity|]. now rewrite <- app_assoc in Hg.
Qed.

Lemma exec_triple_found (a b c rest : str) :
  ~ In COLON a -> one_line a -> ~ In COLON b -> one_line b ->
  ~ In GT c -> one_line c ->
  exec_triple (LT :: a ++ COLON :: b ++ COLON :: c ++ GT :: rest)
  = Some (triple_match a b c).
Proof.
  intros Ha La Hb Lb Hc Lc. unfold exec_triple. rewrite N.eqb_refl.
  apply lazy_dot_found; [exact Ha|exact La|]. simpl app.
  apply lazy_dot_found; [exact Hb|exact Lb|]. simpl app.
  apply lazy_dot_found; [exact Hc|exact Lc|]. reflexivity.
Qed.

(** A match needs two colons. *)
Lemma exec_triple_colons (s : str) (m : rmatch) :
  exec_triple s = Some m -> (2 <= count_occ N.eq_dec s COLON)%nat.
Proof.
  destruct s as [|x s]; [discriminate|]. unfold exec_triple.
  destruct (N.eqb_spec x LT) as [->|_]; [|discriminate]. intros H.
  apply lazy_dot_Some in H as (g1 & r1 & -> & H).
  apply lazy_dot_Some in H as (g2 & r2 & -> & _).
  rewrite count_occ_cons_neq by discriminate.
  rewrite count_occ_app, count_occ_cons_eq by reflexivity.
  rewrite count_occ_app, count_occ_cons_eq by reflexivity.
  lia.
Qed.

(** ** The scan *)

Lemma scan_all_unmatched (exec_at : str -> option rmatch) (s : str) :
  (forall u v, s = u ++ v -> exec_at v = None) ->
  forall pre, scan exec_at 0 pre s = List.map Unmatched s.
Proof.
  induction s as [|c s IH]; intros Hfail pre; [reflexivity|].
  rewrite scan_0_cons, (Hfail [] (c :: s) eq_refl). cbn [List.map]. f_equal.
  apply IH. intros u v ->. apply (Hfail (c :: u) v). reflexivity.
Qed.

Lemma replace_unmatched (subst : rmatch -> str -> str -> str) (s : str) :
  flat_map (fun p => match p with
                     | Unmatched c => [c]
                     | Matched m b a => subst m b a
                     end) (List.map Unmatched s) = s.
Proof.
  induction s as [|c s IH]; [reflexivity|]. cbn [List.map flat_map app].
  now rewrite IH.
Qed.

Lemma scan_one_match (exec_at : str -> option rmatch) (s : str) (m : rmatch) :
  s <> [] -> exec_at s = Some m -> whole m = s ->
  scan exec_at 0 [] s = [Matched m [] []].
Proof.
  destruct s as [|c s']; [congruence|]. intros _ Hm Hw.
  rewrite scan_0_cons, Hm, Hw. rewrite skipn_all. f_equal.
  rewrite scan_skip. cbn [length]. rewrite Nat.sub_succ, Nat.sub_0_r, skipn_all.
  reflexivity.
Qed.

(** ** The replacement template *)

Section Template.

Variable m : rmatch.
Variables a b c : str.
Hypothesis Hgroups : groups m = [a; b; c].

Lemma getSubstitution_plain (before after s t : str) :
  ~ In DOLLAR s ->
  getSubstitution m before after (s ++ t) = s ++ getSubstitution m before after t.
Proof.
  induction s as [|x s IH]; intros Hs; [reflexivity|].
  cbn [app getSubstitution].
  destruct (N.eqb_spec x DOLLAR) as [->|_]; [exfalso; apply Hs; now left|].
  cbn [negb]. rewrite IH; [reflexivity|]. intros H. apply Hs. now right.
Qed.

Lemma getSubstitution_group (before after t : str) (d : char) :
  In d [49; 50; 51]%N ->
  getSubstitution m before after (DOLLAR :: d :: t)
  = nth (digit_val d - 1) [a; b; c] [] ++ getSubstitution m before after t.
Proof.
  intros Hd.
  assert (Hcap : capture_or m (digit_val d) [DOLLAR; d]
                 = nth (digit_val d - 1) [a; b; c] []).
  { unfold capture_or. rewrite Hgroups.
    destruct Hd as [<-|[<-|[<-|[]]]]; reflexivity. }
  assert (Hstep : forall d2 t2,
    getSubstitution m before after (DOLLAR :: d :: d2 :: t2)
    = if is_digit d2
         && (10 * digit_val d + digit_val d2 <=? length (groups m))%nat
      then capture_or m (10 * digit_val d + digit_val d2) [DOLLAR; d; d2]
             ++ getSubstitution m before after t2
      else capture_or m (digit_val d) [DOLLAR; d]
             ++ getSubstitution m before after (d2 :: t2)).
  { intros d2 t2. destruct Hd as [<-|[<-|[<-|[]]]]; reflexivity. }
  destruct t as [|d2 t2].
  - rewrite <- Hcap. destruct Hd as [<-|[<-|[<-|[]]]]; cbn; now rewrite app_nil_r.
  - rewrite Hstep, Hgroups, Hcap.
    replace (10 * digit_val d + digit_val d2 <=? length [a; b; c])%nat with false.
    + now rewrite andb_false_r.
    + symmetry. apply Nat.leb_gt.
      destruct Hd as [<-|[<-|[<-|[]]]]; cbn [length]; unfold digit_val; simpl; lia.
Qed.

End Template.

Lemma lora_template_parts (colors : Colors) :
  lora_template colors
  = lit "&lt"
      ++ DOLLAR :: 49%N :: (COLON :: color_file colors)
      ++ DOLLAR :: 50%N :: (color_default colors ++ COLON :: color_int colors)
      ++ DOLLAR :: 51%N :: (color_default colors ++ lit "&gt") ++ [].
Proof.
  unfold lora_template. rewrite <- !app_assoc, app_nil_r. reflexivity.
Qed.

(** X10: a reference of three parts, [<a:b:c>], is shown with its
    second part in the file colour and its third part in the number
    colour, the brackets written as entities: the first two parts hold
    no colon, the third no greater-than sign, none a line terminator,
    and the colour fragments hold no dollar sign. *)
Theorem lora_display_three_parts (colors : Colors) (a b c : str) :
  ~ In DOLLAR (color_file colors) ->
  ~ In DOLLAR (color_default colors) ->
  ~ In DOLLAR (color_int colors) ->
  ~ In COLON a -> one_line a ->
  ~ In COLON b -> one_line b ->
  ~ In GT c -> one_line c ->
  lora_display colors (LT :: a ++ COLON :: b ++ COLON :: c ++ [GT])
  = lora_shown colors a b c.
Proof.
  intros Hf Hd Hi Ha La Hb Lb Hc Lc.
  unfold lora_display, replace_g.
  rewrite (scan_one_match exec_triple _ (triple_match a b c));
    [|discriminate|apply exec_triple_found; assumption|reflexivity].
  cbn [flat_map]. rewrite app_nil_r, lora_template_parts.
  rewrite (getSubstitution_plain (triple_match a b c)) by (simpl; intuition discriminate).
  rewrite (getSubstitution_group (triple_match a b c) a b c eq_refl)
    by (simpl; tauto).
  rewrite (getSubstitution_plain (triple_match a b c)).
  2:{ intros [H|H]; [discriminate H|now apply Hf]. }
  rewrite (getSubstitution_group (triple_match a b c) a b c eq_refl)
    by (simpl; tauto).
  rewrite (getSubstitution_plain (triple_match a b c)).
  2:{ intros H. apply in_app_or in H as [H|[H|H]];
        [now apply Hd|discriminate H|now apply Hi]. }
  rewrite (getSubstitution_group (triple_match a b c) a b c eq_refl)
    by (simpl; tauto).
  rewrite (getSubstitution_plain (triple_match a b c)).
  2:{ intros H. apply in_app_or in H as [H|H]; [now apply Hd|].
      simpl in H. intuition discriminate. }
  unfold lora_shown. cbn [getSubstitution digit_val nth].
  change (digit_val 49%N - 1)%nat with 0%nat.
  change (digit_val 50%N - 1)%nat with 1%nat.
  change (digit_val 51%N - 1)%nat with 2%nat.
  cbn [nth]. rewrite <- !app_assoc, !app_nil_r. reflexivity.
Qed.

Lemma lora_display_three_parts_witness :
  lora_display SpecBase.colors_spec (lit "<lora:bestlora:0.8>")
  = lit "&ltlora:[file]bestlora[/]:[int]0.8[/]&gt".
Proof.
  apply (lora_display_three_parts SpecBase.colors_spec
           (lit "lora") (lit "bestlora") (lit "0.8")).
  all: try (intros H; simpl in H; intuition discriminate).
  all: intros x H; simpl in H;
       repeat (destruct H as [<-|H]; [reflexivity|]); contradiction.
Defined.

(** X11: a text with fewer than two colons is shown as it is. *)
Theorem lora_display_few_colons (colors : Colors) (item : str) :
  (count_occ N.eq_dec item COLON < 2)%nat ->
  lora_display colors item = item.
Proof.
  intros Hfew. unfold lora_display, replace_g.
  rewrite scan_all_unmatched; [apply replace_unmatched|].
  intros u v ->. destruct (exec_triple v) as [m|] eqn:E; [|reflexivity].
  apply exec_triple_colons in E. rewrite count_occ_app in Hfew.
  unfold char in *. lia.
Qed.

Lemma lora_display_few_colons_witness :
  lora_display SpecBase.colors_spec (lit "<lyco:model>") = lit "<lyco:model>".
Proof.
  apply (lora_display_few_colons SpecBase.colors_spec (lit "<lyco:model>")).
  vm_compute. lia.
Defined.

End LoraDisplayFacts.

(* ================================================================== *)
(** * Reads of the buffer and directory entries *)
(* ================================================================== *)

Module BufferFacts.

Import Regex ForgeUI ImageUploader Spec Shapes StringFacts ExifFacts.

Local Open Scope Z_scope.

(** ** Reads inside and outside the buffer *)

Lemma getUint8_in (b : buffer) (off : Z) :
  0 <= off -> off + 1 <= byteLength b -> getUint8 b off = Ret (byte_at b off).
Proof.
  intros H0 H1. unfold getUint8.
  replace ((0 <=? off) && (off + 1 <=? byteLength b)) with true; [reflexivity|].
  symmetry. apply andb_true_iff. split; now apply Z.leb_le.
Qed.

Lemma getUint8_Ret (b : buffer) (off v : Z) :
  getUint8 b off = Ret v -> 0 <= off /\ off + 1 <= byteLength b.
Proof.
  unfold getUint8.
  destruct ((0 <=? off) && (off + 1 <=? byteLength b)) eqn:H; [|discriminate].
  intros _. apply andb_true_iff in H as [H0 H1]. split; now apply Z.leb_le.
Qed.

Lemma getUint8_Throw (b : buffer) (off : Z) (e : exn) :
  getUint8 b off = Throw e ->
  e = RangeError /\ (off < 0 \/ byteLength b < off + 1).
Proof.
  unfold getUint8.
  destruct ((0 <=? off) && (off + 1 <=? byteLength b)) eqn:H; [discriminate|].
  intros E. split; [congruence|].
  apply andb_false_iff in H as [H|H]; apply Z.leb_gt in H; lia.
Qed.

Lemma getUint16_Ret (b : buffer) (off v : Z) (le : bool) :
  getUint16 b off le = Ret v -> 0 <= off /\ off + 2 <= byteLength b.
Proof.
  unfold getUint16.
  destruct ((0 <=? off) && (off + 2 <=? byteLength b)) eqn:H; [|discriminate].
  intros _. apply andb_true_iff in H as [H0 H1]. split; now apply Z.leb_le.
Qed.

Lemma getUint16_Throw (b : buffer) (off : Z) (le : bool) (e : exn) :
  getUint16 b off le = Throw e ->
  e = RangeError /\ (off < 0 \/ byteLength b < off + 2).
Proof.
  unfold getUint16.
  destruct ((0 <=? off) && (off + 2 <=? byteLength b)) eqn:H; [discriminate|].
  intros E. split; [congruence|].
  apply andb_false_iff in H as [H|H]; apply Z.leb_gt in H; lia.
Qed.

Lemma getUint16_in (b : buffer) (off : Z) (le : bool) :
  0 <= off -> off + 2 <= byteLength b -> exists v, getUint16 b off le = Ret v.
Proof.
  intros H0 H1. unfold getUint16.
  replace ((0 <=? off) && (off + 2 <=? byteLength b)) with true;
    [eexists; reflexivity|].
  symmetry. apply andb_true_iff. split; now apply Z.leb_le.
Qed.

Lemma getUint32_Ret (b : buffer) (off v : Z) (le : bool) :
  getUint32 b off le = Ret v -> 0 <= off /\ off + 4 <= byteLength b.
Proof.
  unfold getUint32.
  destruct ((0 <=? off) && (off + 4 <=? byteLength b)) eqn:H; [|discriminate].
  intros _. apply andb_true_iff in H as [H0 H1]. split; now apply Z.leb_le.
Qed.

Lemma getUint32_Throw (b : buffer) (off : Z) (le : bool) (e : exn) :
  getUint32 b off le = Throw e ->
  e = RangeError /\ (off < 0 \/ byteLength b < off + 4).
Proof.
  unfold getUint32.
  destruct ((0 <=? off) && (off + 4 <=? byteLength b)) eqn:H; [discriminate|].
  intros E. split; [congruence|].
  apply andb_false_iff in H as [H|H]; apply Z.leb_gt in H; lia.
Qed.

Lemma getUint32_in (b : buffer) (off : Z) (le : bool) :
  0 <= off -> off + 4 <= byteLength b -> exists v, getUint32 b off le = Ret v.
Proof.
  intros H0 H1. unfold getUint32.
  replace ((0 <=? off) && (off + 4 <=? byteLength b)) with true;
    [eexists; reflexivity|].
  symmetry. apply andb_true_iff. split; now apply Z.leb_le.
Qed.

(** ** The characters [getStringFromDB] collects *)

Lemma skipn_nth_cons (A : Type) (d : A) (l : list A) :
  forall n, (n < length l)%nat -> skipn n l = nth n l d :: skipn (S n) l.
Proof.
  induction l as [|x l IH]; intros n Hn; [simpl in Hn; lia|].
  destruct n as [|n]; [reflexivity|].
  cbn [skipn nth]. rewrite (IH n) by (simpl in Hn; lia). reflexivity.
Qed.

Lemma getStringFromDB_from_in (b : buffer) (count : nat) :
  forall off,
    0 <= off -> off + Z.of_nat count <= byteLength b ->
    getStringFromDB_from b off count
    = Ret (List.map Byte.to_N (firstn count (skipn (Z.to_nat off) b))).
Proof.
  induction count as [|count IH]; intros off H0 H1; [reflexivity|].
  cbn [getStringFromDB_from].
  rewrite getUint8_in by lia. cbn [bind].
  rewrite IH by lia. cbn [bind]. f_equal.
  rewrite (skipn_nth_cons byte x00 b (Z.to_nat off))
    by (unfold byteLength in H1; lia).
  cbn [firstn List.map]. unfold byte_at. rewrite N2Z.id.
  replace (Z.to_nat (off + 1)) with (S (Z.to_nat off)) by lia. reflexivity.
Qed.

Lemma getStringFromDB_from_out (b : buffer) (count : nat) :
  forall off,
    (0 < count)%nat ->
    off < 0 \/ byteLength b < off + Z.of_nat count ->
    getStringFromDB_from b off count = Throw RangeError.
Proof.
  induction count as [|count IH]; intros off Hc Hout; [lia|].
  cbn [getStringFromDB_from].
  destruct (getUint8 b off) as [c|e] eqn:E.
  - apply getUint8_Ret in E. cbn [bind].
    rewrite IH; [reflexivity|lia|lia].
  - apply getUint8_Throw in E as [-> _]. reflexivity.
Qed.

Lemma getStringFromDB_from_Throw (b : buffer) (count : nat) :
  forall off e, getStringFromDB_from b off count = Throw e -> e = RangeError.
Proof.
  induction count as [|count IH]; intros off e; [discriminate|].
  cbn [getStringFromDB_from].
  destruct (getUint8 b off) as [c|e'] eqn:E.
  - cbn [bind]. destruct (getStringFromDB_from b (off + 1) count) as [s|e'] eqn:Hs.
    + discriminate.
    + cbn [bind]. intros H. injection H as <-. exact (IH _ _ Hs).
  - apply getUint8_Throw in E as [-> _]. cbn [bind]. congruence.
Qed.

Lemma getStringFromDB_from_bytes (b : buffer) (count : nat) :
  forall off s,
    getStringFromDB_from b off count = Ret s ->
    forall c, In c s -> (c < 256)%N.
Proof.
  induction count as [|count IH]; intros off s; cbn [getStringFromDB_from].
  - intros H; injection H as <-. intros c [].
  - destruct (getUint8 b off) as [x|] eqn:Hx; [|discriminate]. cbn [bind].
    destruct (getStringFromDB_from b (off + 1) count) as [t|] eqn:Ht;
      [|discriminate].
    cbn [bind]. intros H; injection H as <-. intros c [<-|Hc].
    + unfold getUint8 in Hx.
      destruct ((0 <=? off) && (off + 1 <=? byteLength b)); [|discriminate].
      assert (x = byte_at b off) by congruence. subst x.
      unfold byte_at. rewrite N2Z.id.
      pose proof (Byte.to_N_bounded (nth (Z.to_nat off) b x00)). lia.
    + exact (IH _ _ Ht c Hc).
Qed.

Lemma getStringFromDB_windows (b : buffer) (start len : Z) :
  (len <= 0 -> getStringFromDB b start len = Ret [])
  /\ (0 < len -> 0 <= start -> start + len <= byteLength b ->
      getStringFromDB b start len = Ret (window b start len))
  /\ (0 < len -> start < 0 \/ byteLength b < start + len ->
      getStringFromDB b start len = Throw RangeError).
Proof.
  unfold getStringFromDB. split; [|split].
  - intros Hlen. replace (Z.to_nat len) with 0%nat by lia. reflexivity.
  - intros Hlen H0 H1. apply getStringFromDB_from_in; lia.
  - intros Hlen Hout. apply getStringFromDB_from_out; lia.
Qed.

(** X12: [getStringFromDB] returns the empty string for a length below
    1; for a window inside the buffer it returns the bytes of the
    window as characters; for a window that leaves the buffer it throws
    a [RangeError].  A string it returns has as many characters as the
    length asks for, each of them below 256. *)
Theorem getStringFromDB_reads (b : buffer) (start len : Z) :
  (len <= 0 -> getStringFromDB b start len = Ret [])
  /\ (0 < len -> 0 <= start -> start + len <= byteLength b ->
      getStringFromDB b start len = Ret (window b start len))
  /\ (0 < len -> start < 0 \/ byteLength b < start + len ->
      getStringFromDB b start len = Throw RangeError)
  /\ (forall s,
         getStringFromDB b start len = Ret s ->
         Z.of_nat (length s) = Z.max 0 len
         /\ forall c, In c s -> (c < 256)%N).
Proof.
  destruct (getStringFromDB_windows b start len) as (Hempty & Hin & Hout).
  repeat split; try assumption.
  - destruct (Z.le_gt_cases len 0) as [Hlen|Hlen].
    + rewrite Hempty in H by exact Hlen. injection H as <-. simpl. lia.
    + destruct (Z.lt_ge_cases start 0) as [Hs|Hs];
        [rewrite Hout in H by lia; discriminate H|].
      destruct (Z.lt_ge_cases (byteLength b) (start + len)) as [Hb|Hb];
        [rewrite Hout in H by lia; discriminate H|].
      rewrite Hin in H by lia. injection H as <-.
      unfold window, byteLength in *.
      rewrite length_map, length_firstn, length_skipn. lia.
  - intros c Hc. exact (getStringFromDB_from_bytes b _ _ _ H c Hc).
Qed.

Lemma getStringFromDB_reads_witness :
  getStringFromDB (text "abcdef") 2 3 = Ret (window (text "abcdef") 2 3).
Proof.
  destruct (getStringFromDB_reads (text "abcdef") 2 3) as (_ & H & _ & _).
  apply H; [lia|lia|vm_compute; discriminate].
Defined.

(** ** Directory entries *)

(** What [readTagValue] returns for an entry whose fields are [type],
    [n] and [field]. *)
Lemma readTagValue_fields (file : buffer) (entryOffset tiffStart : Z)
    (bigEnd : bool) (type n field : Z) :
  getUint16 file (entryOffset + 2) (negb bigEnd) = Ret type ->
  getUint32 file (entryOffset + 4) (negb bigEnd) = Ret n ->
  getUint32 file (entryOffset + 8) (negb bigEnd) = Ret field ->
  readTagValue file entryOffset tiffStart bigEnd
  = if type =? 7 then
      if n <=? 8 then Ret (VStr [])
      else if (0 <=? field + tiffStart + 7)
              && (field + tiffStart + n - 1 <=? byteLength file)
           then Ret (VStr (window file (field + tiffStart + 7) (n - 8)))
           else Throw RangeError
    else if (type =? 4) && (n =? 1) then Ret (VNum field)
    else Ret VUndefined.
Proof.
  intros Ht Hn Hf. unfold readTagValue. rewrite Ht, Hn, Hf. cbn [bind].
  destruct (type =? 7).
  - destruct (Z.leb_spec n 8) as [Hle|Hgt].
    + destruct (getStringFromDB_windows file
                  ((if 4 <? n then field + tiffStart else entryOffset + 8) + 7)
                  (n - 8)) as (H & _ & _).
      rewrite H by lia. reflexivity.
    + replace (4 <? n) with true by (symmetry; apply Z.ltb_lt; lia).
      destruct (getStringFromDB_windows file (field + tiffStart + 7) (n - 8))
        as (_ & Hin & Hout).
      destruct ((0 <=? field + tiffStart + 7)
                && (field + tiffStart + n - 1 <=? byteLength file)) eqn:Hb.
      * apply andb_true_iff in Hb as [H0 H1].
        apply Z.leb_le in H0, H1. rewrite Hin by lia. reflexivity.
      * rewrite Hout; [reflexivity|lia|].
        apply andb_false_iff in Hb as [Hb|Hb]; apply Z.leb_gt in Hb; lia.
  - destruct (type =? 4); [|reflexivity].
    destruct (n =? 1); [|reflexivity]. cbn [andb bind]. reflexivity.
Qed.

(** X13: [readTagValue] reads the type, the count and the value field
    of a directory entry, the ten bytes from [entryOffset + 2] to
    [entryOffset + 11], and not the two bytes of the tag id before
    them.  When these ten bytes lie inside the buffer it decodes: a
    type 7 entry of at most 8 bytes to the empty string, whatever its
    value field holds; a longer type 7 entry to the [n - 8] bytes that
    start 7 bytes after [tiffStart] plus the value field, or to a
    [RangeError] when these leave the buffer; a type 4 entry of count 1
    to the number in its value field; every other entry to
    [undefined].  When one of the ten bytes lies outside the buffer it
    throws a [RangeError].  The two cases cover every offset: at
    [entryOffset] -1 and -2 the function still returns. *)
Theorem readTagValue_cases (file : buffer) (entryOffset tiffStart : Z)
    (bigEnd : bool) :
  (-2 <= entryOffset -> entryOffset + 12 <= byteLength file ->
   exists type n field,
     getUint16 file (entryOffset + 2) (negb bigEnd) = Ret type
     /\ getUint32 file (entryOffset + 4) (negb bigEnd) = Ret n
     /\ getUint32 file (entryOffset + 8) (negb bigEnd) = Ret field
     /\ readTagValue file entryOffset tiffStart bigEnd
        = if type =? 7 then
            if n <=? 8 then Ret (VStr [])
            else if (0 <=? field + tiffStart + 7)
                    && (field + tiffStart + n - 1 <=? byteLength file)
                 then Ret (VStr (window file (field + tiffStart + 7) (n - 8)))
                 else Throw RangeError
          else if (type =? 4) && (n =? 1) then Ret (VNum field)
          else Ret VUndefined)
  /\ (entryOffset < -2 \/ byteLength file < entryOffset + 12 ->
      readTagValue file entryOffset tiffStart bigEnd = Throw RangeError).
Proof.
  split.
  - intros H0 H1.
    destruct (getUint16_in file (entryOffset + 2) (negb bigEnd)) as [type Ht]; [lia|lia|].
    destruct (getUint32_in file (entryOffset + 4) (negb bigEnd)) as [n Hn]; [lia|lia|].
    destruct (getUint32_in file (entryOffset + 8) (negb bigEnd)) as [field Hf]; [lia|lia|].
    exists type, n, field. repeat split; try assumption.
    now apply readTagValue_fields.
  - intros Hout. unfold readTagValue.
    destruct (getUint16 file (entryOffset + 2) (negb bigEnd)) as [type|e] eqn:Ht;
      [|apply getUint16_Throw in Ht as [-> _]; reflexivity].
    destruct (getUint32 file (entryOffset + 4) (negb bigEnd)) as [n|e] eqn:Hn;
      [|apply getUint32_Throw in Hn as [-> _]; reflexivity].
    destruct (getUint32 file (entryOffset + 8) (negb bigEnd)) as [field|e] eqn:Hf;
      [|apply getUint32_Throw in Hf as [-> _]; reflexivity].
    apply getUint16_Ret in Ht. apply getUint32_Ret in Hf. lia.
Qed.

Lemma readTagValue_cases_witness :
  exists type n field,
    getUint16 jpeg_comment (40 + 2) (negb true) = Ret type
    /\ getUint32 jpeg_comment (40 + 4) (negb true) = Ret n
    /\ getUint32 jpeg_comment (40 + 8) (negb true) = Ret field
    /\ readTagValue jpeg_comment 40 12 true
       = if type =? 7 then
           if n <=? 8 then Ret (VStr [])
           else if (0 <=? field + 12 + 7)
                   && (field + 12 + n - 1 <=? byteLength jpeg_comment)
                then Ret (VStr (window jpeg_comment (field + 12 + 7) (n - 8)))
                else Throw RangeError
         else if (type =? 4) && (n =? 1) then Ret (VNum field)
         else Ret VUndefined.
Proof.
  destruct (readTagValue_cases jpeg_comment 40 12 true) as [H _].
  apply H; [lia|vm_compute; discriminate].
Defined.

(** ** Directories *)

Lemma readTagValue_Ret (file : buffer) (entryOffset tiffStart : Z)
    (bigEnd : bool) (v : jsvalue) :
  readTagValue file entryOffset tiffStart bigEnd = Ret v ->
  0 <= entryOffset + 2 /\ entryOffset + 12 <= byteLength file.
Proof.
  unfold readTagValue.
  destruct (getUint16 file (entryOffset + 2) (negb bigEnd)) as [type|] eqn:Ht;
    [|discriminate].
  destruct (getUint32 file (entryOffset + 4) (negb bigEnd)) as [n|]; [|discriminate].
  destruct (getUint32 file (entryOffset + 8) (negb bigEnd)) as [field|] eqn:Hf;
    [|discriminate].
  intros _. apply getUint16_Ret in Ht. apply getUint32_Ret in Hf. lia.
Qed.

Lemma readTagValue_Throw (file : buffer) (entryOffset tiffStart : Z)
    (bigEnd : bool) (e : exn) :
  readTagValue file entryOffset tiffStart bigEnd = Throw e -> e = RangeError.
Proof.
  unfold readTagValue.
  destruct (getUint16 file (entryOffset + 2) (negb bigEnd)) as [type|e'] eqn:Ht;
    [|apply getUint16_Throw in Ht as [-> _]; cbn [bind]; congruence].
  destruct (getUint32 file (entryOffset + 4) (negb bigEnd)) as [n|e'] eqn:Hn;
    [|apply getUint32_Throw in Hn as [-> _]; cbn [bind]; congruence].
  destruct (getUint32 file (entryOffset + 8) (negb bigEnd)) as [field|e'] eqn:Hf;
    [|apply getUint32_Throw in Hf as [-> _]; cbn [bind]; congruence].
  cbn [bind]. destruct (type =? 7).
  - unfold getStringFromDB.
    match goal with
    | |- context [getStringFromDB_from ?b ?o ?c] =>
        destruct (getStringFromDB_from b o c) as [s|e'] eqn:Hs
    end; cbn [bind]; [discriminate|].
    apply getStringFromDB_from_Throw in Hs. congruence.
  - destruct (type =? 4); [|discriminate].
    destruct (n =? 1); [|discriminate]. cbn [bind]. discriminate.
Qed.

Lemma obj_set_NoDup (A : Type) (o : object A) (k : str) (v : A) :
  NoDup (obj_keys o) -> NoDup (obj_keys (obj_set o k v)).
Proof.
  intros Ho. rewrite ReportFacts.obj_keys_set_cases.
  destruct (existsb (eqb_str k) (obj_keys o)) eqn:E; [exact Ho|].
  assert (Hk : ~ In k (obj_keys o)).
  { intros H. apply ReportFacts.existsb_eqb_str in H. congruence. }
  clear E. induction (obj_keys o) as [|x l IH]; simpl.
  - constructor; [intros []|constructor].
  - inversion Ho as [|x' l' Hx Hl]; subst. constructor.
    + rewrite in_app_iff. intros [H|[H|[]]]; [now apply Hx|].
      apply Hk. now left.
    + apply IH; [exact Hl|]. intros H. apply Hk. now right.
Qed.

Lemma obj_set_length (A : Type) (o : object A) (k : str) (v : A) :
  (length (obj_set o k v) <= S (length o))%nat.
Proof.
  induction o as [|[k' v'] o IH]; simpl; [lia|].
  destruct (eqb_str k' k); simpl; lia.
Qed.

Lemma readTags_from_Ret (file : buffer) (tiffStart dirStart : Z)
    (strings : tag_table) (bigEnd : bool) (count : nat) :
  forall i tags0 tags,
    readTags_from file tiffStart dirStart strings bigEnd i count tags0 = Ret tags ->
    (forall j, (j < count)%nat ->
       0 <= dirStart + (i + Z.of_nat j) * 12 + 2
       /\ dirStart + (i + Z.of_nat j) * 12 + 2 + 12 <= byteLength file)
    /\ (NoDup (obj_keys tags0) -> NoDup (obj_keys tags))
    /\ (length tags <= length tags0 + count)%nat.
Proof.
  induction count as [|count IH]; intros i tags0 tags.
  - intros H; injection H as <-. repeat split; try tauto; try lia.
  - rewrite readTags_from_unfold.
    destruct (getUint16 file (dirStart + i * 12 + 2) (negb bigEnd)) as [id|] eqn:Hid;
      [|discriminate].
    destruct (readTagValue file (dirStart + i * 12 + 2) tiffStart bigEnd) as [v|] eqn:Hv;
      [|discriminate].
    cbn [bind]. intros H. destruct (IH _ _ _ H) as (Hin & Hnd & Hlen).
    apply getUint16_Ret in Hid. apply readTagValue_Ret in Hv.
    split; [|split].
    + intros [|j] Hj.
      * rewrite Z.add_0_r. lia.
      * specialize (Hin j ltac:(lia)).
        replace (i + Z.of_nat (S j)) with (i + 1 + Z.of_nat j) by lia. exact Hin.
    + intros H0. apply Hnd. now apply obj_set_NoDup.
    + pose proof (obj_set_length jsvalue tags0
                    (tag_key (lookup_tag strings id)) v). lia.
Qed.

Lemma readTags_from_Throw (file : buffer) (tiffStart dirStart : Z)
    (strings : tag_table) (bigEnd : bool) (count : nat) :
  forall i tags0 e,
    readTags_from file tiffStart dirStart strings bigEnd i count tags0 = Throw e ->
    e = RangeError.
Proof.
  induction count as [|count IH]; intros i tags0 e; [discriminate|].
  rewrite readTags_from_unfold.
  destruct (getUint16 file (dirStart + i * 12 + 2) (negb bigEnd)) as [id|e'] eqn:Hid;
    [|apply getUint16_Throw in Hid as [-> _]; cbn [bind]; congruence].
  destruct (readTagValue file (dirStart + i * 12 + 2) tiffStart bigEnd) as [v|e'] eqn:Hv;
    [|apply readTagValue_Throw in Hv as ->; cbn [bind]; congruence].
  cbn [bind]. apply IH.
Qed.

(** X14: when [readTags] returns, the directory it was pointed at lies
    inside the buffer with all the entries its first two bytes
    announce; the mapping has no more keys than the directory has
    entries, no key twice, and every key is a name of the table or the
    property name [undefined].  When it throws, it throws a
    [RangeError]. *)
Theorem readTags_directory (file : buffer) (tiffStart dirStart : Z)
    (strings : tag_table) (bigEnd : bool) :
  (forall tags,
      readTags file tiffStart dirStart strings bigEnd = Ret tags ->
      exists entries,
        getUint16 file dirStart (negb bigEnd) = Ret entries
        /\ 0 <= dirStart
        /\ dirStart + 2 + 12 * entries <= byteLength file
        /\ Z.of_nat (length tags) <= entries
        /\ NoDup (obj_keys tags)
        /\ forall k, In k (obj_keys tags) ->
             k = lit "undefined" \/ exists id, lookup_tag strings id = Some k)
  /\ (forall e,
         readTags file tiffStart dirStart strings bigEnd = Throw e ->
         e = RangeError).
Proof.
  unfold readTags. split.
  - intros tags.
    destruct (getUint16 file dirStart (negb bigEnd)) as [entries|] eqn:He;
      [|discriminate].
    cbn [bind]. intros H. exists entries.
    pose proof (getUint16_nonneg _ _ _ _ He) as Hpos.
    pose proof (getUint16_Ret _ _ _ _ He) as [H0 H2].
    destruct (readTags_from_Ret _ _ _ _ _ _ _ _ _ H) as (Hin & Hnd & Hlen).
    repeat split; try assumption.
    + destruct (Z.to_nat entries) as [|k] eqn:Hk; [lia|].
      specialize (Hin k ltac:(lia)). lia.
    + simpl in Hlen. lia.
    + apply Hnd. constructor.
    + intros k Hk.
      destruct (readTags_from_keys _ _ _ _ _ _ _ _ _ H k Hk) as [[]|Hk']. exact Hk'.
  - intros e.
    destruct (getUint16 file dirStart (negb bigEnd)) as [entries|e'] eqn:He.
    + cbn [bind]. apply readTags_from_Throw.
    + apply getUint16_Throw in He as [-> _]. cbn [bind]. congruence.
Qed.

Lemma readTags_directory_witness :
  exists entries,
    getUint16 jpeg_comment_colorspace 38 (negb true) = Ret entries
    /\ 0 <= 38
    /\ 38 + 2 + 12 * entries <= byteLength jpeg_comment_colorspace
    /\ Z.of_nat (length [ (lit "UserComment", VStr ([0%N] ++ lit "ab"));
                          (lit "undefined", VUndefined) ]) <= entries
    /\ NoDup (obj_keys [ (lit "UserComment", VStr ([0%N] ++ lit "ab"));
                         (lit "undefined", VUndefined) ])
    /\ forall k, In k (obj_keys [ (lit "UserComment", VStr ([0%N] ++ lit "ab"));
                                  (lit "undefined", VUndefined) ]) ->
         k = lit "undefined" \/ exists id, lookup_tag ExifTags id = Some k.
Proof.
  destruct (readTags_directory jpeg_comment_colorspace 12 38 ExifTags true)
    as [H _].
  apply H. vm_compute. reflexivity.
Defined.

(** An entry that starts two bytes before the buffer: the bytes of its
    tag id are not read, and the value is returned. *)
Example readTagValue_before_buffer :
  readTagValue (bytes [0; 4;  0; 0; 0; 1;  0; 0; 0; 5]%N) (-2) 0 true
  = Ret (VNum 5)
  /\ readTagValue (bytes [0; 4;  0; 0; 0; 1;  0; 0; 0; 5]%N) (-3) 0 true
     = Throw RangeError.
Proof. split; reflexivity. Qed.

End BufferFacts.

(* ================================================================== *)
(** * The dispatcher and the EXIF path: further properties *)
(* ================================================================== *)

Module DispatchFacts.

Import Regex ForgeUI ImageUploader Spec Shapes StringFacts RunFacts ExifFacts.

Local Open Scope Z_scope.

Section Dispatch.

Context {base : BaseFormat}.
Variable colors : Colors.

Lemma parse_nonempty (raw : jsvalue) (output : object str) :
  ForgeUI.parse colors raw = Ret output -> output <> [].
Proof.
  assert (H : forall s, _output (run colors s) <> []).
  { intros s. rewrite ReportFacts.output_split, ReportFacts.report_head_entries.
    discriminate. }
  destruct raw as [|n|s]; unfold parse; intros E; [|discriminate E|].
  - replace output with (_output (run colors [])) by congruence. apply H.
  - replace output with (_output (run colors s)) by congruence. apply H.
Qed.

Lemma parse_cases (raw : jsvalue) :
  truthy raw = true ->
  (exists s, s <> [] /\ raw = VStr s
             /\ ForgeUI.parse colors raw = Ret (_output (run colors s)))
  \/ (exists n, raw = VNum n /\ ForgeUI.parse colors raw = Throw TypeError).
Proof.
  destruct raw as [|n|s]; intros H; [discriminate H| |].
  - right. now exists n.
  - left. exists s. repeat split. intros ->. discriminate H.
Qed.

Section Parsers.

Variable comfy_parse : jsvalue -> outcome (object str).

Abbreviation parceMetadata := (parceMetadata colors comfy_parse).

Lemma parceMetadata_nonempty (metadata : option (object jsvalue)) :
  (forall raw output, comfy_parse raw = Ret output -> output <> []) ->
  snd (parceMetadata metadata) <> [].
Proof.
  intros Hcomfy. unfold ImageUploader.parceMetadata. cbv zeta.
  set (parameters := metadata_field metadata (lit "parameters")).
  set (prompt := metadata_field metadata (lit "prompt")).
  destruct (truthy parameters).
  - destruct (ForgeUI.parse colors parameters) as [output|e] eqn:Hparse.
    + cbn [snd]. exact (parse_nonempty _ _ Hparse).
    + destruct (truthy prompt).
      * destruct (comfy_parse prompt) as [output|e'] eqn:Hc.
        -- cbn [snd]. exact (Hcomfy _ _ Hc).
        -- discriminate.
      * discriminate.
  - destruct (truthy prompt).
    + destruct (comfy_parse prompt) as [output|e'] eqn:Hc.
      * cbn [snd]. exact (Hcomfy _ _ Hc).
      * discriminate.
    + discriminate.
Qed.

(** X15: what [parceMetadata] reports when a parser throws.  When the
    parse of [parameters] throws and there is no usable [prompt], the
    report is the one [Error] entry for the parameters section.  When
    the parse of [prompt] throws, the report is the one [Error] entry
    for the prompt section, also when the parse of [parameters] has
    thrown before.  When the parse of [prompt] returns, after
    [parameters] was missing or its parse has thrown, its output is the
    report.  The report is never empty unless the parser of the prompt
    flavour returns an empty one. *)
Theorem parceMetadata_errors (metadata : option (object jsvalue)) :
  let parameters := metadata_field metadata (lit "parameters") in
  let prompt := metadata_field metadata (lit "prompt") in
  let forge_out :=
    truthy parameters = false
    \/ exists e, ForgeUI.parse colors parameters = Throw e in
  (forall e,
      truthy parameters = true -> ForgeUI.parse colors parameters = Throw e ->
      truthy prompt = false ->
      parceMetadata metadata = ([ForgeCalled parameters], parameters_failed))
  /\ (forall e,
         forge_out -> truthy prompt = true -> comfy_parse prompt = Throw e ->
         snd (parceMetadata metadata) = prompt_failed
         /\ In (ComfyCalled prompt) (fst (parceMetadata metadata)))
  /\ (forall output,
         forge_out -> truthy prompt = true -> comfy_parse prompt = Ret output ->
         snd (parceMetadata metadata) = output)
  /\ ((forall raw output, comfy_parse raw = Ret output -> output <> []) ->
      snd (parceMetadata metadata) <> []).
Proof.
  cbv zeta. unfold ImageUploader.parceMetadata. cbv zeta.
  set (parameters := metadata_field metadata (lit "parameters")).
  set (prompt := metadata_field metadata (lit "prompt")).
  split; [|split; [|split]].
  - intros e Hp Hparse Hq. rewrite Hp, Hparse, Hq. reflexivity.
  - intros e Hforge Hq Hcomfy. rewrite Hq, Hcomfy.
    destruct Hforge as [Hp|[e' Hparse]].
    + rewrite Hp. split; [reflexivity|now left].
    + destruct (truthy parameters).
      * rewrite Hparse. split; [reflexivity|right; now left].
      * split; [reflexivity|now left].
  - intros output Hforge Hq Hcomfy. rewrite Hq, Hcomfy.
    destruct Hforge as [Hp|[e' Hparse]].
    + now rewrite Hp.
    + destruct (truthy parameters); [now rewrite Hparse|reflexivity].
  - exact (parceMetadata_nonempty metadata).
Qed.

Variable getFromPngBuffer : buffer -> outcome (option (object jsvalue)).
Variable readTags_at_string : buffer -> Z -> str -> bool -> outcome (object jsvalue).

Abbreviation readMetadata :=
  (readMetadata colors comfy_parse getFromPngBuffer readTags_at_string).

(** X21: what [readMetadata] returns and shows.  For a PNG file it
    returns the report of [parceMetadata] on what the host's reader
    found and shows no toast; when that reader throws it returns the
    empty mapping and shows the toast.  For a file of another type than
    PNG and JPEG it returns the empty mapping.  It never shows more
    than the one toast, and with the toast the mapping is empty.  For a
    PNG file the mapping is empty only with the toast, unless the parser
    of the prompt flavour returns an empty report. *)
Theorem readMetadata_contract (ty : file_type) (data : buffer) :
  (forall metadata,
      getFromPngBuffer data = Ret metadata ->
      readMetadata ImagePng data = Ret ([], snd (parceMetadata metadata)))
  /\ (forall e,
         getFromPngBuffer data = Throw e ->
         readMetadata ImagePng data = Ret ([readMetadata_toast], []))
  /\ readMetadata OtherType data = Ret ([], [])
  /\ (forall toasts mapping,
         readMetadata ty data = Ret (toasts, mapping) ->
         toasts = [] \/ (toasts = [readMetadata_toast] /\ mapping = []))
  /\ ((forall raw output, comfy_parse raw = Ret output -> output <> []) ->
      forall toasts mapping,
        readMetadata ImagePng data = Ret (toasts, mapping) ->
        (mapping = [] <-> toasts = [readMetadata_toast])).
Proof.
  assert (Hpng : forall metadata,
             getFromPngBuffer data = Ret metadata ->
             readMetadata ImagePng data = Ret ([], snd (parceMetadata metadata))).
  { intros metadata H. unfold ImageUploader.readMetadata, readPNGMetadata.
    now rewrite H. }
  assert (Hthrow : forall e,
             getFromPngBuffer data = Throw e ->
             readMetadata ImagePng data = Ret ([readMetadata_toast], [])).
  { intros e H. unfold ImageUploader.readMetadata, readPNGMetadata.
    now rewrite H. }
  split; [exact Hpng|]. split; [exact Hthrow|]. split; [reflexivity|]. split.
  - intros toasts mapping. unfold ImageUploader.readMetadata. destruct ty.
    + destruct (readPNGMetadata colors comfy_parse getFromPngBuffer data);
        cbn [bind try_catch]; intros H; injection H as <- <-; [now left|now right].
    + destruct (ImageUploader.readEXIFMetadata colors comfy_parse
                  readTags_at_string data);
        cbn [bind try_catch]; intros H; injection H as <- <-; [now left|now right].
    + cbn [try_catch]. intros H; injection H as <- <-. now left.
  - intros Hcomfy toasts mapping.
    destruct (getFromPngBuffer data) as [metadata|e] eqn:Hg.
    + rewrite (Hpng metadata eq_refl). intros H. injection H as <- <-.
      split; [|discriminate]. intros E.
      now apply (parceMetadata_nonempty metadata Hcomfy) in E.
    + rewrite (Hthrow e eq_refl). intros H. injection H as <- <-.
      split; reflexivity.
Qed.

End Parsers.

(** ** The EXIF path *)

(** The mapping handed to [parceMetadata] on the EXIF path is empty or
    has the one key [parameters]. *)
Lemma copy_to_parameters_shape (exifData : object jsvalue) :
  copy_to_parameters exifData [] = []
  \/ exists v, copy_to_parameters exifData [] = [(lit "parameters", v)].
Proof.
  unfold copy_to_parameters.
  assert (H : forall ks tags,
             (tags = [] \/ exists v, tags = [(lit "parameters", v)]) ->
             let r := fold_left
                        (fun tags tag =>
                           obj_set tags (lit "parameters") (prop exifData tag))
                        ks tags in
             r = [] \/ exists v, r = [(lit "parameters", v)]).
  { induction ks as [|k ks IH]; intros tags Ht; [exact Ht|].
    cbn [fold_left]. apply IH. right.
    destruct Ht as [->|[v ->]]; eexists; reflexivity. }
  apply (H (obj_keys exifData) []). now left.
Qed.

Lemma parceMetadata_exif (comfy_parse : jsvalue -> outcome (object str))
    (exifData : object jsvalue) :
  snd (parceMetadata colors comfy_parse (Some (copy_to_parameters exifData [])))
  = exif_report colors (copy_to_parameters exifData [])
  /\ forall raw,
       ~ In (ComfyCalled raw)
           (fst (parceMetadata colors comfy_parse
                   (Some (copy_to_parameters exifData [])))).
Proof.
  destruct (copy_to_parameters_shape exifData) as [->|[v ->]].
  - split; [reflexivity|]. intros raw [].
  - destruct v as [|n|[|c s]]; unfold exif_report.
    + split; [reflexivity|]. intros raw [].
    + unfold parceMetadata. cbv zeta.
      change (metadata_field (Some [(lit "parameters", VNum n)]) (lit "parameters"))
        with (VNum n).
      change (metadata_field (Some [(lit "parameters", VNum n)]) (lit "prompt"))
        with VUndefined.
      change (prop [(lit "parameters", VNum n)] (lit "parameters")) with (VNum n).
      cbn [truthy]. destruct (n =? 0)%Z; cbn [negb].
      * split; [reflexivity|]. intros raw [].
      * split; [reflexivity|]. intros raw [H|[]]. discriminate H.
    + split; [reflexivity|]. intros raw [].
    + split; [reflexivity|]. intros raw [H|[]]. discriminate H.
Qed.

Section Path.

Variable readTags_at_string : buffer -> Z -> str -> bool -> outcome (object jsvalue).

Variables comfy1 comfy2 : jsvalue -> outcome (object str).

Lemma readEXIFData_same (file : buffer) (start : Z) :
  same_result colors comfy1 comfy2
    (readEXIFData colors comfy1 readTags_at_string file start)
    (readEXIFData colors comfy2 readTags_at_string file start).
Proof.
  unfold readEXIFData.
  destruct (getStringFromDB file start 4) as [magic|e]; cbn [bind]; [|constructor].
  destruct (negb (eqb_str magic (lit "Exif"))); [constructor|].
  destruct (getUint16 file (start + 6) false) as [order|e]; cbn [bind]; [|constructor].
  destruct (negb ((order =? 18761) || (order =? 19789))); [constructor|].
  destruct (getUint16 file (start + 6 + 2) (negb (negb (order =? 18761))))
    as [magic42|e]; cbn [bind]; [|constructor].
  destruct (negb (magic42 =? 42)); [constructor|].
  destruct (getUint32 file (start + 6 + 4) (negb (negb (order =? 18761))))
    as [firstIFDOffset|e]; cbn [bind]; [|constructor].
  destruct (firstIFDOffset <? 8); [constructor|].
  destruct (readTags file (start + 6) (start + 6 + firstIFDOffset) TiffTags
              (negb (order =? 18761))) as [tiff|e]; cbn [bind]; [|constructor].
  destruct (truthy (prop tiff (lit "ExifIFDPointer"))).
  - destruct (prop tiff (lit "ExifIFDPointer")) as [|p|s].
    + cbn [bind]. apply (same_report colors comfy1 comfy2 []).
    + destruct (readTags file (start + 6) (start + 6 + p) ExifTags
                  (negb (order =? 18761))) as [exifData|e]; cbn [bind];
        [apply same_report|constructor].
    + destruct (readTags_at_string file (start + 6) s (negb (order =? 18761)))
        as [exifData|e]; cbn [bind]; [apply same_report|constructor].
  - cbn [bind]. apply (same_report colors comfy1 comfy2 []).
Qed.

Lemma run_turns_same (n : nat) (dataView : buffer) :
  forall offset,
    match run_turns colors comfy1 readTags_at_string n dataView offset,
          run_turns colors comfy2 readTags_at_string n dataView offset with
    | Some r1, Some r2 => same_result colors comfy1 comfy2 r1 r2
    | None, None => True
    | _, _ => False
    end.
Proof.
  induction n as [|n IH]; intros offset; cbn [run_turns].
  - destruct (offset <? byteLength dataView); [exact I|constructor].
  - destruct (offset <? byteLength dataView); [|constructor].
    unfold segment_turn.
    destruct (getUint8 dataView offset) as [ff|e]; [|constructor].
    destruct (negb (ff =? 255)); [constructor|].
    destruct (getUint8 dataView (offset + 1)) as [marker|e]; [|constructor].
    destruct (marker =? 225).
    + destruct (getUint16 dataView (offset + 2) false) as [len|e]; [|constructor].
      apply readEXIFData_same.
    + destruct (getUint16 dataView (offset + 2) false) as [len|e]; [|constructor].
      apply IH.
Qed.

Lemma readEXIFMetadata_same (data : buffer) :
  same_result colors comfy1 comfy2
    (readEXIFMetadata colors comfy1 readTags_at_string data)
    (readEXIFMetadata colors comfy2 readTags_at_string data).
Proof.
  unfold readEXIFMetadata.
  destruct (getUint8 data 0) as [b0|e]; cbn [bind]; [|constructor].
  destruct (negb (b0 =? 255)); [constructor|].
  destruct (getUint8 data 1) as [b1|e]; cbn [bind]; [|constructor].
  destruct (negb (b1 =? 216)); [constructor|].
  pose proof (run_turns_same (length data) data 2) as H.
  rewrite !run_turns_enough in H by (unfold byteLength; lia). exact H.
Qed.

End Path.

Lemma readEXIFMetadata_report
    (readTags_at_string : buffer -> Z -> str -> bool -> outcome (object jsvalue))
    (comfy_parse : jsvalue -> outcome (object str)) (data : buffer)
    (report : object str) :
  readEXIFMetadata colors comfy_parse readTags_at_string data
  = Ret (EReport report) ->
  report <> []
  /\ ((exists s, s <> [] /\ report = _output (run colors s))
      \/ report = parameters_failed
      \/ report = no_sections).
Proof.
  intros Hr.
  pose proof (readEXIFMetadata_same readTags_at_string comfy_parse comfy_parse data)
    as Hsame.
  rewrite Hr in Hsame.
  assert (Hex : exists exifData,
             report = snd (parceMetadata colors comfy_parse
                             (Some (copy_to_parameters exifData [])))).
  { inversion Hsame. eexists. reflexivity. }
  destruct Hex as [exifData ->].
  destruct (parceMetadata_exif comfy_parse exifData) as [-> _].
  unfold exif_report.
  destruct (prop (copy_to_parameters exifData []) (lit "parameters")) as [|n|[|c s]].
  - split; [discriminate|]. right; now right.
  - destruct (n =? 0)%Z; (split; [discriminate|]); right; [now right|now left].
  - split; [discriminate|]. right; now right.
  - split.
    + rewrite ReportFacts.output_split, ReportFacts.report_head_entries.
      discriminate.
    + left. exists (c :: s). split; [discriminate|reflexivity].
Qed.

(** X16: on the EXIF path the parser of the prompt flavour is never
    started: what [readEXIFMetadata] returns does not depend on it.  A
    report it returns is the Forge report of a non-empty string, or the
    one [Error] entry for the parameters section (the tag that is
    reported held a number other than 0), or the one [Error] entry that
    nothing was found; it is never empty. *)
Theorem readEXIFMetadata_forge_only
    (readTags_at_string : buffer -> Z -> str -> bool -> outcome (object jsvalue))
    (comfy_parse : jsvalue -> outcome (object str)) (data : buffer) :
  (forall comfy_parse',
      readEXIFMetadata colors comfy_parse' readTags_at_string data
      = readEXIFMetadata colors comfy_parse readTags_at_string data)
  /\ (forall report,
         readEXIFMetadata colors comfy_parse readTags_at_string data
         = Ret (EReport report) ->
         report <> []
         /\ ((exists s, s <> [] /\ report = _output (run colors s))
             \/ report = parameters_failed
             \/ report = no_sections)).
Proof.
  split.
  - intros comfy'.
    destruct (readEXIFMetadata_same readTags_at_string comfy' comfy_parse data)
      as [| |e|exifData]; try reflexivity.
    destruct (parceMetadata_exif comfy' exifData) as [-> _].
    destruct (parceMetadata_exif comfy_parse exifData) as [-> _]. reflexivity.
  - intros report. apply readEXIFMetadata_report.
Qed.

End Dispatch.

Import SpecBase.

Lemma parceMetadata_errors_witness :
  parceMetadata colors_spec no_comfy (Some [(lit "parameters", VNum 5)])
  = ([ForgeCalled (VNum 5)], parameters_failed).
Proof.
  destruct (@parceMetadata_errors base_spec colors_spec no_comfy
              (Some [(lit "parameters", VNum 5)])) as [H _].
  apply (H TypeError); reflexivity.
Defined.

Lemma readMetadata_contract_witness :
  ImageUploader.readMetadata colors_spec no_comfy
    (fun _ => Ret (Some [(lit "parameters", VStr (lit "a cat"))]))
    no_string_offsets ImagePng []
  = Ret ([], snd (parceMetadata colors_spec no_comfy
                    (Some [(lit "parameters", VStr (lit "a cat"))]))).
Proof.
  destruct (@readMetadata_contract base_spec colors_spec no_comfy
              (fun _ => Ret (Some [(lit "parameters", VStr (lit "a cat"))]))
              no_string_offsets ImagePng []) as [H _].
  apply H. reflexivity.
Defined.

Lemma readEXIFMetadata_forge_only_witness :
  [(lit "Prompt:<br>", [0%N] ++ lit "ab")] <> []
  /\ ((exists s, s <> []
                 /\ [(lit "Prompt:<br>", [0%N] ++ lit "ab")]
                    = _output (run colors_spec s))
      \/ [(lit "Prompt:<br>", [0%N] ++ lit "ab")] = parameters_failed
      \/ [(lit "Prompt:<br>", [0%N] ++ lit "ab")] = no_sections).
Proof.
  destruct (@readEXIFMetadata_forge_only base_spec colors_spec no_string_offsets
              no_comfy jpeg_comment) as [_ H].
  apply H. vm_compute. reflexivity.
Defined.

End DispatchFacts.

(* ================================================================== *)
(** * A JPEG file with a user comment, from the first byte to the report *)
(* ================================================================== *)

Module ExifFileFacts.

Import Regex ForgeUI ImageUploader Spec Shapes StringFacts ExifFacts BufferFacts.

Local Open Scope Z_scope.

(** ** Reads in the first part of a buffer *)

Lemma byteLength_app (a b : buffer) :
  byteLength (a ++ b) = byteLength a + byteLength b.
Proof. unfold byteLength. rewrite length_app. lia. Qed.

Lemma byte_at_app_l (a b : buffer) (off : Z) :
  0 <= off -> off + 1 <= byteLength a -> byte_at (a ++ b) off = byte_at a off.
Proof.
  intros H0 H1. unfold byte_at. rewrite app_nth1; [reflexivity|].
  unfold byteLength in H1. lia.
Qed.

Lemma inside_app_l (a b : buffer) (off w : Z) :
  0 <= off -> off + w <= byteLength a ->
  (0 <=? off) && (off + w <=? byteLength (a ++ b)) = true
  /\ (0 <=? off) && (off + w <=? byteLength a) = true.
Proof.
  intros H0 H1. rewrite byteLength_app.
  assert (0 <= byteLength b) by (unfold byteLength; lia).
  split; apply andb_true_iff; split; apply Z.leb_le; lia.
Qed.

Lemma getUint8_app_l (a b : buffer) (off : Z) :
  0 <= off -> off + 1 <= byteLength a ->
  getUint8 (a ++ b) off = getUint8 a off.
Proof.
  intros H0 H1. unfold getUint8.
  destruct (inside_app_l a b off 1 H0 H1) as [-> ->].
  now rewrite byte_at_app_l.
Qed.

Lemma getUint16_app_l (a b : buffer) (off : Z) (le : bool) :
  0 <= off -> off + 2 <= byteLength a ->
  getUint16 (a ++ b) off le = getUint16 a off le.
Proof.
  intros H0 H1. unfold getUint16.
  destruct (inside_app_l a b off 2 H0 H1) as [-> ->].
  rewrite !byte_at_app_l by lia. reflexivity.
Qed.

Lemma getUint32_app_l (a b : buffer) (off : Z) (le : bool) :
  0 <= off -> off + 4 <= byteLength a ->
  getUint32 (a ++ b) off le = getUint32 a off le.
Proof.
  intros H0 H1. unfold getUint32.
  destruct (inside_app_l a b off 4 H0 H1) as [-> ->].
  rewrite !byte_at_app_l by lia. reflexivity.
Qed.

Lemma getStringFromDB_app_l (a b : buffer) (start len : Z) :
  0 <= start -> 0 <= len -> start + len <= byteLength a ->
  getStringFromDB (a ++ b) start len = getStringFromDB a start len.
Proof.
  intros H0 Hl H1. unfold getStringFromDB.
  assert (0 <= byteLength b) by (unfold byteLength; lia).
  rewrite !getStringFromDB_from_in by (rewrite ?byteLength_app; lia).
  do 2 f_equal. rewrite skipn_app, firstn_app.
  replace (Z.to_nat len - length (skipn (Z.to_nat start) a))%nat with 0%nat.
  - cbn [firstn]. now rewrite app_nil_r.
  - rewrite length_skipn. unfold byteLength in H1. lia.
Qed.

Lemma window_app_r (a b : buffer) (start len : Z) :
  0 <= start ->
  window (a ++ b) (byteLength a + start) len = window b start len.
Proof.
  intros H0. unfold window, byteLength. do 2 f_equal.
  rewrite skipn_app.
  replace (Z.to_nat (Z.of_nat (length a) + start) - length a)%nat
    with (Z.to_nat start) by lia.
  rewrite skipn_all2 by lia. reflexivity.
Qed.

(** ** The file *)

Section File.

Context {base : BaseFormat}.
Variable colors : Colors.
Variable comfy_parse : jsvalue -> outcome (object str).
Variable getFromPngBuffer : buffer -> outcome (option (object jsvalue)).
Variable readTags_at_string : buffer -> Z -> str -> bool -> outcome (object jsvalue).

Variables len_hi len_lo c3 c2 c1 c0 : byte.
Variable data : buffer.

Abbreviation header := (user_comment_header len_hi len_lo c3 c2 c1 c0).
Abbreviation file := (jpeg_user_comment len_hi len_lo c3 c2 c1 c0 data).

Lemma header_length : byteLength header = 56.
Proof. reflexivity. Qed.

Lemma file_length : byteLength file = 56 + byteLength data.
Proof. unfold jpeg_user_comment. now rewrite byteLength_app, header_length. Qed.

Ltac in_header :=
  unfold jpeg_user_comment;
  first [ rewrite getUint8_app_l by (rewrite ?header_length; lia)
        | rewrite getUint16_app_l by (rewrite ?header_length; lia)
        | rewrite getUint32_app_l by (rewrite ?header_length; lia)
        | rewrite getStringFromDB_app_l by (rewrite ?header_length; lia) ];
  vm_compute; reflexivity.

Lemma file_soi_0 : getUint8 file 0 = Ret 0xFF.
Proof. in_header. Qed.

Lemma file_soi_1 : getUint8 file 1 = Ret 0xD8.
Proof. in_header. Qed.

Lemma file_marker_2 : getUint8 file 2 = Ret 0xFF.
Proof. in_header. Qed.

Lemma file_marker_3 : getUint8 file 3 = Ret 225.
Proof. in_header. Qed.

Lemma file_segment_length :
  getUint16 file 4 false
  = Ret (256 * Z.of_N (Byte.to_N len_hi) + Z.of_N (Byte.to_N len_lo)).
Proof. in_header. Qed.

Lemma file_magic : getStringFromDB file 6 4 = Ret (lit "Exif").
Proof. in_header. Qed.

Lemma file_order : getUint16 file 12 false = Ret 0x4D4D.
Proof. in_header. Qed.

Lemma file_42 : getUint16 file 14 false = Ret 42.
Proof. in_header. Qed.

Lemma file_first_ifd : getUint32 file 16 false = Ret 8.
Proof. in_header. Qed.

Lemma file_root_entries : getUint16 file 20 false = Ret 1.
Proof. in_header. Qed.

Lemma file_root_id : getUint16 file 22 false = Ret 0x8769.
Proof. in_header. Qed.

Lemma file_root_type : getUint16 file 24 false = Ret 4.
Proof. in_header. Qed.

Lemma file_root_count : getUint32 file 26 false = Ret 1.
Proof. in_header. Qed.

Lemma file_root_value : getUint32 file 30 false = Ret 26.
Proof. in_header. Qed.

Lemma file_exif_entries : getUint16 file 38 false = Ret 1.
Proof. in_header. Qed.

Lemma file_exif_id : getUint16 file 40 false = Ret 0x9286.
Proof. in_header. Qed.

Lemma file_exif_type : getUint16 file 42 false = Ret 7.
Proof. in_header. Qed.

Lemma file_exif_count : getUint32 file 44 false = Ret (be32 c3 c2 c1 c0).
Proof. in_header. Qed.

Lemma file_exif_value : getUint32 file 48 false = Ret 44.
Proof. in_header. Qed.

(** ** The two directories *)

Lemma file_root_tags :
  readTags file 12 20 TiffTags true = Ret [(lit "ExifIFDPointer", VNum 26)].
Proof.
  unfold readTags. change (negb true) with false.
  rewrite file_root_entries. cbn [bind]. change (Z.to_nat 1) with 1%nat.
  rewrite readTags_from_unfold. change (negb true) with false.
  change (20 + 0 * 12 + 2) with 22.
  rewrite file_root_id. cbn [bind].
  rewrite (readTagValue_fields file 22 12 true 4 1 26
             file_root_type file_root_count file_root_value).
  reflexivity.
Qed.

Lemma file_exif_tags :
  readTags file 12 38 ExifTags true
  = (v <- readTagValue file 40 12 true ;; Ret [(lit "UserComment", v)]).
Proof.
  unfold readTags. change (negb true) with false.
  rewrite file_exif_entries. cbn [bind]. change (Z.to_nat 1) with 1%nat.
  rewrite readTags_from_unfold. change (negb true) with false.
  change (38 + 0 * 12 + 2) with 40.
  rewrite file_exif_id. cbn [bind].
  destruct (readTagValue file 40 12 true) as [v|e]; reflexivity.
Qed.

(** The comment as [readTagValue] decodes it. *)
Lemma file_comment :
  readTagValue file 40 12 true
  = if be32 c3 c2 c1 c0 <=? 8 then Ret (VStr [])
    else if be32 c3 c2 c1 c0 - 1 <=? byteLength data
         then Ret (VStr (window data 7 (be32 c3 c2 c1 c0 - 8)))
         else Throw RangeError.
Proof.
  rewrite (readTagValue_fields file 40 12 true 7 (be32 c3 c2 c1 c0) 44
             file_exif_type file_exif_count file_exif_value).
  change (7 =? 7) with true. cbv iota.
  destruct (be32 c3 c2 c1 c0 <=? 8); [reflexivity|].
  change (0 <=? 44 + 12 + 7) with true. cbn [andb]. rewrite file_length.
  replace (44 + 12 + be32 c3 c2 c1 c0 - 1 <=? 56 + byteLength data)
    with (be32 c3 c2 c1 c0 - 1 <=? byteLength data).
  - destruct (be32 c3 c2 c1 c0 - 1 <=? byteLength data); [|reflexivity].
    unfold jpeg_user_comment.
    change (44 + 12 + 7) with (byteLength header + 7).
    rewrite window_app_r by lia. reflexivity.
  - destruct (Z.leb_spec (be32 c3 c2 c1 c0 - 1) (byteLength data));
      symmetry; [apply Z.leb_le|apply Z.leb_gt]; lia.
Qed.

Lemma file_exif_data :
  readEXIFData colors comfy_parse readTags_at_string file 6
  = (v <- readTagValue file 40 12 true ;;
     Ret (EReport (snd (parceMetadata colors comfy_parse
                          (Some [(lit "parameters", v)]))))).
Proof.
  unfold readEXIFData.
  rewrite file_magic. cbn [bind].
  change (negb (eqb_str (lit "Exif") (lit "Exif"))) with false. cbv iota.
  change (6 + 6) with 12.
  rewrite file_order. cbn [bind].
  change (negb ((19789 =? 18761) || (19789 =? 19789))) with false. cbv iota.
  change (negb (19789 =? 18761)) with true. change (negb true) with false.
  change (12 + 2) with 14. rewrite file_42. cbn [bind].
  change (negb (42 =? 42)) with false. cbv iota.
  change (12 + 4) with 16. rewrite file_first_ifd. cbn [bind].
  change (8 <? 8) with false. cbv iota.
  change (12 + 8) with 20. rewrite file_root_tags. cbn [bind].
  change (prop [(lit "ExifIFDPointer", VNum 26)] (lit "ExifIFDPointer"))
    with (VNum 26).
  change (truthy (VNum 26)) with true. cbv iota.
  change (12 + 26) with 38. rewrite file_exif_tags.
  destruct (readTagValue file 40 12 true) as [v|e]; reflexivity.
Qed.

Lemma file_exif_metadata :
  readEXIFMetadata colors comfy_parse readTags_at_string file
  = (v <- readTagValue file 40 12 true ;;
     Ret (EReport (snd (parceMetadata colors comfy_parse
                          (Some [(lit "parameters", v)]))))).
Proof.
  unfold readEXIFMetadata.
  rewrite file_soi_0. cbn [bind]. change (negb (255 =? 255)) with false. cbv iota.
  rewrite file_soi_1. cbn [bind]. change (negb (216 =? 216)) with false. cbv iota.
  rewrite segment_loop_unfold, file_length.
  replace (2 <? 56 + byteLength data) with true
    by (symmetry; apply Z.ltb_lt; unfold byteLength; lia).
  unfold segment_turn.
  rewrite file_marker_2. change (negb (255 =? 255)) with false. cbv iota.
  change (2 + 1) with 3. rewrite file_marker_3.
  change (225 =? 225) with true. cbv iota.
  change (2 + 2) with 4. rewrite file_segment_length.
  change (2 + 4) with 6. apply file_exif_data.
Qed.

Abbreviation readMetadata :=
  (readMetadata colors comfy_parse getFromPngBuffer readTags_at_string).

(** X17: a JPEG file whose first segment is an EXIF segment with a
    big-endian TIFF, a root directory with the pointer to an Exif
    directory, and there a user comment of type 7 and count [n] with
    its bytes right after the directories.  For [n] up to 8 the report
    is that nothing was found.  For a larger [n] of which all bytes but
    the last are in the file, the report is the Forge report of the
    bytes from the eighth on, the last byte left out, and no toast is
    shown.  When more than one byte is missing the report is empty and
    a toast is shown.  The declared segment length has no influence. *)
Theorem readMetadata_user_comment :
  let n := be32 c3 c2 c1 c0 in
  (n <= 8 -> readMetadata ImageJpeg file = Ret ([], no_sections))
  /\ (8 < n -> n - 1 <= byteLength data ->
      readMetadata ImageJpeg file
      = Ret ([], _output (run colors (window data 7 (n - 8)))))
  /\ (8 < n -> byteLength data < n - 1 ->
      readMetadata ImageJpeg file = Ret ([readMetadata_toast], [])).
Proof.
  cbv zeta. unfold ImageUploader.readMetadata.
  rewrite file_exif_metadata, file_comment.
  split; [|split].
  - intros Hn. replace (be32 c3 c2 c1 c0 <=? 8) with true
      by (symmetry; now apply Z.leb_le).
    reflexivity.
  - intros Hn Hdata.
    replace (be32 c3 c2 c1 c0 <=? 8) with false
      by (symmetry; apply Z.leb_gt; lia).
    replace (be32 c3 c2 c1 c0 - 1 <=? byteLength data) with true
      by (symmetry; now apply Z.leb_le).
    cbn [bind].
    assert (Hw : exists x w, window data 7 (be32 c3 c2 c1 c0 - 8) = x :: w).
    { unfold window. unfold byteLength in Hdata.
      destruct (skipn (Z.to_nat 7) data) as [|x rest] eqn:Hs.
      - apply (f_equal (@length byte)) in Hs. rewrite length_skipn in Hs.
        simpl length in Hs. lia.
      - destruct (Z.to_nat (be32 c3 c2 c1 c0 - 8)) as [|k] eqn:Hk; [lia|].
        cbn [firstn List.map]. eexists; eexists; reflexivity. }
    destruct Hw as (x & w & ->). reflexivity.
  - intros Hn Hdata.
    replace (be32 c3 c2 c1 c0 <=? 8) with false
      by (symmetry; apply Z.leb_gt; lia).
    replace (be32 c3 c2 c1 c0 - 1 <=? byteLength data) with false
      by (symmetry; apply Z.leb_gt; lia).
    reflexivity.
Qed.

End File.

Import SpecBase.

Lemma readMetadata_user_comment_witness :
  ImageUploader.readMetadata colors_spec no_comfy no_png no_string_offsets
    ImageJpeg
    (jpeg_user_comment x00 x3f x00 x00 x00 x0b comment_abc)
  = Ret ([], _output (run colors_spec (window comment_abc 7 (11 - 8)))).
Proof.
  destruct (@readMetadata_user_comment base_spec colors_spec no_comfy no_png
              no_string_offsets x00 x3f x00 x00 x00 x0b comment_abc)
    as (_ & H & _).
  apply H; vm_compute; congruence.
Defined.

End ExifFileFacts.

(* ================================================================== *)
(** * What the panel shows *)
(* ================================================================== *)

Module PanelFacts.

Import Regex ForgeUI ImageUploader Spec Shapes Panel StringFacts ExifFacts
  DispatchFacts.

Section Shown.

Context {base : BaseFormat}.
Variable colors : Colors.
Variable panel : PanelColors.

Lemma entryHTML_header (e : str * str) :
  fst e <> lit "Error" ->
  entryHTML colors panel e
  = color_header panel ++ fst e ++ color_default colors ++ snd e.
Proof.
  destruct e as [header value]. cbn [fst snd]. intros H. unfold entryHTML.
  apply ReportFacts.eqb_str_false in H. now rewrite H.
Qed.

Lemma createMetadataContainer_headers (metadata : object str) :
  ~ In (lit "Error") (obj_keys metadata) ->
  createMetadataContainer colors panel metadata
  = join (lit "<br>")
      (List.map (fun e => color_header panel ++ fst e ++ color_default colors
                          ++ snd e) metadata).
Proof.
  intros H. unfold createMetadataContainer. f_equal.
  apply map_ext_in. intros e He. apply entryHTML_header.
  intros E. apply H. unfold obj_keys. rewrite <- E. now apply in_map.
Qed.

Variable comfy_parse : jsvalue -> outcome (object str).
Variable getFromPngBuffer : buffer -> outcome (option (object jsvalue)).
Variable readTags_at_string : buffer -> Z -> str -> bool -> outcome (object jsvalue).

(** X18: what the panel shows for a file of type JPEG, the text
    [createMetadataContainer] builds from the mapping [readMetadata]
    returns: nothing at all (a toast was shown, or the file is no JPEG,
    or it has no EXIF segment or no valid one); or one red message, that
    the parameters section failed or that nothing was found; or the
    entries of a Forge report, each as header and value, separated by
    line breaks and none of them red. *)
Theorem panel_of_jpeg (data : buffer) (toasts : list toast)
    (metadata : object str) :
  readMetadata colors comfy_parse getFromPngBuffer readTags_at_string
    ImageJpeg data = Ret (toasts, metadata) ->
  let html := createMetadataContainer colors panel metadata in
  (metadata = [] /\ html = [] /\ (toasts = [] \/ toasts = [readMetadata_toast]))
  \/ (toasts = [] /\ metadata = parameters_failed
      /\ html = color_red panel ++ lit "Error in parameters section")
  \/ (toasts = [] /\ metadata = no_sections
      /\ html = color_red panel
                ++ lit "No parameters or prompt sections in metadata")
  \/ (toasts = []
      /\ exists s,
           s <> [] /\ metadata = _output (run colors s)
           /\ html
              = join (lit "<br>")
                  (List.map (fun e => color_header panel ++ fst e
                                      ++ color_default colors ++ snd e)
                     metadata)).
Proof.
  unfold readMetadata. cbv zeta.
  destruct (readEXIFMetadata colors comfy_parse readTags_at_string data)
    as [[| |report]|e] eqn:Hexif; cbn [bind try_catch spread]; intros H.
  - left. injection H as <- <-. repeat split. now left.
  - left. injection H as <- <-. repeat split. now left.
  - injection H as <- <-.
    destruct (readEXIFMetadata_report colors _ _ _ _ Hexif)
      as [_ [(s & Hs & ->)|[->| ->]]].
    + right; right; right. split; [reflexivity|]. exists s.
      repeat split; [exact Hs|].
      apply createMetadataContainer_headers, ReportFacts.output_no_error.
    + right; left. repeat split.
    + right; right; left. repeat split.
  - left. injection H as <- <-. repeat split. now right.
Qed.

End Shown.

Import SpecBase.

Lemma panel_of_jpeg_witness :
  exists s,
    s <> [] /\ [(lit "Prompt:<br>", [0%N] ++ lit "ab")] = _output (run colors_spec s)
    /\ createMetadataContainer colors_spec
         {| color_red := lit "[red]"; color_header := lit "[header]" |}
         [(lit "Prompt:<br>", [0%N] ++ lit "ab")]
       = join (lit "<br>")
           (List.map (fun e => lit "[header]" ++ fst e ++ lit "[/]" ++ snd e)
              [(lit "Prompt:<br>", [0%N] ++ lit "ab")]).
Proof.
  destruct (@panel_of_jpeg base_spec colors_spec
              {| color_red := lit "[red]"; color_header := lit "[header]" |}
              no_comfy no_png no_string_offsets jpeg_comment []
              [(lit "Prompt:<br>", [0%N] ++ lit "ab")])
    as [(H & _)|[(_ & H & _)|[(_ & H & _)|(_ & H)]]];
    [vm_compute; reflexivity|discriminate H|discriminate H|discriminate H|exact H].
Defined.

End PanelFacts.

(* ================================================================== *)
(** * A prompt block and a settings line put together *)
(* ================================================================== *)

Module LinesFacts.

Import Regex ForgeUI Spec Shapes StringFacts RunFacts.

Lemma split_app_sep (sep : char) (a b : str) :
  split sep (a ++ sep :: b) = split sep a ++ split sep b.
Proof.
  unfold split. induction a as [|c a IH]; simpl.
  - now rewrite N.eqb_refl.
  - destruct (c =? sep)%N; [now rewrite IH|].
    rewrite IH.
    destruct (split_where_cons (fun c0 _ => (c0 =? sep)%N) a) as [l [ls ->]].
    reflexivity.
Qed.

Lemma lines_of_block_and_line (block line : str) :
  ~ In NL line ->
  last_line_of (split NL (block ++ [NL] ++ line)) = line
  /\ first_line_of (split NL (block ++ [NL] ++ line)) = block.
Proof.
  intros Hline. cbn [app]. rewrite split_app_sep, (split_single NL line Hline).
  destruct (split_where_cons (fun c _ => (c =? NL)%N) block) as [l [ls Hl]].
  fold (split NL block) in Hl.
  assert (Hlen : (2 <= length (split NL block ++ [line]))%nat).
  { rewrite Hl, length_app. simpl. lia. }
  split.
  - unfold last_line_of.
    replace (0 <? length (split NL block ++ [line]))%nat with true
      by (symmetry; apply Nat.ltb_lt; lia).
    apply last_last.
  - unfold first_line_of.
    replace (length (split NL block ++ [line]) =? 1)%nat with false
      by (symmetry; apply Nat.eqb_neq; lia).
    replace (1 <? length (split NL block ++ [line]))%nat with true
      by (symmetry; apply Nat.ltb_lt; lia).
    rewrite removelast_last.
    apply (@join_split_where (fun c _ => (c =? NL)%N) NL block).
    intros c r H. now apply N.eqb_eq in H.
Qed.

Section Run.

Context {base : BaseFormat}.
Variable colors : Colors.

(** X19: for an annotation put together from a prompt block, a line
    feed and a settings line without line feed, [run] reads the
    settings from that line alone and the prompts and references from
    the block alone, whatever the block holds (also line feeds, colons
    and commas). *)
Theorem run_block_and_line (block line : str) :
  ~ In NL line ->
  let r := run colors (block ++ [NL] ++ line) in
  params r = parseParameters line
  /\ positive r = cleanEdges (strip_loras (fst (split_prompt block)))
  /\ negative r = cleanEdges (snd (split_prompt block))
  /\ lora r = match_loras (fst (split_prompt block)).
Proof.
  intros Hline. cbv zeta.
  destruct (run_fields colors (block ++ [NL] ++ line)) as (Hp & Hn & Hl & Hs & _).
  cbv zeta in Hp, Hn, Hl.
  destruct (lines_of_block_and_line block line Hline) as [Hlast Hfirst].
  rewrite Hfirst in Hp, Hn, Hl. rewrite Hlast in Hs. now repeat split.
Qed.

End Run.

Import SpecBase.

Lemma run_block_and_line_witness :
  params (run colors_spec (lit "a cat, Steps: 5" ++ [NL] ++ lit "Steps: 30"))
  = parseParameters (lit "Steps: 30").
Proof.
  destruct (@run_block_and_line base_spec colors_spec
              (lit "a cat, Steps: 5") (lit "Steps: 30")) as [H _].
  - now apply no_line_feed.
  - exact H.
Defined.

End LinesFacts.

(* ================================================================== *)
(** * The segments before the EXIF segment *)
(* ================================================================== *)

Module SegmentFacts.

Import Regex ForgeUI ImageUploader Spec Shapes StringFacts ExifFacts BufferFacts
  ExifFileFacts.

Local Open Scope Z_scope.

(** ** Reads in the second part of a buffer *)

Lemma inside_shift (lp l off w : Z) :
  0 <= lp -> 0 <= off ->
  (0 <=? lp + off) && (lp + off + w <=? lp + l)
  = (0 <=? off) && (off + w <=? l).
Proof.
  intros Hlp Hoff.
  destruct (Z.leb_spec 0 (lp + off)), (Z.leb_spec (lp + off + w) (lp + l)),
    (Z.leb_spec 0 off), (Z.leb_spec (off + w) l); try reflexivity; lia.
Qed.

Lemma byte_at_app_r (a b : buffer) (off : Z) :
  0 <= off -> byte_at (a ++ b) (byteLength a + off) = byte_at b off.
Proof.
  intros H0. unfold byte_at, byteLength. rewrite app_nth2 by lia.
  do 3 f_equal. lia.
Qed.

Lemma getUint8_app_r (a b : buffer) (off : Z) :
  0 <= off -> getUint8 (a ++ b) (byteLength a + off) = getUint8 b off.
Proof.
  intros H0. unfold getUint8. rewrite byteLength_app, inside_shift, byte_at_app_r;
    try assumption; [reflexivity|unfold byteLength; lia].
Qed.

Lemma getUint16_app_r (a b : buffer) (off : Z) (le : bool) :
  0 <= off -> getUint16 (a ++ b) (byteLength a + off) le = getUint16 b off le.
Proof.
  intros H0. unfold getUint16. rewrite byteLength_app, inside_shift;
    [|unfold byteLength; lia|assumption].
  rewrite <- (Z.add_assoc (byteLength a) off 1).
  rewrite !byte_at_app_r by lia. reflexivity.
Qed.

(** ** The header of a segment *)

Lemma byte_of_N_to_N (x : N) :
  (x < 256)%N ->
  Byte.to_N (match Byte.of_N x with Some b => b | None => x00 end) = x.
Proof.
  intros Hx. destruct (Byte.of_N x) as [b|] eqn:E.
  - now apply Byte.to_of_N in E.
  - apply Byte.of_N_None_iff in E. lia.
Qed.

Lemma segment_cons (marker : byte) (payload rest : buffer) :
  exists hi lo,
    segment marker payload ++ rest = [xff; marker; hi; lo] ++ payload ++ rest
    /\ 256 * Z.of_N (Byte.to_N hi) + Z.of_N (Byte.to_N lo)
       = 2 + byteLength payload
       \/ 65534 <= byteLength payload.
Proof.
  destruct (Z.lt_ge_cases (byteLength payload) 65534) as [Hlen|Hlen].
  - set (n := N.of_nat (2 + length payload)).
    exists (match Byte.of_N (n / 256) with Some b => b | None => x00 end),
           (match Byte.of_N (n mod 256) with Some b => b | None => x00 end).
    left. split; [reflexivity|].
    assert (Hn : (n < 65536)%N) by (unfold n, byteLength in *; lia).
    rewrite !byte_of_N_to_N.
    + pose proof (N.div_mod n 256 ltac:(discriminate)) as Hdm.
      unfold byteLength. unfold n in *. lia.
    + apply N.mod_lt. discriminate.
    + apply N.Div0.div_lt_upper_bound. lia.
  - exists x00, x00. now right.
Qed.

Section Loop.

Context {base : BaseFormat}.
Variable colors : Colors.
Variable comfy_parse : jsvalue -> outcome (object str).
Variable getFromPngBuffer : buffer -> outcome (option (object jsvalue)).
Variable readTags_at_string : buffer -> Z -> str -> bool -> outcome (object jsvalue).

Abbreviation segment_turn := (segment_turn colors comfy_parse readTags_at_string).
Abbreviation segment_loop := (segment_loop colors comfy_parse readTags_at_string).
Abbreviation readEXIFData := (readEXIFData colors comfy_parse readTags_at_string).
Abbreviation readEXIFMetadata :=
  (readEXIFMetadata colors comfy_parse readTags_at_string).
Abbreviation readMetadata :=
  (readMetadata colors comfy_parse getFromPngBuffer readTags_at_string).

(** The three reads of a turn at a segment header. *)
Lemma header_reads (pre : buffer) (marker hi lo : byte) (rest : buffer) :
  getUint8 (pre ++ [xff; marker; hi; lo] ++ rest) (byteLength pre) = Ret 0xFF
  /\ getUint8 (pre ++ [xff; marker; hi; lo] ++ rest) (byteLength pre + 1)
     = Ret (Z.of_N (Byte.to_N marker))
  /\ getUint16 (pre ++ [xff; marker; hi; lo] ++ rest) (byteLength pre + 2) false
     = Ret (256 * Z.of_N (Byte.to_N hi) + Z.of_N (Byte.to_N lo)).
Proof.
  split; [|split].
  - rewrite <- (Z.add_0_r (byteLength pre)).
    rewrite getUint8_app_r, getUint8_app_l by (first [lia|vm_compute; discriminate]).
    reflexivity.
  - rewrite getUint8_app_r, getUint8_app_l by (first [lia|vm_compute; discriminate]).
    reflexivity.
  - rewrite getUint16_app_r, getUint16_app_l by (first [lia|vm_compute; discriminate]).
    reflexivity.
Qed.

Lemma marker_other (marker : byte) :
  marker <> xe1 -> (Z.of_N (Byte.to_N marker) =? 225) = false.
Proof.
  intros Hm. apply Z.eqb_neq. intros E. apply Hm.
  apply byte_to_N_inj. apply N2Z.inj. exact E.
Qed.

Lemma segment_turn_skips (pre : buffer) (marker : byte) (payload rest : buffer) :
  skippable (marker, payload) ->
  segment_turn (pre ++ segment marker payload ++ rest) (byteLength pre)
  = Next (byteLength (pre ++ segment marker payload)).
Proof.
  intros [Hm Hlen]. cbn [fst snd] in Hm, Hlen.
  destruct (segment_cons marker payload rest) as (hi & lo & [[Hseg Hval]|Hbig]);
    [|lia].
  assert (Hl : byteLength (pre ++ segment marker payload)
               = byteLength pre + (2 + (2 + byteLength payload))).
  { pose proof (f_equal byteLength Hseg) as E.
    rewrite !byteLength_app in E. rewrite byteLength_app.
    change (byteLength [xff; marker; hi; lo]) with 4 in E. lia. }
  rewrite Hseg, Hl.
  destruct (header_reads pre marker hi lo (payload ++ rest)) as (H0 & H1 & H2).
  unfold ImageUploader.segment_turn.
  rewrite H0. change (negb (255 =? 255)) with false. cbv iota.
  rewrite H1, (marker_other marker Hm), H2, Hval. reflexivity.
Qed.

Lemma segment_loop_skips (segs : list (byte * buffer)) (rest : buffer) :
  Forall skippable segs ->
  forall pre,
    segment_loop (pre ++ segments segs ++ rest) (byteLength pre)
    = segment_loop (pre ++ segments segs ++ rest)
        (byteLength pre + byteLength (segments segs)).
Proof.
  induction 1 as [|[marker payload] segs Hs Hsegs IH]; intros pre.
  - change (byteLength (segments [])) with 0. now rewrite Z.add_0_r.
  - change (segments ((marker, payload) :: segs))
      with (segment marker payload ++ segments segs).
    rewrite segment_loop_unfold at 1.
    assert (Hlt : (byteLength pre
                   <? byteLength (pre ++ (segment marker payload ++ segments segs)
                                      ++ rest)) = true).
    { apply Z.ltb_lt. rewrite !byteLength_app.
      assert (4 <= byteLength (segment marker payload)).
      { unfold segment. rewrite !byteLength_app.
        change (byteLength [xff; marker]) with 2.
        change (byteLength (be16_bytes _)) with 2. unfold byteLength. lia. }
      unfold byteLength in *. lia. }
    rewrite Hlt. rewrite <- (app_assoc (segment marker payload)).
    rewrite (segment_turn_skips pre marker payload (segments segs ++ rest) Hs).
    rewrite (app_assoc pre (segment marker payload)).
    rewrite IH. f_equal. rewrite !byteLength_app. lia.
Qed.

(** X20: the loop of [readEXIFMetadata] passes over every segment
    whose marker is not that of the EXIF segment and lands on the first
    byte after it.  A file that consists of such segments only yields
    [undefined], so [readMetadata] returns the empty mapping and shows
    no toast; a file in which an EXIF segment follows them is read as
    EXIF data from the fifth byte of that segment on, whatever length
    the segment declares. *)
Theorem readEXIFMetadata_skips (segs : list (byte * buffer)) :
  Forall skippable segs ->
  (readEXIFMetadata ([xff; xd8] ++ segments segs) = Ret EUndefined
   /\ readMetadata ImageJpeg ([xff; xd8] ++ segments segs) = Ret ([], []))
  /\ (forall hi lo rest,
         readEXIFMetadata ([xff; xd8] ++ segments segs ++ [xff; xe1; hi; lo] ++ rest)
         = readEXIFData ([xff; xd8] ++ segments segs ++ [xff; xe1; hi; lo] ++ rest)
             (2 + byteLength (segments segs) + 4)).
Proof.
  intros Hsegs.
  assert (Hstart : forall rest,
    readEXIFMetadata ([xff; xd8] ++ segments segs ++ rest)
    = segment_loop ([xff; xd8] ++ segments segs ++ rest)
        (2 + byteLength (segments segs))).
  { intros rest. unfold ImageUploader.readEXIFMetadata.
    change ([xff; xd8] ++ segments segs ++ rest)
      with (xff :: xd8 :: segments segs ++ rest) at 1 2.
    rewrite getUint8_head, getUint8_second. cbn [bind].
    exact (segment_loop_skips segs rest Hsegs [xff; xd8]). }
  split.
  - assert (H : readEXIFMetadata ([xff; xd8] ++ segments segs) = Ret EUndefined).
    { rewrite <- (app_nil_r (segments segs)) at 1. rewrite Hstart.
      rewrite segment_loop_unfold, app_nil_r, byteLength_app.
      change (byteLength [xff; xd8]) with 2. now rewrite Z.ltb_irrefl. }
    split; [exact H|]. unfold ImageUploader.readMetadata. now rewrite H.
  - intros hi lo rest. rewrite Hstart, segment_loop_unfold.
    rewrite (app_assoc [xff; xd8] (segments segs)).
    assert (Hpre : byteLength ([xff; xd8] ++ segments segs)
                   = 2 + byteLength (segments segs))
      by (now rewrite byteLength_app).
    rewrite <- Hpre.
    destruct (header_reads ([xff; xd8] ++ segments segs) xe1 hi lo rest)
      as (H0 & H1 & H2).
    replace (byteLength ([xff; xd8] ++ segments segs)
             <? byteLength (([xff; xd8] ++ segments segs)
                            ++ [xff; xe1; hi; lo] ++ rest)) with true.
    + unfold ImageUploader.segment_turn. rewrite H0.
      change (negb (255 =? 255)) with false. cbv iota.
      rewrite H1. change (Z.of_N (Byte.to_N xe1) =? 225) with true. cbv iota.
      rewrite H2. reflexivity.
    + symmetry. apply Z.ltb_lt. rewrite (byteLength_app (_ ++ _)).
      rewrite (byteLength_app [xff; xe1; hi; lo]).
      change (byteLength [xff; xe1; hi; lo]) with 4. unfold byteLength. lia.
Qed.

End Loop.

Import SpecBase.

Lemma readEXIFMetadata_skips_witness :
  ImageUploader.readEXIFMetadata colors_spec no_comfy no_string_offsets
    ([xff; xd8] ++ segments [(xe0, text "JFIF"); (xdb, bytes [1; 2; 3]%N)])
  = Ret EUndefined.
Proof.
  destruct (@readEXIFMetadata_skips base_spec colors_spec no_comfy no_png
              no_string_offsets
              [(xe0, text "JFIF"); (xdb, bytes [1; 2; 3]%N)]) as [[H _] _].
  - repeat constructor; try discriminate; vm_compute; reflexivity.
  - exact H.
Defined.

End SegmentFacts.

(* ================================================================== *)
(** * The EXIF data: the header and the tag that is reported *)
(* ================================================================== *)

Module ExifDataFacts.

Import Regex ForgeUI ImageUploader Spec Shapes StringFacts ExifFacts BufferFacts.

Local Open Scope Z_scope.

(** ** The tag whose value becomes [parameters] *)

Lemma fold_parameters_shape (exifData : object jsvalue) (ks : list str) :
  forall tags,
    (tags = [] \/ exists v, tags = [(lit "parameters", v)]) ->
    let r := fold_left
               (fun tags tag => obj_set tags (lit "parameters") (prop exifData tag))
               ks tags in
    r = [] \/ exists v, r = [(lit "parameters", v)].
Proof.
  induction ks as [|k ks IH]; intros tags Ht; [exact Ht|].
  cbn [fold_left]. apply IH. right.
  destruct Ht as [->|[v ->]]; eexists; reflexivity.
Qed.

Lemma prop_last (front : object jsvalue) (k : str) (v : jsvalue) :
  ~ In k (obj_keys front) -> prop (front ++ [(k, v)]) k = v.
Proof.
  unfold prop. induction front as [|[k' v'] front IH]; intros Hk; simpl.
  - assert (E : eqb_str k k = true) by now apply eqb_str_eq. now rewrite E.
  - assert (E : eqb_str k' k = false).
    { apply ReportFacts.eqb_str_false. intros ->. apply Hk. now left. }
    rewrite E. apply IH. intros H. apply Hk. now right.
Qed.

(** X22: the loop over the tags of the Exif directory leaves in
    [parameters] the value of the last tag of the mapping, whichever
    tag that is; the values of the tags before it are overwritten. *)
Theorem copy_to_parameters_last (front : object jsvalue) (k : str) (v : jsvalue) :
  NoDup (obj_keys (front ++ [(k, v)])) ->
  copy_to_parameters (front ++ [(k, v)]) [] = [(lit "parameters", v)].
Proof.
  intros Hnd.
  assert (Hk : ~ In k (obj_keys front)).
  { unfold obj_keys in *. rewrite map_app in Hnd. cbn [List.map fst] in Hnd.
    apply NoDup_remove_2 in Hnd. now rewrite app_nil_r in Hnd. }
  unfold copy_to_parameters, obj_keys. rewrite map_app, fold_left_app.
  cbn [List.map fst fold_left]. rewrite (prop_last front k v Hk).
  destruct (fold_parameters_shape (front ++ [(k, v)]) (List.map fst front) [])
    as [->|[v0 ->]]; [now left|reflexivity|reflexivity].
Qed.

Lemma copy_to_parameters_last_witness :
  copy_to_parameters
    ([(lit "UserComment", VStr (lit "a cat"))] ++ [(lit "undefined", VNum 1)]) []
  = [(lit "parameters", VNum 1)].
Proof.
  apply (copy_to_parameters_last [(lit "UserComment", VStr (lit "a cat"))]
           (lit "undefined") (VNum 1)).
  repeat constructor; simpl; intuition discriminate.
Defined.

(** ** Reads that pass by two bytes *)

Lemma getUint32_nonneg (b : buffer) (off : Z) (le : bool) (v : Z) :
  getUint32 b off le = Ret v -> 0 <= v.
Proof.
  unfold getUint32.
  destruct ((0 <=? off) && (off + 4 <=? byteLength b)); [|discriminate].
  pose proof (byte_at_nonneg b off). pose proof (byte_at_nonneg b (off + 1)).
  pose proof (byte_at_nonneg b (off + 2)). pose proof (byte_at_nonneg b (off + 3)).
  destruct le; intros H3; assert (E := f_equal (fun o => match o with
                                                       | Ret x => x
                                                       | Throw _ => 0
                                                       end) H3);
    cbv beta iota in E; lia.
Qed.

Section Frame.

Variables a b : buffer.
Variable i : Z.
Hypothesis Hab : differ_only_at a b i.

Lemma frame_length : byteLength a = byteLength b.
Proof. unfold byteLength. destruct Hab as [-> _]. reflexivity. Qed.

Lemma frame_byte (k : Z) :
  0 <= k -> k + 1 <= i \/ i + 2 <= k -> byte_at a k = byte_at b k.
Proof. intros H0 Hk. destruct Hab as [_ H]. apply H; lia. Qed.

Lemma frame_getUint8 (off : Z) :
  off + 1 <= i \/ i + 2 <= off -> getUint8 a off = getUint8 b off.
Proof.
  intros Hoff. unfold getUint8. rewrite frame_length.
  destruct (Z.leb_spec 0 off) as [H0|]; [|reflexivity].
  destruct (off + 1 <=? byteLength b); [|reflexivity]. cbn [andb].
  now rewrite frame_byte.
Qed.

Lemma frame_getUint16 (off : Z) (le : bool) :
  off + 2 <= i \/ i + 2 <= off -> getUint16 a off le = getUint16 b off le.
Proof.
  intros Hoff. unfold getUint16. rewrite frame_length.
  destruct (Z.leb_spec 0 off) as [H0|]; [|reflexivity].
  destruct (off + 2 <=? byteLength b); [|reflexivity]. cbn [andb].
  rewrite !frame_byte by lia. reflexivity.
Qed.

Lemma frame_getUint32 (off : Z) (le : bool) :
  off + 4 <= i \/ i + 2 <= off -> getUint32 a off le = getUint32 b off le.
Proof.
  intros Hoff. unfold getUint32. rewrite frame_length.
  destruct (Z.leb_spec 0 off) as [H0|]; [|reflexivity].
  destruct (off + 4 <=? byteLength b); [|reflexivity]. cbn [andb].
  rewrite !frame_byte by lia. reflexivity.
Qed.

Lemma frame_getStringFromDB_from (count : nat) :
  forall off,
    off + Z.of_nat count <= i \/ i + 2 <= off ->
    getStringFromDB_from a off count = getStringFromDB_from b off count.
Proof.
  induction count as [|count IH]; intros off Hoff; [reflexivity|].
  cbn [getStringFromDB_from].
  rewrite frame_getUint8 by lia. rewrite IH by lia. reflexivity.
Qed.

Lemma frame_getStringFromDB (start len : Z) :
  i + 2 <= start \/ (0 <= len /\ start + len <= i) ->
  getStringFromDB a start len = getStringFromDB b start len.
Proof.
  intros H. unfold getStringFromDB. apply frame_getStringFromDB_from. lia.
Qed.

Lemma frame_readTagValue (entryOffset tiffStart : Z) (bigEnd : bool) :
  i <= entryOffset -> i <= tiffStart + 5 ->
  readTagValue a entryOffset tiffStart bigEnd
  = readTagValue b entryOffset tiffStart bigEnd.
Proof.
  intros He Ht. unfold readTagValue.
  rewrite (frame_getUint16 (entryOffset + 2)) by lia.
  destruct (getUint16 b (entryOffset + 2) (negb bigEnd)) as [type|e];
    cbn [bind]; [|reflexivity].
  rewrite (frame_getUint32 (entryOffset + 4)) by lia.
  destruct (getUint32 b (entryOffset + 4) (negb bigEnd)) as [n|e];
    cbn [bind]; [|reflexivity].
  rewrite (frame_getUint32 (entryOffset + 8)) by lia.
  destruct (getUint32 b (entryOffset + 8) (negb bigEnd)) as [field|e] eqn:Hf;
    cbn [bind]; [|reflexivity].
  apply getUint32_nonneg in Hf.
  destruct (type =? 7).
  - rewrite frame_getStringFromDB; [reflexivity|].
    left. destruct (4 <? n); lia.
  - reflexivity.
Qed.

Lemma frame_readTags_from (tiffStart dirStart : Z) (strings : tag_table)
    (bigEnd : bool) (count : nat) :
  i <= dirStart -> i <= tiffStart + 5 ->
  forall idx tags,
    0 <= idx ->
    readTags_from a tiffStart dirStart strings bigEnd idx count tags
    = readTags_from b tiffStart dirStart strings bigEnd idx count tags.
Proof.
  intros Hd Ht. induction count as [|count IH]; intros idx tags Hidx;
    [reflexivity|].
  rewrite !readTags_from_unfold.
  rewrite (frame_getUint16 (dirStart + idx * 12 + 2)) by lia.
  destruct (getUint16 b (dirStart + idx * 12 + 2) (negb bigEnd)) as [id|e];
    cbn [bind]; [|reflexivity].
  rewrite frame_readTagValue by lia.
  destruct (readTagValue b (dirStart + idx * 12 + 2) tiffStart bigEnd) as [v|e];
    cbn [bind]; [|reflexivity].
  apply IH. lia.
Qed.

Lemma frame_readTags (tiffStart dirStart : Z) (strings : tag_table)
    (bigEnd : bool) :
  i + 2 <= dirStart -> i <= tiffStart + 5 ->
  readTags a tiffStart dirStart strings bigEnd
  = readTags b tiffStart dirStart strings bigEnd.
Proof.
  intros Hd Ht. unfold readTags.
  rewrite (frame_getUint16 dirStart) by lia.
  destruct (getUint16 b dirStart (negb bigEnd)) as [entries|e];
    cbn [bind]; [|reflexivity].
  apply frame_readTags_from; lia.
Qed.

End Frame.

(** ** Numbers in a directory *)

Lemma readTagValue_nonneg (file : buffer) (entryOffset tiffStart : Z)
    (bigEnd : bool) (n : Z) :
  readTagValue file entryOffset tiffStart bigEnd = Ret (VNum n) -> 0 <= n.
Proof.
  unfold readTagValue.
  destruct (getUint16 file (entryOffset + 2) (negb bigEnd)) as [type|];
    cbn [bind]; [|discriminate].
  destruct (getUint32 file (entryOffset + 4) (negb bigEnd)) as [count|];
    cbn [bind]; [|discriminate].
  destruct (getUint32 file (entryOffset + 8) (negb bigEnd)) as [field|] eqn:Hf;
    cbn [bind]; [|discriminate].
  apply getUint32_nonneg in Hf.
  destruct (type =? 7).
  - destruct (getStringFromDB file
                ((if 4 <? count then field + tiffStart else entryOffset + 8) + 7)
                (count - 8)); cbn [bind]; discriminate.
  - destruct (type =? 4); [|discriminate].
    destruct (count =? 1); [|discriminate].
    cbn [bind]. intros H. assert (n = field) by congruence. lia.
Qed.

Lemma obj_set_nonneg (tags : object jsvalue) (k : str) (v : jsvalue) :
  numbers_nonneg tags ->
  (forall n, v = VNum n -> 0 <= n) ->
  numbers_nonneg (obj_set tags k v).
Proof.
  intros Htags Hv f n. destruct (eqb_str k f) eqn:E.
  - apply eqb_str_eq in E. subst f. rewrite ReportFacts.obj_get_set_same.
    intros H. apply Hv. congruence.
  - apply ReportFacts.eqb_str_false in E.
    rewrite ReportFacts.obj_get_set_other by exact E. apply Htags.
Qed.

Lemma readTags_from_nonneg (file : buffer) (tiffStart dirStart : Z)
    (strings : tag_table) (bigEnd : bool) (count : nat) :
  forall idx tags0 tags,
    numbers_nonneg tags0 ->
    readTags_from file tiffStart dirStart strings bigEnd idx count tags0 = Ret tags ->
    numbers_nonneg tags.
Proof.
  induction count as [|count IH]; intros idx tags0 tags H0.
  - intros H. injection H as <-. exact H0.
  - rewrite readTags_from_unfold.
    destruct (getUint16 file (dirStart + idx * 12 + 2) (negb bigEnd)) as [id|];
      cbn [bind]; [|discriminate].
    destruct (readTagValue file (dirStart + idx * 12 + 2) tiffStart bigEnd)
      as [v|] eqn:Hv; cbn [bind]; [|discriminate].
    apply IH. apply obj_set_nonneg; [exact H0|].
    intros n ->. exact (readTagValue_nonneg _ _ _ _ _ Hv).
Qed.

Lemma readTags_pointer_nonneg (file : buffer) (tiffStart dirStart : Z)
    (strings : tag_table) (bigEnd : bool) (tags : object jsvalue) (k : str)
    (p : Z) :
  readTags file tiffStart dirStart strings bigEnd = Ret tags ->
  prop tags k = VNum p -> 0 <= p.
Proof.
  unfold readTags.
  destruct (getUint16 file dirStart (negb bigEnd)) as [entries|];
    cbn [bind]; [|discriminate].
  intros H Hp.
  apply readTags_from_nonneg in H; [|intros f n E; discriminate E].
  unfold prop in Hp. destruct (obj_get tags k) as [v|] eqn:E; [|discriminate].
  subst v. exact (H k p E).
Qed.

(** ** The header of the EXIF data *)

Section Header.

Context {base : BaseFormat}.
Variable colors : Colors.
Variable comfy_parse : jsvalue -> outcome (object str).
Variable readTags_at_string : buffer -> Z -> str -> bool -> outcome (object jsvalue).

Abbreviation readEXIFData := (readEXIFData colors comfy_parse readTags_at_string).

Abbreviation valid_exif := (valid_exif readTags_at_string).
Abbreviation exif_directory_read := (exif_directory_read readTags_at_string).

Lemma readEXIFData_valid (file : buffer) (start : Z) (report : object str) :
  readEXIFData file start = Ret (EReport report) -> valid_exif file start.
Proof.
  unfold ImageUploader.readEXIFData, Shapes.valid_exif.
  destruct (getStringFromDB file start 4) as [magic|e] eqn:Hmagic; cbn [bind];
    [|discriminate].
  destruct (eqb_str magic (lit "Exif")) eqn:Hexif; cbn [negb]; [|discriminate].
  apply eqb_str_eq in Hexif. subst magic.
  destruct (getUint16 file (start + 6) false) as [order|e] eqn:Horder; cbn [bind];
    [|discriminate].
  destruct ((order =? 18761) || (order =? 19789)) eqn:Hmark; cbn [negb];
    [|discriminate].
  destruct (getUint16 file (start + 6 + 2) (negb (negb (order =? 18761))))
    as [magic42|e] eqn:H42; cbn [bind]; [|discriminate].
  destruct (magic42 =? 42) eqn:E42; cbn [negb]; [|discriminate].
  apply Z.eqb_eq in E42. subst magic42.
  destruct (getUint32 file (start + 6 + 4) (negb (negb (order =? 18761))))
    as [first|e] eqn:Hfirst; cbn [bind]; [|discriminate].
  destruct (Z.ltb_spec first 8) as [|Hge]; [discriminate|].
  destruct (readTags file (start + 6) (start + 6 + first) TiffTags
              (negb (order =? 18761))) as [tiff|e] eqn:Htiff; cbn [bind];
    [|discriminate].
  intros Hrest. split; [reflexivity|].
  assert (Hmm : order = (if negb (order =? 18761) then 19789 else 18761)).
  { destruct (Z.eqb_spec order 18761) as [E|Hne]; [exact E|].
    cbn [orb] in Hmark. now apply Z.eqb_eq in Hmark. }
  exists (negb (order =? 18761)), first, tiff.
  split; [now rewrite <- Hmm|]. split; [exact H42|]. split; [exact Hfirst|].
  split; [exact Hge|]. split; [exact Htiff|].
  unfold Shapes.exif_directory_read.
  destruct (prop tiff (lit "ExifIFDPointer")) as [|p|s]; [exact I| |].
  - destruct (Z.eqb_spec p 0) as [->|Hp]; [now left|]. right.
    cbn [truthy] in Hrest. apply Z.eqb_neq in Hp. rewrite Hp in Hrest.
    cbn [negb] in Hrest.
    destruct (readTags file (start + 6) (start + 6 + p) ExifTags
                (negb (order =? 18761))) as [exifData|e];
      [now exists exifData|discriminate Hrest].
  - destruct s as [|c s]; [now left|]. right. cbn [truthy] in Hrest.
    destruct (readTags_at_string file (start + 6) (c :: s) (negb (order =? 18761)))
      as [exifData|e]; [now exists exifData|discriminate Hrest].
Qed.

Lemma valid_readEXIFData (file : buffer) (start : Z) :
  valid_exif file start ->
  exists report, readEXIFData file start = Ret (EReport report).
Proof.
  intros (Hmagic & bigEnd & first & tiff & Horder & H42 & Hfirst & Hge & Htiff
          & Hexif).
  unfold ImageUploader.readEXIFData. rewrite Hmagic. cbn [bind].
  change (negb (eqb_str (lit "Exif") (lit "Exif"))) with false. cbv iota.
  rewrite Horder. cbn [bind].
  assert (Hb : negb ((if bigEnd then 19789 else 18761) =? 18761) = bigEnd)
    by (destruct bigEnd; reflexivity).
  assert (Hm : negb (((if bigEnd then 19789 else 18761) =? 18761)
                     || ((if bigEnd then 19789 else 18761) =? 19789)) = false)
    by (destruct bigEnd; reflexivity).
  rewrite Hm, Hb, H42. cbn [bind].
  change (negb (42 =? 42)) with false. cbv iota.
  rewrite Hfirst. cbn [bind].
  replace (first <? 8) with false by (symmetry; apply Z.ltb_ge; lia).
  rewrite Htiff. cbn [bind].
  unfold Shapes.exif_directory_read in Hexif.
  destruct (prop tiff (lit "ExifIFDPointer")) as [|p|s].
  - eexists. reflexivity.
  - cbn [truthy]. destruct (Z.eqb_spec p 0) as [->|Hp]; cbn [negb].
    + eexists. reflexivity.
    + destruct Hexif as [E|[exifData Hread]]; [contradiction|].
      rewrite Hread. eexists. reflexivity.
  - destruct s as [|c s]; cbn [truthy].
    + eexists. reflexivity.
    + destruct Hexif as [E|[exifData Hread]]; [discriminate E|].
      rewrite Hread. eexists. reflexivity.
Qed.

Lemma readEXIFData_frame (file file' : buffer) (start : Z) :
  differ_only_at file' file (start + 4) ->
  (forall s bigEnd,
      readTags_at_string file' (start + 6) s bigEnd
      = readTags_at_string file (start + 6) s bigEnd) ->
  readEXIFData file' start = readEXIFData file start.
Proof.
  intros Hd Hstrings. unfold ImageUploader.readEXIFData.
  rewrite (frame_getStringFromDB file' file (start + 4) Hd start 4) by lia.
  destruct (getStringFromDB file start 4) as [magic|e]; cbn [bind]; [|reflexivity].
  destruct (negb (eqb_str magic (lit "Exif"))); [reflexivity|].
  rewrite (frame_getUint16 file' file (start + 4) Hd (start + 6)) by lia.
  destruct (getUint16 file (start + 6) false) as [order|e]; cbn [bind];
    [|reflexivity].
  destruct (negb ((order =? 18761) || (order =? 19789))); [reflexivity|].
  rewrite (frame_getUint16 file' file (start + 4) Hd (start + 6 + 2)) by lia.
  destruct (getUint16 file (start + 6 + 2) (negb (negb (order =? 18761))))
    as [magic42|e]; cbn [bind]; [|reflexivity].
  destruct (negb (magic42 =? 42)); [reflexivity|].
  rewrite (frame_getUint32 file' file (start + 4) Hd (start + 6 + 4)) by lia.
  destruct (getUint32 file (start + 6 + 4) (negb (negb (order =? 18761))))
    as [first|e]; cbn [bind]; [|reflexivity].
  destruct (Z.ltb_spec first 8) as [|Hge]; [reflexivity|].
  rewrite (frame_readTags file' file (start + 4) Hd) by lia.
  destruct (readTags file (start + 6) (start + 6 + first) TiffTags
              (negb (order =? 18761))) as [tiff|e] eqn:Htiff; cbn [bind];
    [|reflexivity].
  destruct (prop tiff (lit "ExifIFDPointer")) as [|p|s] eqn:Hp.
  - reflexivity.
  - pose proof (readTags_pointer_nonneg _ _ _ _ _ _ _ _ Htiff Hp) as Hpos.
    cbn [truthy]. destruct (Z.eqb_spec p 0) as [->|Hne]; cbn [negb];
      [reflexivity|].
    rewrite (frame_readTags file' file (start + 4) Hd) by lia. reflexivity.
  - rewrite Hstrings. reflexivity.
Qed.

(** X23: [readEXIFData] returns a report exactly for data with a valid
    header and directories that can be read: the four characters [Exif]
    at [start], a byte-order mark [II] or [MM] six bytes on, the number
    42 and an offset of the first directory of at least 8, both in that
    byte order, a root directory that [readTags] can read and, when it
    holds a truthy pointer, an Exif directory that can be read.  The
    fourteen bytes of the header then lie inside the buffer.  The two
    bytes after [Exif] are not looked at: two buffers of one length
    that differ in these two bytes only give the same result, as long
    as the reader for a pointer that is a string, which is left open,
    gives the same on both. *)
Theorem readEXIFData_header (file : buffer) (start : Z) :
  ((exists report, readEXIFData file start = Ret (EReport report))
   <-> valid_exif file start)
  /\ (forall report,
         readEXIFData file start = Ret (EReport report) ->
         0 <= start /\ start + 14 <= byteLength file)
  /\ (forall file',
         differ_only_at file' file (start + 4) ->
         (forall s bigEnd,
             readTags_at_string file' (start + 6) s bigEnd
             = readTags_at_string file (start + 6) s bigEnd) ->
         readEXIFData file' start = readEXIFData file start).
Proof.
  split; [|split].
  - split.
    + intros [report H]. exact (readEXIFData_valid file start report H).
    + apply valid_readEXIFData.
  - intros report H. apply readEXIFData_valid in H.
    destruct H as (Hmagic & bigEnd & first & tiff & _ & _ & Hfirst & _).
    apply getUint32_Ret in Hfirst.
    destruct (getStringFromDB_windows file start 4) as (_ & _ & Hout).
    destruct (Z.lt_ge_cases start 0) as [Hneg|Hpos]; [|lia].
    rewrite Hout in Hmagic by lia. discriminate.
  - intros file'. apply readEXIFData_frame.
Qed.

End Header.

Import SpecBase.

(** The file with the user comment, and the same file with other bytes
    after [Exif]. *)
Lemma readEXIFData_header_witness :
  ImageUploader.readEXIFData colors_spec no_comfy no_string_offsets
    (bytes [0xFF; 0xD8; 0xFF; 0xE1; 0; 63]%N ++ text "Exif" ++ text "xy"
     ++ skipn 12 jpeg_comment) 6
  = ImageUploader.readEXIFData colors_spec no_comfy no_string_offsets
      jpeg_comment 6.
Proof.
  destruct (@readEXIFData_header base_spec colors_spec no_comfy no_string_offsets
              jpeg_comment 6) as (_ & _ & H).
  apply H; [|reflexivity].
  split; [reflexivity|].
  intros k H0 H10 H11.
  assert (Hk : k < 10 \/ 12 <= k) by lia.
  destruct Hk as [Hk|Hk].
  - assert (E : k = 0 \/ k = 1 \/ k = 2 \/ k = 3 \/ k = 4 \/ k = 5 \/ k = 6
                \/ k = 7 \/ k = 8 \/ k = 9) by lia.
    repeat (destruct E as [->|E]; [reflexivity|]). subst k. reflexivity.
  - unfold byte_at. f_equal. f_equal.
    replace (Z.to_nat k) with (12 + Z.to_nat (k - 12))%nat by lia.
    reflexivity.
Defined.

End ExifDataFacts.

(* ================================================================== *)
(** * Nothing found: the dispatcher, the PNG path and the EXIF path *)
(* ================================================================== *)

Module NothingFoundFacts.

Import Regex ForgeUI ImageUploader Spec Shapes StringFacts ExifFacts DispatchFacts.

Section Uploader.

Context {base : BaseFormat}.
Variable colors : Colors.
Variable comfy_parse : jsvalue -> outcome (object str).
Variable getFromPngBuffer : buffer -> outcome (option (object jsvalue)).
Variable readTags_at_string : buffer -> Z -> str -> bool -> outcome (object jsvalue).

Abbreviation parceMetadata := (parceMetadata colors comfy_parse).
Abbreviation readEXIFMetadata :=
  (readEXIFMetadata colors comfy_parse readTags_at_string).
Abbreviation readMetadata :=
  (readMetadata colors comfy_parse getFromPngBuffer readTags_at_string).



End Uploader.

Import SpecBase.



End NothingFoundFacts.
